(** * fileserver-go: the rolling log writer (package lumberjack) and its collaborators

    A shallow embedding of the Go sources:
    - [lumberjack/lumberjack.go]  : [Logger], [Write], [Rotate], [Close],
      [openNew], [openExistingOrNew], [processName] and the getters;
    - package [utilities]         : [SanitizeFilename] and the MD5 functions
      (with [crypto/md5] and [encoding/hex], which they call);
    - package [api]               : [authen], [ValidateMiddleware],
      [UploadHandler];
    - package [logger]            : [New], [SetLevel], [SetPrefix],
      [SetStreamSingle], [SetStreamMulti];
    - package [configurationmanager] : [Load] and the getters.

    Go strings are [string] (sequences of 8-bit characters), byte slices are
    [list Byte.byte], Go's [int], [int64] and [time.Duration] are [Z] with the
    64-bit wrap-around written out ([wrap64]).  The operating system is an
    explicit [world]: a table of directory entries (regular files pointing at
    inodes, symbolic links), the inode contents, a clock, and a table of
    injected faults.  Every method of [Logger] threads the logger and the
    world through a small outcome monad that also records Go panics and
    loops that run out of fuel.

    What the model leaves out: the mutex of [Logger] (calls are sequential),
    directories as entries ([MkdirAll] makes the parents exist), relative
    path resolution (a name is the key it is written as, and the target of
    a link is looked up as it stands, which is exact for absolute clean
    names: the theorems that follow the link of the destination are stated
    for such a destination, [absolute_clean]), daylight-saving changes of the
    local zone (a zone is a fixed offset), and the 63-bit bound on the
    search counter of [processName].  The Go libraries the logger calls
    ([path/filepath], [time], [bufio], [os]) are modelled from their
    documented behaviour on Unix.  Of the server, the model leaves out the
    configuration library (what it answers for a file is the record
    [Viper]), the parsing of the multipart request (what it yields is the
    record [Form]), the contents of the HTML templates (a template parses or
    does not), and the mutexes. *)

From Stdlib Require Import ZArith Lia Ascii String List.
From stdpp Require Import base option list gmap strings pretty.

Local Open Scope Z_scope.

(* ===================================================================== *)
(** * Machine integers *)
(* ===================================================================== *)

(** Two's complement reduction of an integer to a signed 64-bit value: what
    Go's [int64] (and [int] on the 64-bit targets) arithmetic computes. *)
Definition wrap64 (x : Z) : Z := (x + 2 ^ 63) mod 2 ^ 64 - 2 ^ 63.

Definition add64 (x y : Z) : Z := wrap64 (x + y).
Definition mul64 (x y : Z) : Z := wrap64 (x * y).

(** [contains c s]: the byte [c] occurs in the string [s]. *)
Fixpoint contains (c : ascii) (s : string) : bool :=
  match s with
  | EmptyString => false
  | String d r => bool_decide (d = c) || contains c r
  end.

(* ===================================================================== *)
(** * Package path/filepath (Unix), as far as the logger uses it *)
(* ===================================================================== *)

Module Filepath.

Definition Separator : ascii := "/"%char.

Definition IsPathSeparator (c : ascii) : bool := bool_decide (c = Separator).

(** [has_sep s]: some byte of [s] is a separator. *)
Definition has_sep (s : string) : bool := contains Separator s.

Definition has_dot (s : string) : bool := contains "."%char s.

(** The bytes after the last separator: [path[i+1:]] for the largest [i] with
    [IsPathSeparator(path[i])], the whole string when there is none. *)
Fixpoint last_elem (s : string) : string :=
  match s with
  | EmptyString => EmptyString
  | String c r => if has_sep s then last_elem r else s
  end.

(** The bytes up to and including the last separator: [path[:i+1]]. *)
Fixpoint dir_part (s : string) : string :=
  match s with
  | EmptyString => EmptyString
  | String c r => if has_sep s then String c (dir_part r) else EmptyString
  end.

(** Remove the trailing separators. *)
Fixpoint strip_trailing (s : string) : string :=
  match s with
  | EmptyString => EmptyString
  | String c r =>
      match strip_trailing r with
      | EmptyString => if IsPathSeparator c then EmptyString else String c EmptyString
      | r' => String c r'
      end
  end.

(** Split at every separator: ["a//b"] gives [["a"; ""; "b"]]. *)
Fixpoint split_sep (s : string) : list string :=
  match s with
  | EmptyString => [EmptyString]
  | String c r =>
      if IsPathSeparator c then EmptyString :: split_sep r
      else match split_sep r with
           | h :: t => String c h :: t
           | [] => [String c EmptyString]
           end
  end.

(** One path element of [Clean]'s loop.  [out] is the stack of elements kept
    so far, innermost first.  An empty element and ["."] are skipped; [".."]
    removes the element on top when there is one to remove ([out.w > dotdot]),
    is dropped at the root of a rooted path and is kept in front of a
    relative one; any other element is pushed. *)
Definition clean_step (rooted : bool) (out : list string) (e : string) : list string :=
  if bool_decide (e = "") then out
  else if bool_decide (e = ".") then out
  else if bool_decide (e = "..") then
    match out with
    | top :: rest => if bool_decide (top = "..") then e :: out else rest
    | [] => if rooted then [] else [e]
    end
  else e :: out.

(** [filepath.Clean]: the shortest path name equivalent to [path] by purely
    lexical processing. *)
Definition Clean (path : string) : string :=
  match path with
  | EmptyString => "."
  | String c _ =>
      let rooted := IsPathSeparator c in
      let out := fold_left (clean_step rooted) (split_sep path) [] in
      let body := String.concat "/" (rev out) in
      if rooted then "/" +:+ body
      else if bool_decide (body = "") then "." else body
  end.

(** [filepath.Dir]: all but the last element of [path], cleaned. *)
Definition Dir (path : string) : string := Clean (dir_part path).

(** [filepath.Base]: the last element of [path]; trailing separators are
    removed first; ["."] for the empty path, ["/"] for a path of separators. *)
Definition Base (path : string) : string :=
  match path with
  | EmptyString => "."
  | _ =>
      match last_elem (strip_trailing path) with
      | EmptyString => "/"
      | b => b
      end
  end.

(** [filepath.Ext]: the suffix beginning at the final dot in the final
    element of [path]; empty if there is no dot. *)
Fixpoint Ext (path : string) : string :=
  match path with
  | EmptyString => EmptyString
  | String c r =>
      if has_sep r then Ext r
      else if has_dot r then Ext r
      else if bool_decide (c = "."%char) then path
      else EmptyString
  end.

(** [filepath.Join]: the elements joined with separators and cleaned; empty
    elements are ignored, and the result is empty when all are. *)
Fixpoint Join (elem : list string) : string :=
  match elem with
  | [] => EmptyString
  | e :: rest =>
      if bool_decide (e = "") then Join rest
      else Clean (String.concat "/" elem)
  end.

End Filepath.

(* ===================================================================== *)
(** * Packages crypto/md5 and encoding/hex *)
(* ===================================================================== *)

Module Md5.

Definition byte := Byte.byte.

Definition Z_of_byte (b : byte) : Z := Z.of_N (Byte.to_N b).

Definition byte_of_Z (x : Z) : byte :=
  byte_of_ascii (ascii_of_N (Z.to_N (x mod 256))).

(** Arithmetic of [uint32]. *)
Definition u32 (x : Z) : Z := x mod 2 ^ 32.

Definition not32 (x : Z) : Z := Z.lxor x (2 ^ 32 - 1).

(** [bits.RotateLeft32]. *)
Definition rotl (x c : Z) : Z := u32 (Z.lor (Z.shiftl x c) (Z.shiftr x (32 - c))).

(** The sines table: [floor(2^32 * abs(sin(i + 1)))]. *)
Definition K : list Z :=
  [3614090360; 3905402710; 606105819; 3250441966;
   4118548399; 1200080426; 2821735955; 4249261313;
   1770035416; 2336552879; 4294925233; 2304563134;
   1804603682; 4254626195; 2792965006; 1236535329;
   4129170786; 3225465664; 643717713; 3921069994;
   3593408605; 38016083; 3634488961; 3889429448;
   568446438; 3275163606; 4107603335; 1163531501;
   2850285829; 4243563512; 1735328473; 2368359562;
   4294588738; 2272392833; 1839030562; 4259657740;
   2763975236; 1272893353; 4139469664; 3200236656;
   681279174; 3936430074; 3572445317; 76029189;
   3654602809; 3873151461; 530742520; 3299628645;
   4096336452; 1126891415; 2878612391; 4237533241;
   1700485571; 2399980690; 4293915773; 2240044497;
   1873313359; 4264355552; 2734768916; 1309151649;
   4149444226; 3174756917; 718787259; 3951481745].

(** The rotation amounts of the four rounds. *)
Definition shifts : list Z :=
  [7; 12; 17; 22; 7; 12; 17; 22; 7; 12; 17; 22; 7; 12; 17; 22;
   5; 9; 14; 20; 5; 9; 14; 20; 5; 9; 14; 20; 5; 9; 14; 20;
   4; 11; 16; 23; 4; 11; 16; 23; 4; 11; 16; 23; 4; 11; 16; 23;
   6; 10; 15; 21; 6; 10; 15; 21; 6; 10; 15; 21; 6; 10; 15; 21].

Definition state : Type := Z * Z * Z * Z.

(** The initial state of [digest.Reset]. *)
Definition init : state := (1732584193, 4023233417, 2562383102, 271733878).

(** Operation [i] of the 64 on the block of words [M]. *)
Definition step (M : list Z) (st : state) (i : nat) : state :=
  let '(a, b, c, d) := st in
  let '(f, g) :=
    if (i <? 16)%nat then (Z.lor (Z.land b c) (Z.land (not32 b) d), i)
    else if (i <? 32)%nat then
      (Z.lor (Z.land d b) (Z.land (not32 d) c), ((5 * i + 1) mod 16)%nat)
    else if (i <? 48)%nat then (Z.lxor (Z.lxor b c) d, ((3 * i + 5) mod 16)%nat)
    else (Z.lxor c (Z.lor b (not32 d)), ((7 * i) mod 16)%nat) in
  let f := u32 (f + a + K !!! i + M !!! g) in
  (d, u32 (b + rotl f (shifts !!! i)), b, c).

(** A little-endian word of four bytes, and back. *)
Definition word (bs : list byte) : Z :=
  fold_right (fun b acc => Z_of_byte b + 256 * acc) 0 bs.

Definition le32 (x : Z) : list byte :=
  [byte_of_Z x; byte_of_Z (x / 2 ^ 8); byte_of_Z (x / 2 ^ 16); byte_of_Z (x / 2 ^ 24)].

(** The sixteen words of a block of 64 bytes. *)
Fixpoint words (n : nat) (bs : list byte) : list Z :=
  match n with
  | O => []
  | S k => word (take 4 bs) :: words k (drop 4 bs)
  end.

(** [block]: one block of 64 bytes is taken into the state. *)
Definition block (st : state) (bs : list byte) : state :=
  let '(a0, b0, c0, d0) := st in
  let '(a, b, c, d) := fold_left (step (words 16 bs)) (seq 0 64) st in
  (u32 (a0 + a), u32 (b0 + b), u32 (c0 + c), u32 (d0 + d)).

Fixpoint blocks (n : nat) (st : state) (bs : list byte) : state :=
  match n with
  | O => st
  | S k => blocks k (block st (take 64 bs)) (drop 64 bs)
  end.

(** The padding of [checkSum]: the byte 0x80, zeros up to 56 modulo 64,
    the length in bits as a little-endian [uint64]. *)
Definition padding (len : nat) : list byte :=
  let zeros := ((119 - len mod 64) mod 64)%nat in
  let bits := (8 * Z.of_nat len) mod 2 ^ 64 in
  byte_of_Z 128 :: replicate zeros (byte_of_Z 0)
    ++ le32 (bits mod 2 ^ 32) ++ le32 (bits / 2 ^ 32).

(** [md5.New()], [Write(data)], [Sum(nil)]: the digest of 16 bytes. *)
Definition Sum (data : list byte) : list byte :=
  let padded := data ++ padding (length data) in
  let '(a, b, c, d) := blocks (length padded / 64) init padded in
  le32 a ++ le32 b ++ le32 c ++ le32 d.

End Md5.

Module Hex.

Definition hextable : string := "0123456789abcdef".

Definition digit (n : Z) : ascii :=
  default "0"%char (list_ascii_of_string hextable !! Z.to_nat n).

(** [hex.EncodeToString]: two digits for every byte, high half first. *)
Fixpoint EncodeToString (src : list Byte.byte) : string :=
  match src with
  | [] => ""
  | b :: rest =>
      String (digit (Md5.Z_of_byte b / 16))
        (String (digit (Md5.Z_of_byte b mod 16)) (EncodeToString rest))
  end.

End Hex.

(* ===================================================================== *)
(** * Package utilities *)
(* ===================================================================== *)

Module Utilities.

(** The character class of the regular expression of [SanitizeFilename]:
    [\x5C\x2F\x3F\x25\x2A\x3A\x7C\x22\x3E\x3C\x20]. *)
Definition reserved_codes : list nat :=
  [92; 47; 63; 37; 42; 58; 124; 34; 62; 60; 32]%nat.

Definition is_reserved (c : ascii) : bool :=
  bool_decide (nat_of_ascii c ∈ reserved_codes).

(** [rep.ReplaceAllString(filename, "_")]: every match of the one-character
    class is replaced by an underscore.  The class holds ASCII characters
    only, which never occur inside a multi-byte UTF-8 sequence, so the
    replacement acts byte by byte. *)
Fixpoint SanitizeFilename (filename : string) : string :=
  match filename with
  | EmptyString => EmptyString
  | String c r =>
      String (if is_reserved c then "_"%char else c) (SanitizeFilename r)
  end.

Definition bytes_of (text : string) : list Byte.byte := String.list_byte_of_string text.

(** [BytesToMD5Bytes] returns MD5 hash bytes of a byte array. *)
Definition BytesToMD5Bytes (array : list Byte.byte) : list Byte.byte := Md5.Sum array.

(** [StringToMD5Bytes] returns MD5 hash bytes of a string. *)
Definition StringToMD5Bytes (text : string) : list Byte.byte := Md5.Sum (bytes_of text).

(** [BytesToMD5String] returns MD5 hash string of a byte array. *)
Definition BytesToMD5String (array : list Byte.byte) : string :=
  Hex.EncodeToString (Md5.Sum array).

(** [StringToMD5String] returns MD5 hash string of a string. *)
Definition StringToMD5String (text : string) : string :=
  Hex.EncodeToString (Md5.Sum (bytes_of text)).


End Utilities.

(* ===================================================================== *)
(** * Package api: authentication middleware *)
(* ===================================================================== *)

Module Api.

(** [configurationmanager.BasicAuthen]. *)
Record BasicAuthen := { Username : string; Password : string }.

Section Authen.

(** [utilities.StringToMD5String]: the hexadecimal MD5 digest.  The digest
    function is Go's [crypto/md5]; the middleware only compares its result. *)
Variable StringToMD5String : string -> string.

(** [authen]: [authenList] is [cm.GetHTTPConfig().Authen]. *)
Definition authen (authenList : list BasicAuthen) (username password : string) : bool :=
  if bool_decide (length authenList = 0%nat) then true
  else existsb
         (fun v => bool_decide (Username v = username)
                   && bool_decide (Password v = StringToMD5String password))
         authenList.

(** An HTTP request, reduced to what the middleware reads: the result of
    [r.BasicAuth()] and an opaque remainder. *)
Record Request := { basicAuth : option (string * string); payload : string }.

(** What a handler did to the response writer: the headers it set, the
    status it wrote, and the body. *)
Record Response := {
  headers : list (string * string);
  status : Z;
  body : string
}.

Definition emptyResponse : Response := {| headers := []; status := 0; body := "" |}.

(** A handler transforms the response writer it is given. *)
Definition Handler := Response -> Request -> Response.

Definition setHeader (k v : string) (w : Response) : Response :=
  {| headers := (k, v) :: headers w; status := status w; body := body w |}.

(** [http.Error(w, msg, code)]: the two headers, the status, and the
    message followed by a newline. *)
Definition httpError (msg : string) (code : Z) (w : Response) : Response :=
  {| headers := ("X-Content-Type-Options", "nosniff")
                  :: ("Content-Type", "text/plain; charset=utf-8") :: headers w;
     status := code;
     body := body w +:+ msg +:+ String (ascii_of_nat 10) "" |}.

(** The value of the [WWW-Authenticate] header: [Basic realm="Restricted"]. *)
Definition restricted_realm : string :=
  "Basic realm=" +:+ String (ascii_of_nat 34) ("Restricted" +:+ String (ascii_of_nat 34) "").

(** [ValidateMiddleware]: [authenList] is read once, when the middleware is
    built; [authen] reads the configuration again on every request
    ([authenNow]). *)
Definition ValidateMiddleware (authenList authenNow : list BasicAuthen) (next : Handler) : Handler :=
  if bool_decide (length authenList = 0%nat) then
    fun w r => next w r
  else
    fun w r =>
      let w := setHeader "WWW-Authenticate" restricted_realm w in
      match basicAuth r with
      | Some (username, password) =>
          if negb (authen authenNow username password) then httpError "Unauthorized." 401 w
          else next w r
      | None => httpError "Unauthorized." 401 w
      end.

End Authen.

End Api.

(* ===================================================================== *)
(** * Package time, as far as the logger uses it *)
(* ===================================================================== *)

Module Time.

(** [time.Duration]: a signed 64-bit count of nanoseconds. *)
Definition Nanosecond : Z := 1.
Definition Second : Z := 1000000000 * Nanosecond.
Definition Minute : Z := 60 * Second.

(** A [time.Time]: the instant, as nanoseconds since the Unix epoch, and
    the location it is displayed in, as a fixed offset in seconds east of
    UTC ([time.UTC] is offset 0; daylight-saving changes of [time.Local] are
    not modelled). *)
Record Time := { unixNano : Z; zoneOffset : Z }.

Definition Add (t : Time) (d : Z) : Time :=
  {| unixNano := unixNano t + d; zoneOffset := zoneOffset t |}.

Definition Before (t u : Time) : bool := unixNano t <? unixNano u.

Definition UTC (t : Time) : Time := {| unixNano := unixNano t; zoneOffset := 0 |}.

(** Seconds since the epoch on the wall clock of the time's location. *)
Definition wallSeconds (t : Time) : Z := unixNano t / Second + zoneOffset t.

(** Days since 1970-01-01 to the proleptic Gregorian date, and back. *)
Definition civil_from_days (z : Z) : Z * Z * Z :=
  let z := z + 719468 in
  let era := z / 146097 in
  let doe := z - era * 146097 in
  let yoe := (doe - doe / 1460 + doe / 36524 - doe / 146096) / 365 in
  let doy := doe - (365 * yoe + yoe / 4 - yoe / 100) in
  let mp := (5 * doy + 2) / 153 in
  let d := doy - (153 * mp + 2) / 5 + 1 in
  let m := if mp <? 10 then mp + 3 else mp - 9 in
  let y := yoe + era * 400 + (if m <=? 2 then 1 else 0) in
  (y, m, d).

Definition days_from_civil (y m d : Z) : Z :=
  let y := if m <=? 2 then y - 1 else y in
  let era := y / 400 in
  let yoe := y - era * 400 in
  let doy := (153 * (if 2 <? m then m - 3 else m + 9) + 2) / 5 + d - 1 in
  let doe := yoe * 365 + yoe / 4 - yoe / 100 + doy in
  era * 146097 + doe - 719468.

Definition Year (t : Time) : Z := (civil_from_days (wallSeconds t / 86400)).1.1.
Definition Month (t : Time) : Z := (civil_from_days (wallSeconds t / 86400)).1.2.
Definition Day (t : Time) : Z := (civil_from_days (wallSeconds t / 86400)).2.
Definition Hour (t : Time) : Z := wallSeconds t mod 86400 / 3600.
Definition Min (t : Time) : Z := wallSeconds t mod 3600 / 60.
Definition Sec (t : Time) : Z := wallSeconds t mod 60.

(** [time.Date(year, month, day, hour, min, sec, nsec, loc)] for fields in
    their normal ranges; [loc] is the offset of the location. *)
Definition Date (year month day hour min sec nsec loc : Z) : Time :=
  {| unixNano :=
       (days_from_civil year month day * 86400 + hour * 3600 + min * 60 + sec - loc)
       * Second + nsec;
     zoneOffset := loc |}.

Fixpoint zeros (n : nat) : string :=
  match n with
  | O => EmptyString
  | S k => String "0" (zeros k)
  end.

(** [appendInt]: the decimal form of [x], zero-padded to [width] digits. *)
Definition appendInt (x : Z) (width : nat) : string :=
  let digits := pretty (Z.abs x) in
  (if x <? 0 then "-" else "")
    +:+ zeros (width - String.length digits) +:+ digits.

(** [t.Format(timeFormat)] for [timeFormat = "20060102_150405"]. *)
Definition Format (t : Time) : string :=
  appendInt (Year t) 4 +:+ appendInt (Month t) 2 +:+ appendInt (Day t) 2
    +:+ "_" +:+ appendInt (Hour t) 2 +:+ appendInt (Min t) 2 +:+ appendInt (Sec t) 2.

End Time.

(* ===================================================================== *)
(** * Results of effectful code *)
(* ===================================================================== *)

(** What a Go call comes to: it returns, it panics, or the model ran out of
    the fuel that bounds the source's loops. *)
Inductive outcome (A : Type) : Type :=
  | Ret (a : A)
  | Panic
  | Timeout.
Arguments Ret {A} a.
Arguments Panic {A}.
Arguments Timeout {A}.

#[global] Instance outcome_ret : MRet outcome := fun A a => Ret a.
#[global] Instance outcome_bind : MBind outcome := fun A B f m =>
  match m with
  | Ret a => f a
  | Panic => Panic
  | Timeout => Timeout
  end.

(** Go's [error] values, by the call that produced them. *)
Inductive error : Type :=
  | ErrWriteTooLong (writeLen maxSize : Z)
  | ErrMkdir
  | ErrOpenExisting
  | ErrOpenNew
  | ErrUnlink
  | ErrSymlink
  | ErrStat
  | ErrClose
  | ErrShortWrite
  | ErrInvalid.

(* ===================================================================== *)
(** * The operating system *)
(* ===================================================================== *)

Module OS.

Import Time.

Definition byte := Byte.byte.

(** A directory entry: a regular file (its inode) or a symbolic link. *)
Inductive dirent : Type :=
  | Reg (ino : nat)
  | Lnk (target : string).

(** Injected failures of system calls, by path. *)
Record faults := {
  fail_mkdir : string -> bool;
  fail_stat : string -> bool;
  fail_open : string -> bool;
  fail_create : string -> bool;
  fail_remove : string -> bool;
  fail_symlink : string -> bool;
  fail_close : nat -> bool
}.

(** The part of the environment no call changes. *)
Record env := {
  clock : nat -> Time;      (* the value of the k-th call of [currentTime] *)
  localOffset : Z;          (* [time.Local], seconds east of UTC *)
  Args0 : string;           (* [os.Args[0]] *)
  TempDir : string;         (* [os.TempDir()] *)
  megabyte : Z;             (* the package variable [megabyte] *)
  faulty : faults
}.

(** Path names are keys as written: an entry is found under the string it
    was created with, and a link's target is looked up as it stands (exact
    for absolute, clean names).  Directories are not entries: [MkdirAll]
    makes every parent exist.  [room] is the number of bytes the device
    still accepts ([None]: no limit).  [rotations] is a ghost counter of the
    calls of [Logger.rotate]. *)
Record world := {
  names : gmap string dirent;
  inodes : list (list byte);
  room : option nat;
  ticks : nat;
  rotations : nat;
  sys : env
}.

Definition set_names (f : gmap string dirent -> gmap string dirent) (w : world) : world :=
  {| names := f (names w); inodes := inodes w; room := room w; ticks := ticks w;
     rotations := rotations w; sys := sys w |}.

Definition set_inodes (f : list (list byte) -> list (list byte)) (w : world) : world :=
  {| names := names w; inodes := f (inodes w); room := room w; ticks := ticks w;
     rotations := rotations w; sys := sys w |}.

Definition set_room (r : option nat) (w : world) : world :=
  {| names := names w; inodes := inodes w; room := r; ticks := ticks w;
     rotations := rotations w; sys := sys w |}.

Definition tick (w : world) : world :=
  {| names := names w; inodes := inodes w; room := room w; ticks := S (ticks w);
     rotations := rotations w; sys := sys w |}.

Definition count_rotation (w : world) : world :=
  {| names := names w; inodes := inodes w; room := room w; ticks := ticks w;
     rotations := S (rotations w); sys := sys w |}.

(** [currentTime()]: [time.Now], in the local zone. *)
Definition currentTime (w : world) : Time * world :=
  ({| unixNano := unixNano (clock (sys w) (ticks w)); zoneOffset := localOffset (sys w) |},
   tick w).

(** Path resolution follows symbolic links, at most [maxSymlinks] of them. *)
Inductive lookup_res : Type :=
  | Found (ino : nat)
  | Missing (path : string)
  | Loop.

Definition maxSymlinks : nat := 40.

Fixpoint resolve (fuel : nat) (w : world) (path : string) : lookup_res :=
  match names w !! path with
  | None => Missing path
  | Some (Reg ino) =>
      match inodes w !! ino with
      | Some _ => Found ino
      | None => Missing path
      end
  | Some (Lnk target) =>
      match fuel with
      | O => Loop
      | S k => resolve k w target
      end
  end.

(** The size of an open file: [f.Stat()] then [info.Size()]. *)
Definition FileSize (w : world) (i : nat) : option Z :=
  c ← inodes w !! i; Some (Z.of_nat (length c)).

(** [os.Stat]: the size of the file, "does not exist", or another error. *)
Inductive stat_res : Type :=
  | StatOk (size : Z)
  | StatNotExist
  | StatErr.

Definition Stat (w : world) (name : string) : stat_res :=
  if fail_stat (faulty (sys w)) name then StatErr
  else match resolve maxSymlinks w name with
       | Found ino =>
           match FileSize w ino with
           | Some sz => StatOk sz
           | None => StatNotExist
           end
       | Missing _ => StatNotExist
       | Loop => StatErr
       end.

(** [os.Lstat(path)] succeeded: there is an entry, link or not. *)
Definition Lstat (w : world) (path : string) : bool :=
  bool_decide (is_Some (names w !! path)).

(** [os.Remove]: removes the entry itself. *)
Definition Remove (w : world) (path : string) : option world :=
  if fail_remove (faulty (sys w)) path then None
  else match names w !! path with
       | Some _ => Some (set_names (delete path) w)
       | None => None
       end.

(** [os.Symlink(target, link)]: fails when [link] exists. *)
Definition Symlink (w : world) (target link : string) : option world :=
  if fail_symlink (faulty (sys w)) link then None
  else match names w !! link with
       | Some _ => None
       | None => Some (set_names (insert link (Lnk target)) w)
       end.

(** [os.OpenFile(name, O_APPEND|O_WRONLY, mode)]. *)
Definition OpenAppend (w : world) (name : string) : option nat :=
  if fail_open (faulty (sys w)) name then None
  else match resolve maxSymlinks w name with
       | Found ino => Some ino
       | _ => None
       end.

(** [os.OpenFile(name, O_CREATE|O_WRONLY|O_TRUNC, mode)]: an existing file
    is emptied, a missing one gets a fresh inode. *)
Definition OpenCreateTrunc (w : world) (name : string) : option (nat * world) :=
  if fail_create (faulty (sys w)) name then None
  else match resolve maxSymlinks w name with
       | Found ino => Some (ino, set_inodes (fun d => <[ino := []]> d) w)
       | Missing path =>
           let ino := length (inodes w) in
           Some (ino, set_inodes (fun d => d ++ [[]])
                        (set_names (insert path (Reg ino)) w))
       | Loop => None
       end.

(** [os.MkdirAll] succeeded. *)
Definition MkdirAll (w : world) (dir : string) : bool :=
  negb (fail_mkdir (faulty (sys w)) dir).

(** An open [*os.File]: the inode it was opened on and, as ghost state, the
    number of bytes written through it since. *)
Record File := { ino : nat; written : Z }.

Definition opened (i : nat) : File := {| ino := i; written := 0 |}.

(** [f.Write(p)]: the bytes the device accepts are appended to the file
    (the logger writes each handle at the end of its file); a short write
    comes with an error; a nil file gives [ErrInvalid]. *)
Definition FileWrite (f : option File) (p : list byte) (w : world)
  : Z * option error * option File * world :=
  match f with
  | None => (0, Some ErrInvalid, f, w)
  | Some h =>
      match inodes w !! ino h with
      | None => (0, Some ErrInvalid, f, w)
      | Some c =>
          let k := match room w with
                   | None => length p
                   | Some r => Nat.min r (length p)
                   end in
          let w' := set_room (r ← room w; Some (r - k)%nat)
                      (set_inodes (fun d => <[ino h := c ++ take k p]> d) w) in
          (Z.of_nat k,
           if (k <? length p)%nat then Some ErrShortWrite else None,
           Some {| ino := ino h; written := written h + Z.of_nat k |},
           w')
      end
  end.

(** [f.Close()] failed. *)
Definition FileClose (w : world) (f : File) : bool := fail_close (faulty (sys w)) (ino f).

(** The content of the file a path resolves to. *)
Definition read_file (w : world) (path : string) : option (list byte) :=
  match resolve maxSymlinks w path with
  | Found ino => inodes w !! ino
  | _ => None
  end.

Definition no_faults : faults :=
  {| fail_mkdir := fun _ => false; fail_stat := fun _ => false;
     fail_open := fun _ => false; fail_create := fun _ => false;
     fail_remove := fun _ => false; fail_symlink := fun _ => false;
     fail_close := fun _ => false |}.

(** A world without injected failures and with no limit on the device. *)
Definition fault_free (w : world) : Prop :=
  faulty (sys w) = no_faults /\ room w = None.

(** [strings.HasPrefix(s, p)]. *)
Fixpoint starts_with (p s : string) : bool :=
  match p, s with
  | EmptyString, _ => true
  | String a p', String b s' => bool_decide (a = b) && starts_with p' s'
  | String _ _, EmptyString => false
  end.

(** What the names of the entries below the directory [dir] start with. *)
Definition below_prefix (dir : string) : string :=
  if bool_decide (dir = "/") then "/" else dir +:+ "/".

(** The entry [name] lies below [dir]. *)
Definition below (dir name : string) : bool :=
  starts_with (below_prefix dir) name && negb (bool_decide (name = below_prefix dir)).

(** [path] is a directory: directories are not entries of the world, they
    are the paths some entry lies below. *)
Definition IsDir (w : world) (path : string) : bool :=
  existsb (fun kd : string * dirent => below path kd.1) (map_to_list (names w)).

(** [os.Create(name)], that is [OpenFile(name, O_RDWR|O_CREATE|O_TRUNC,
    0666)]: a directory cannot be opened for writing. *)
Definition Create (w : world) (name : string) : option (nat * world) :=
  if IsDir w name then None else OpenCreateTrunc w name.

(** [os.Rename(oldpath, newpath)]: the entry itself is moved, and replaces
    what is at [newpath]; it fails when there is no entry at [oldpath] and
    when [newpath] is a directory; two names of one file are left alone. *)
Definition Rename (w : world) (oldpath newpath : string) : option world :=
  match names w !! oldpath with
  | None => None
  | Some d =>
      if IsDir w newpath then None
      else
        let moved := Some (set_names (fun m => <[newpath := d]> (delete oldpath m)) w) in
        match d, names w !! newpath with
        | Reg i, Some (Reg j) => if bool_decide (i = j) then Some w else moved
        | _, _ => moved
        end
  end.


End OS.

(* ===================================================================== *)
(** * Package bufio: a Writer on a file *)
(* ===================================================================== *)

Module Bufio.

Import OS.

Definition defaultBufSize : nat := 4096.

(** [bufio.Writer]: the sticky error, the buffered bytes, the file. *)
Record Writer := { err : option error; buf : list byte; wr : option File }.

Definition NewWriter (f : option File) : Writer :=
  {| err := None; buf := []; wr := f |}.

Definition Available (b : Writer) : nat := (defaultBufSize - length (buf b))%nat.

(** [b.Flush()]: writes the buffered bytes to the file. *)
Definition Flush (b : Writer) (w : world) : option error * Writer * world :=
  match err b with
  | Some e => (Some e, b, w)
  | None =>
      match buf b with
      | [] => (None, b, w)
      | _ =>
          let '(n, e, f, w') := FileWrite (wr b) (buf b) w in
          let e := match e with
                   | None => if n <? Z.of_nat (length (buf b)) then Some ErrShortWrite else None
                   | Some _ => e
                   end in
          match e with
          | Some _ => (e, {| err := e; buf := drop (Z.to_nat n) (buf b); wr := f |}, w')
          | None => (None, {| err := None; buf := []; wr := f |}, w')
          end
      end
  end.

(** The loop of [b.Write(p)]: while [p] does not fit and no error is
    recorded, a large write on an empty buffer goes to the file directly,
    otherwise the buffer is filled and flushed. *)
Fixpoint Write_loop (fuel : nat) (b : Writer) (p : list byte) (nn : Z) (w : world)
  : outcome (Writer * list byte * Z * world) :=
  if (Available b <? length p)%nat && bool_decide (err b = None) then
    match fuel with
    | O => Timeout
    | S k =>
        match buf b with
        | [] =>
            let '(n, e, f, w') := FileWrite (wr b) p w in
            Write_loop k {| err := e; buf := buf b; wr := f |}
                       (drop (Z.to_nat n) p) (nn + n) w'
        | _ =>
            let n := Nat.min (Available b) (length p) in
            let '(_, b', w') :=
              Flush {| err := err b; buf := buf b ++ take n p; wr := wr b |} w in
            Write_loop k b' (drop n p) (nn + Z.of_nat n) w'
        end
    end
  else Ret (b, p, nn, w).

(** [b.Write(p)]: the count of bytes taken and the error, if any. *)
Definition Write (b : Writer) (p : list byte) (w : world)
  : outcome (Z * option error * Writer * world) :=
  '(b, p, nn, w) ← Write_loop 4 b p 0 w;
  match err b with
  | Some e => Ret (nn, Some e, b, w)
  | None =>
      let n := Nat.min (Available b) (length p) in
      Ret (nn + Z.of_nat n, None,
           {| err := None; buf := buf b ++ take n p; wr := wr b |}, w)
  end.

End Bufio.

(* ===================================================================== *)
(** * Package lumberjack *)
(* ===================================================================== *)

Module Lumberjack.

Import OS Time.

Definition defaultMaxSize : Z := 100.
Definition defaultRotationTime : Z := 5.

(** [Logger]: the exported configuration, then [size] and [file] (the
    mutex is not part of the sequential model). *)
Record Logger := {
  Filename : string;
  RotationTime : Z;
  MaxSize : Z;
  LocalTime : bool;
  size : Z;
  file : option File
}.

Definition set_file (f : option File) (l : Logger) : Logger :=
  {| Filename := Filename l; RotationTime := RotationTime l; MaxSize := MaxSize l;
     LocalTime := LocalTime l; size := size l; file := f |}.

Definition set_size (n : Z) (l : Logger) : Logger :=
  {| Filename := Filename l; RotationTime := RotationTime l; MaxSize := MaxSize l;
     LocalTime := LocalTime l; size := n; file := file l |}.

(** [get_filename] generates the name of the logfile. *)
Definition get_filename (l : Logger) (w : world) : string :=
  if bool_decide (Filename l <> "") then Filename l
  else
    let name := Filepath.Base (Args0 (sys w)) +:+ "-lumberjack.log" in
    Filepath.Join [TempDir (sys w); name].

(** [get_max_size] returns the maximum size in bytes of log files. *)
Definition get_max_size (l : Logger) (w : world) : Z :=
  if MaxSize l <=? 0 then wrap64 (mul64 defaultMaxSize (megabyte (sys w)))
  else mul64 (wrap64 (MaxSize l)) (wrap64 (megabyte (sys w))).

(** [get_rotation_time] returns the rotation time to roll. *)
Definition get_rotation_time (l : Logger) : Z :=
  if RotationTime l <=? 0 then defaultRotationTime else RotationTime l.

(** [get_dir] returns the directory for the current filename. *)
Definition get_dir (l : Logger) (w : world) : string :=
  Filepath.Dir (get_filename l w).

(** The loop of [processName] that finds the rotation time:
    [for rotation_datetime.Add(d).Before(t) { rotation_datetime = rotation_datetime.Add(d) }]. *)
Fixpoint rotation_loop (fuel : nat) (rotation_datetime : Time) (d : Z) (t : Time)
  : outcome Time :=
  if Before (Add rotation_datetime d) t then
    match fuel with
    | O => Timeout
    | S k => rotation_loop k (Add rotation_datetime d) d t
    end
  else Ret rotation_datetime.

(** The timestamp [processName] puts in the name at time [t] (as returned
    by [currentTime]). *)
Definition timestamp_at (fuel : nat) (l : Logger) (w : world) (t : Time) : outcome string :=
  let t := if negb (LocalTime l) then UTC t else t in
  if 0 <? get_rotation_time l then
    let current_year := Year t in
    let current_month := Month t in
    let current_day := Day t in
    let base_datetime :=
      if negb (LocalTime l)
      then Date current_year current_month current_day 0 0 0 0 0
      else Date current_year current_month current_day 0 0 0 0 (localOffset (sys w)) in
    rotation_datetime ←
      rotation_loop fuel base_datetime (mul64 Minute (get_rotation_time l)) t;
    Ret (Format rotation_datetime)
  else Ret (Format t).

(** [fmt.Sprintf("%s-%s%s", prefix, timestamp, ext)] joined to [dir]. *)
Definition backup_name (dir pre timestamp ext : string) : string :=
  Filepath.Join [dir; pre +:+ "-" +:+ timestamp +:+ ext].

(** [fmt.Sprintf("%s-%s_%d%s", prefix, timestamp, counter, ext)] joined to [dir]. *)
Definition indexed_name (dir pre timestamp : string) (counter : Z) (ext : string) : string :=
  Filepath.Join [dir; pre +:+ "-" +:+ timestamp +:+ "_" +:+ pretty counter +:+ ext].

(** The loop [for true { ... }] of [processName]: the first indexed name
    that does not exist, or exists with room for the write.  A failed
    [os_Stat] other than "does not exist" leaves [info] nil, and
    [info.Size()] panics. *)
Fixpoint search_name (fuel : nat) (w : world) (dir pre timestamp ext : string)
    (write_length max_size : Z) (counter : Z) : outcome string :=
  match fuel with
  | O => Timeout
  | S k =>
      let name := indexed_name dir pre timestamp counter ext in
      match Stat w name with
      | StatNotExist => Ret name
      | StatErr => Panic
      | StatOk sz =>
          if add64 sz write_length >? max_size
          then search_name k w dir pre timestamp ext write_length max_size (counter + 1)
          else Ret name
      end
  end.

(** [processName] creates a new filename from the given name, inserting a
    timestamp between the filename and the extension. *)
Definition processName (fuel : nat) (l : Logger) (write_length : Z) (w : world)
  : outcome (string * world) :=
  let dir := Filepath.Dir (get_filename l w) in
  let filename := Filepath.Base (get_filename l w) in
  let ext := Filepath.Ext filename in
  let pre := substring 0 (String.length filename - String.length ext) filename in
  let '(t, w) := currentTime w in
  timestamp ← timestamp_at fuel l w t;
  let name := backup_name dir pre timestamp ext in
  match Stat w name with
  | StatNotExist => Ret (name, w)
  | StatErr => Panic
  | StatOk sz =>
      if add64 sz write_length >? get_max_size l w then
        name ← search_name fuel w dir pre timestamp ext write_length (get_max_size l w) 2;
        Ret (name, w)
      else Ret (name, w)
  end.

(** [close] closes the file if it is open. *)
Definition close (l : Logger) (w : world) : option error * Logger * world :=
  match file l with
  | None => (None, l, w)
  | Some f =>
      let err := if FileClose w f then Some ErrClose else None in
      (err, set_file None l, w)
  end.

(** [openNew] opens a new log file for writing and points the symbolic
    link at it. *)
Definition openNew (fuel : nat) (l : Logger) (w : world)
  : outcome (option error * Logger * world) :=
  if negb (MkdirAll w (get_dir l w)) then Ret (Some ErrMkdir, l, w)
  else
    '(name, w) ← processName fuel l 0 w;
    let opened_file :=
      match Stat w name with
      | StatOk _ =>
          match OpenAppend w name with
          | Some i => inr (i, w)
          | None => inl ErrOpenExisting
          end
      | _ =>
          match OpenCreateTrunc w name with
          | Some (i, w') => inr (i, w')
          | None => inl ErrOpenNew
          end
      end in
    match opened_file with
    | inl e => Ret (Some e, l, w)
    | inr (f, w) =>
        (* Remove symbolic link if it existed *)
        let removed :=
          if Lstat w (get_filename l w) then Remove w (get_filename l w) else Some w in
        match removed with
        | None => Ret (Some ErrUnlink, l, w)
        | Some w =>
            (* Create symbolic link *)
            match Symlink w name (get_filename l w) with
            | None => Ret (Some ErrSymlink, l, w)
            | Some w =>
                let l := set_file (Some (opened f)) l in
                match FileSize w f with
                | None => Panic
                | Some sz => Ret (None, set_size sz l, w)
                end
            end
        end
    end.

(** [rotate] closes the current file and opens a new one. *)
Definition rotate (fuel : nat) (l : Logger) (w : world)
  : outcome (option error * Logger * world) :=
  let w := count_rotation w in
  match close l w with
  | (Some e, l, w) => Ret (Some e, l, w)
  | (None, l, w) => openNew fuel l w
  end.

(** [openExistingOrNew] opens the logfile if it exists and if the current
    write would not put it over [MaxSize]; otherwise a new file is created. *)
Definition openExistingOrNew (fuel : nat) (writeLen : Z) (l : Logger) (w : world)
  : outcome (option error * Logger * world) :=
  '(name, w) ← processName fuel l writeLen w;
  match Stat w name with
  | StatNotExist => openNew fuel l w
  | StatErr => Ret (Some ErrStat, l, w)
  | StatOk sz =>
      if add64 sz writeLen >=? get_max_size l w then rotate fuel l w
      else
        match OpenAppend w name with
        | None => openNew fuel l w
        | Some i => Ret (None, set_size sz (set_file (Some (opened i)) l), w)
        end
  end.

(** [Write] implements [io.Writer]: the count [n], the error, and the
    logger and world it leaves. *)
Definition Write (fuel : nat) (p : list byte) (l : Logger) (w : world)
  : outcome (Z * option error * Logger * world) :=
  let writeLen := Z.of_nat (length p) in
  if writeLen >? get_max_size l w then
    Ret (0, Some (ErrWriteTooLong writeLen (get_max_size l w)), l, w)
  else
    '(err, l, w) ← openExistingOrNew fuel writeLen l w;
    match err with
    | Some e => Ret (0, Some e, l, w)
    | None =>
        '(err, l, w) ←
          (if add64 (size l) writeLen >? get_max_size l w
           then rotate fuel l w else Ret (None, l, w));
        match err with
        | Some e => Ret (0, Some e, l, w)
        | None =>
            let b := Bufio.NewWriter (file l) in
            '(n, err, b, w) ← Bufio.Write b p w;
            let l := set_size (add64 (size l) n) l in
            let '(_, b, w) := Bufio.Flush b w in
            Ret (n, err, set_file (Bufio.wr b) l, w)
        end
    end.

(** [Close] implements [io.Closer], and closes the current logfile. *)
Definition Close (l : Logger) (w : world) : option error * Logger * world :=
  close l w.

(** [Rotate] causes the logger to close the existing log file and
    immediately create a new one. *)
Definition Rotate (fuel : nat) (l : Logger) (w : world)
  : outcome (option error * Logger * world) :=
  rotate fuel l w.

End Lumberjack.


(* ===================================================================== *)
(** * Package strings: TrimSpace *)
(* ===================================================================== *)

Module Strings.

(** The ASCII white space: tab, line feed, vertical tab, form feed,
    carriage return, space. *)
Definition asciiSpace (c : ascii) : bool :=
  bool_decide (nat_of_ascii c ∈ [9; 10; 11; 12; 13; 32]%nat).

(** The UTF-8 encodings of the white space of [unicode.IsSpace] beyond
    ASCII: U+0085, U+00A0, U+1680, U+2000 to U+200A, U+2028, U+2029,
    U+202F, U+205F, U+3000. *)
Definition space_runes : list (list nat) :=
  [[194; 133]; [194; 160]; [225; 154; 128];
   [226; 128; 128]; [226; 128; 129]; [226; 128; 130]; [226; 128; 131];
   [226; 128; 132]; [226; 128; 133]; [226; 128; 134]; [226; 128; 135];
   [226; 128; 136]; [226; 128; 137]; [226; 128; 138];
   [226; 128; 168]; [226; 128; 169]; [226; 128; 175];
   [226; 129; 159]; [227; 128; 128]]%nat.

(** [s] without the bytes [p] it starts with. *)
Fixpoint strip_bytes (p : list nat) (s : string) : option string :=
  match p, s with
  | [], _ => Some s
  | b :: p, String c r => if bool_decide (nat_of_ascii c = b) then strip_bytes p r else None
  | _ :: _, EmptyString => None
  end.

(** [s] without the white space character it starts with, if any. *)
Definition strip_space (runes : list (list nat)) (s : string) : option string :=
  match s with
  | EmptyString => None
  | String c r =>
      if asciiSpace c then Some r
      else list_find (fun o : option string => is_Some o) ((fun p => strip_bytes p s) <$> runes)
             ≫= snd
  end.

Fixpoint trim_left (fuel : nat) (runes : list (list nat)) (s : string) : string :=
  match fuel with
  | O => s
  | S k =>
      match strip_space runes s with
      | Some r => trim_left k runes r
      | None => s
      end
  end.

(** [strings.TrimLeftFunc(s, unicode.IsSpace)]. *)
Definition TrimLeftSpace (s : string) : string :=
  trim_left (String.length s) space_runes s.

(** [strings.TrimRightFunc(s, unicode.IsSpace)]: the last character is
    decoded backwards from the end of [s]. *)
Definition TrimRightSpace (s : string) : string :=
  String.rev (trim_left (String.length s) (map (fun p => List.rev p) space_runes) (String.rev s)).

(** [strings.TrimSpace]: [s] without leading and trailing white space. *)
Definition TrimSpace (s : string) : string := TrimRightSpace (TrimLeftSpace s).

End Strings.

(* ===================================================================== *)
(** * Package logger *)
(* ===================================================================== *)

Module Logging.

(** The log levels, [FATAL = iota] onwards. *)
Definition FATAL : Z := 0.
Definition CRITICAL : Z := 1.
Definition WARNING : Z := 2.
Definition INFO : Z := 3.
Definition DEBUG : Z := 4.
Definition DISABLE : Z := 5.

(** [LOGLEVEL]: the name of a level; a Go map gives the empty string for a
    key it does not hold. *)
Definition LOGLEVEL (level : Z) : string :=
  if level =? FATAL then "FATAL"
  else if level =? CRITICAL then "CRITICAL"
  else if level =? WARNING then "WARNING"
  else if level =? INFO then "INFO"
  else if level =? DEBUG then "DEBUG"
  else if level =? DISABLE then "DISABLE"
  else "".

(** The [io.Writer] values the program logs to: [os.Stderr],
    [ioutil.Discard], the syslog writer, a [lumberjack.Logger] on a file,
    and what [io.MultiWriter] builds. *)
#[warnings="-register-all"] Inductive Writer : Type :=
  | Stderr
  | Discard
  | Syslog
  | LogFile (filename : string)
  | Multi (writers : list Writer).

(** [io.MultiWriter(writers...)]: the writers of a multi-writer among the
    arguments are taken in its place. *)
Definition MultiWriter (writers : list Writer) : Writer :=
  Multi (flat_map (fun w => match w with
                            | Multi ws => ws
                            | _ => [w]
                            end) writers).

(** A [*log.Logger]: its output, its prefix, its flags. *)
Record StdLogger := { out : Writer; pfx : string; flag : Z }.

Definition SetOutput (w : Writer) (g : StdLogger) : StdLogger :=
  {| out := w; pfx := pfx g; flag := flag g |}.

Definition setPrefix (p : string) (g : StdLogger) : StdLogger :=
  {| out := out g; pfx := p; flag := flag g |}.

(** [log.Ldate], [log.Lmicroseconds], [log.Lshortfile]. *)
Definition Ldate : Z := 1.
Definition Lmicroseconds : Z := 4.
Definition Lshortfile : Z := 16.

(** [log.New(out, prefix, flag)]. *)
Definition log_New (w : Writer) (p : string) (f : Z) : StdLogger :=
  {| out := w; pfx := p; flag := f |}.

(** [Logging] contains 5 loggers with configurable log level, prefix and
    stream. *)
Record Logging := {
  Fatal : StdLogger;
  Critical : StdLogger;
  Warning : StdLogger;
  Info : StdLogger;
  Debug : StdLogger;
  level : Z;
  stream : Writer;
  prefix : string
}.

(** The five calls of [SetOutput] of one case of [SetLevel]. *)
Definition set_outputs (f c w i d : Writer) (l : Logging) : Logging :=
  {| Fatal := SetOutput f (Fatal l); Critical := SetOutput c (Critical l);
     Warning := SetOutput w (Warning l); Info := SetOutput i (Info l);
     Debug := SetOutput d (Debug l);
     level := level l; stream := stream l; prefix := prefix l |}.

(** [SetLevel] configures the minimal log level that will be displayed:
    the level is stored, then the [switch] sets the outputs; a level that
    matches no case leaves them as they are. *)
Definition SetLevel (lv : Z) (l : Logging) : Logging :=
  let l := {| Fatal := Fatal l; Critical := Critical l; Warning := Warning l;
              Info := Info l; Debug := Debug l;
              level := lv; stream := stream l; prefix := prefix l |} in
  let s := stream l in
  if lv =? FATAL then set_outputs s Discard Discard Discard Discard l
  else if lv =? CRITICAL then set_outputs s s Discard Discard Discard l
  else if lv =? WARNING then set_outputs s s s Discard Discard l
  else if lv =? INFO then set_outputs s s s s Discard l
  else if lv =? DEBUG then set_outputs s s s s s l
  else if lv =? DISABLE then set_outputs Discard Discard Discard Discard Discard l
  else l.

(** [SetPrefix] configures the prefix of each line of log. *)
Definition SetPrefix (pfix : string) (l : Logging) : Logging :=
  {| Fatal := setPrefix (pfix +:+ " " +:+ pfx (Fatal l)) (Fatal l);
     Critical := setPrefix (pfix +:+ " " +:+ pfx (Critical l)) (Critical l);
     Warning := setPrefix (pfix +:+ " " +:+ pfx (Warning l)) (Warning l);
     Info := setPrefix (pfix +:+ " " +:+ pfx (Info l)) (Info l);
     Debug := setPrefix (pfix +:+ " " +:+ pfx (Debug l)) (Debug l);
     level := level l; stream := stream l; prefix := pfix |}.

Definition set_stream (s : Writer) (l : Logging) : Logging :=
  {| Fatal := Fatal l; Critical := Critical l; Warning := Warning l;
     Info := Info l; Debug := Debug l;
     level := level l; stream := s; prefix := prefix l |}.

(** [SetStreamSingle] configures to log to only one stream. *)
Definition SetStreamSingle (s : Writer) (l : Logging) : Logging :=
  SetLevel (level l) (set_stream s l).

(** [SetStreamMulti] configures to log to multiple streams. *)
Definition SetStreamMulti (streams : list Writer) (l : Logging) : Logging :=
  SetLevel (level l) (set_stream (MultiWriter streams) l).

(** [New] initializes the singleton logger: [instance] is the package
    variable, set by the first call ([once.Do]). *)
Definition New (instance : option Logging) : Logging * option Logging :=
  match instance with
  | Some l => (l, instance)
  | None =>
      let l :=
        SetStreamSingle Stderr
          {| Fatal := log_New Stderr "FATAL   : " (Z.lor Ldate Lmicroseconds);
             Critical := log_New Stderr "CRITICAL: "
                           (Z.lor (Z.lor Ldate Lmicroseconds) Lshortfile);
             Warning := log_New Stderr "WARNING : " (Z.lor Ldate Lmicroseconds);
             Info := log_New Stderr "INFO    : " (Z.lor Ldate Lmicroseconds);
             Debug := log_New Stderr "DEBUG   : "
                        (Z.lor (Z.lor Ldate Lmicroseconds) Lshortfile);
             level := INFO; stream := Stderr; prefix := "" |} in
      (l, Some l)
  end.

End Logging.

(* ===================================================================== *)
(** * Package configurationmanager *)
(* ===================================================================== *)

Module ConfigurationManager.

Import Logging.

(** [AppConfig] contains the main configuration of the app. *)
Record AppConfig := {
  FilelogDestination : string;
  LogEnable : bool;
  LogLevel : Z;
  LogRotationTime : Z;
  MaxLogSize : Z
}.

Record HTTPConfig := {
  Address : string;
  SSL : bool;
  KeyFile : string;
  CertFile : string;
  MaxFileSize : Z;
  FileServerDirectory : string;
  Authen : list Api.BasicAuthen
}.

(** [ConfigurationManager], without its mutex and its [*viper.Viper]. *)
Record ConfigurationManager := {
  appConfig : AppConfig;
  httpConfig : HTTPConfig
}.

(** A value of a table of the configuration file, as [viper] hands it out
    in an [interface{}]: nil (also for a key the table does not hold), an
    [int64], a [string], a [bool], or a value of another type. *)
Inductive value : Type :=
  | VNil
  | VInt64 (n : Z)
  | VString (s : string)
  | VBool (b : bool)
  | VOther.

(** What [cm.v.Get(key)] returns for a section: nil, a
    [map[string]interface{}], or a value of another type. *)
Inductive section : Type :=
  | SNil
  | STable (m : gmap string value)
  | SOther.

(** The answers of [viper] for one configuration file: the error of
    [ReadInConfig], and for the keys ["app"] and ["http"] the result of
    [UnmarshalKey] into a zero [tmp] and of [Get]. *)
Record Viper := {
  ReadInConfig : bool;                       (* failed *)
  UnmarshalKey_app : option AppConfig;       (* [None]: an error *)
  Get_app : section;
  UnmarshalKey_http : option HTTPConfig;
  Get_http : section
}.

(** The errors [Load] returns. *)
Inductive load_error : Type :=
  | ErrReadInConfig
  | ErrAppInvalid
  | ErrAppMissing
  | ErrHttpInvalid
  | ErrHttpMissing
  | ErrFileServerDirectoryEmpty.

(** [m[key]]. *)
Definition index (m : gmap string value) (key : string) : value :=
  default VNil (m !! key).

Definition is_nil (v : value) : bool :=
  match v with
  | VNil => true
  | _ => false
  end.

(** [n, ok := v.(int64)]. *)
Definition as_int64 (v : value) : Z * bool :=
  match v with
  | VInt64 n => (n, true)
  | _ => (0, false)
  end.

(** [v.(string)]: panics when [v] is not a string. *)
Definition as_string (v : value) : outcome string :=
  match v with
  | VString s => Ret s
  | _ => Panic
  end.

(** [v == nil || strings.TrimSpace(v.(string)) == ""]. *)
Definition nil_or_blank (v : value) : outcome bool :=
  if is_nil v then Ret true
  else s ← as_string v; Ret (bool_decide (Strings.TrimSpace s = "")).

Definition set_LogEnable (b : bool) (c : AppConfig) : AppConfig :=
  {| FilelogDestination := FilelogDestination c; LogEnable := b; LogLevel := LogLevel c;
     LogRotationTime := LogRotationTime c; MaxLogSize := MaxLogSize c |}.

Definition set_LogLevel (n : Z) (c : AppConfig) : AppConfig :=
  {| FilelogDestination := FilelogDestination c; LogEnable := LogEnable c; LogLevel := n;
     LogRotationTime := LogRotationTime c; MaxLogSize := MaxLogSize c |}.

Definition set_LogRotationTime (n : Z) (c : AppConfig) : AppConfig :=
  {| FilelogDestination := FilelogDestination c; LogEnable := LogEnable c;
     LogLevel := LogLevel c; LogRotationTime := n; MaxLogSize := MaxLogSize c |}.

Definition set_MaxLogSize (n : Z) (c : AppConfig) : AppConfig :=
  {| FilelogDestination := FilelogDestination c; LogEnable := LogEnable c;
     LogLevel := LogLevel c; LogRotationTime := LogRotationTime c; MaxLogSize := n |}.

Definition set_FilelogDestination (s : string) (c : AppConfig) : AppConfig :=
  {| FilelogDestination := s; LogEnable := LogEnable c;
     LogLevel := LogLevel c; LogRotationTime := LogRotationTime c;
     MaxLogSize := MaxLogSize c |}.

Definition set_Address (s : string) (c : HTTPConfig) : HTTPConfig :=
  {| Address := s; SSL := SSL c; KeyFile := KeyFile c; CertFile := CertFile c;
     MaxFileSize := MaxFileSize c; FileServerDirectory := FileServerDirectory c;
     Authen := Authen c |}.

Definition set_SSL (b : bool) (c : HTTPConfig) : HTTPConfig :=
  {| Address := Address c; SSL := b; KeyFile := KeyFile c; CertFile := CertFile c;
     MaxFileSize := MaxFileSize c; FileServerDirectory := FileServerDirectory c;
     Authen := Authen c |}.

Definition set_MaxFileSize (n : Z) (c : HTTPConfig) : HTTPConfig :=
  {| Address := Address c; SSL := SSL c; KeyFile := KeyFile c; CertFile := CertFile c;
     MaxFileSize := n; FileServerDirectory := FileServerDirectory c;
     Authen := Authen c |}.

Definition set_FileServerDirectory (s : string) (c : HTTPConfig) : HTTPConfig :=
  {| Address := Address c; SSL := SSL c; KeyFile := KeyFile c; CertFile := CertFile c;
     MaxFileSize := MaxFileSize c; FileServerDirectory := s;
     Authen := Authen c |}.

(** The defaults of the [app] part: [tmp.appConfig] after the four tests
    on the table [m]. *)
Definition app_defaults (m : gmap string value) (c : AppConfig) : AppConfig :=
  let c := if is_nil (index m "log_enable") then set_LogEnable true c else c in
  let c :=
    if is_nil (index m "log_level") then set_LogLevel INFO c
    else
      let '(logLevel, ok) := as_int64 (index m "log_level") in
      if negb ok || ((logLevel <? FATAL) || (logLevel >? DEBUG))
      then set_LogLevel INFO c else c in
  let c :=
    if is_nil (index m "log_rotation_time") then set_LogRotationTime 60 c
    else
      let '(logRotationTime, ok) := as_int64 (index m "log_rotation_time") in
      if negb ok || (logRotationTime <=? 0) then set_LogRotationTime 60 c else c in
  if is_nil (index m "max_log_size") then set_MaxLogSize 500 c
  else
    let '(maxLogSize, ok) := as_int64 (index m "max_log_size") in
    if negb ok || (maxLogSize <=? 0) then set_MaxLogSize 500 c else c.

(** The defaults of the [http] part, up to the test of the directory. *)
Definition http_defaults (m : gmap string value) (c : HTTPConfig) : outcome HTTPConfig :=
  blank ← nil_or_blank (index m "address");
  let c := if blank : bool then set_Address ":9000" c else c in
  let c := if is_nil (index m "ssl") then set_SSL false c else c in
  let c :=
    if is_nil (index m "max_file_size") then set_MaxFileSize 10 c
    else
      let '(maxFileSize, ok) := as_int64 (index m "max_file_size") in
      if negb ok || (maxFileSize <=? 0) then set_MaxFileSize 10 c else c in
  Ret c.

(** [Load] loads and validates the configuration of the input file:
    [cm] is the manager, [v] what [viper] answers for the file, [instance]
    the singleton of package [logger]. *)
Definition Load (cm : ConfigurationManager) (v : Viper) (instance : option Logging)
  : outcome (option load_error * ConfigurationManager * option Logging) :=
  let '(mlog, instance) := New instance in
  if ReadInConfig v then Ret (Some ErrReadInConfig, cm, instance)
  else
    (* Load application config *)
    match UnmarshalKey_app v with
    | None => Ret (Some ErrAppInvalid, cm, instance)
    | Some tmp_app =>
        match Get_app v with
        | SNil => Ret (Some ErrAppMissing, cm, instance)
        | SOther => Panic
        | STable m =>
            let tmp_app := app_defaults m tmp_app in
            match UnmarshalKey_http v with
            | None => Ret (Some ErrHttpInvalid, cm, instance)
            | Some tmp_http =>
                match Get_http v with
                | SNil => Ret (Some ErrHttpMissing, cm, instance)
                | SOther => Panic
                | STable m =>
                    tmp_http ← http_defaults m tmp_http;
                    blank ← nil_or_blank (index m "file_server_directory");
                    if blank : bool then Ret (Some ErrFileServerDirectoryEmpty, cm, instance)
                    else
                      let app :=
                        set_FilelogDestination
                          (Strings.TrimSpace (FilelogDestination tmp_app)) tmp_app in
                      let http :=
                        set_FileServerDirectory
                          (Strings.TrimSpace (FileServerDirectory tmp_http))
                          (set_Address (Strings.TrimSpace (Address tmp_http)) tmp_http) in
                      Ret (None, {| appConfig := app; httpConfig := http |},
                           Some (SetLevel (LogLevel app) mlog))
                end
            end
        end
    end.

(** [GetAppConfig] returns the configuration of the app. *)
Definition GetAppConfig (cm : ConfigurationManager) : AppConfig := appConfig cm.

(** [GetHTTPConfig] returns the configuration of the HTTP server. *)
Definition GetHTTPConfig (cm : ConfigurationManager) : HTTPConfig := httpConfig cm.

End ConfigurationManager.

(* ===================================================================== *)
(** * Package api: the upload *)
(* ===================================================================== *)

Module Upload.

Import OS ConfigurationManager.

(** What the handler reads of the request: whether [ParseMultipartForm]
    failed, the result of [FormFile("file")] (the file name of the part's
    header and the content of the file; [None] for an error), and
    [FormValue("filename")]. *)
Record Form := {
  ParseMultipartForm : bool;
  FormFile : option (string * list byte);
  FormValue_filename : string
}.

(** The step of the handler that failed. *)
Inductive upload_error : Type :=
  | ErrParseMultipartForm
  | ErrFormFile
  | ErrCreate
  | ErrCopy
  | ErrRename.

(** The template the handler executes, with its data. *)
Inductive Page : Type :=
  | ErrorPage (Filename : string) (Message : upload_error)
  | SuccessPage (Filename : string).

(** [UploadHandler]: [httpConfig] is [cm.GetHTTPConfig()], [templates]
    tells whether [template.ParseFiles] can parse a file ([template.Must]
    panics when it cannot).  The lines written to the log are left out. *)
Definition UploadHandler (httpConfig : HTTPConfig) (templates : string -> bool)
    (r : Form) (w : world) : outcome (Page * world) :=
  let '(localFilename, err, w) :=
    if ParseMultipartForm r then ("", Some ErrParseMultipartForm, w)
    else
      match FormFile r with
      | None => ("", Some ErrFormFile, w)
      | Some (headerFilename, file) =>
          let fileServerDirectory := FileServerDirectory httpConfig in
          let newFilename := FormValue_filename r in
          let localFilename :=
            if bool_decide (newFilename = "")
            then Utilities.SanitizeFilename headerFilename
            else Utilities.SanitizeFilename newFilename in
          let localFilePath := Filepath.Join [fileServerDirectory; localFilename] in
          let localFilenameTmp := localFilename +:+ ".tmp" in
          let localFilePathTmp := Filepath.Join [fileServerDirectory; localFilenameTmp] in
          match Create w localFilePathTmp with
          | None => (localFilename, Some ErrCreate, w)
          | Some (f, w) =>
              (* io.Copy(f, file) *)
              let '(_, err, _, w) := FileWrite (Some (opened f)) file w in
              match err with
              | Some _ => (localFilename, Some ErrCopy, w)
              | None =>
                  match Rename w localFilePathTmp localFilePath with
                  | None => (localFilename, Some ErrRename, w)
                  | Some w => (localFilename, None, w)
                  end
              end
          end
      end in
  match err with
  | Some e =>
      if templates "template/error.html" then Ret (ErrorPage localFilename e, w)
      else Panic
  | None =>
      if templates "template/success.html" then Ret (SuccessPage localFilename, w)
      else Panic
  end.

End Upload.

(* ===================================================================== *)
(** * Call sequences, and the predicates the theorems are stated with *)
(* ===================================================================== *)

Section Predicates.

Import Filepath Time OS Lumberjack.

(** An absolute, clean path name other than the root.  For such a
    destination the world is exact: the names [processName] makes are
    absolute too, so that the link [openNew] creates resolves to its
    target wherever the link is (the target of a relative link would be
    taken from the directory of the link), and the directory [MkdirAll]
    makes is a proper ancestor of the destination, not the destination. *)
Definition absolute_clean (path : string) : Prop :=
  (exists r, path = String "/" r) /\ Clean path = path /\ path <> "/".

(** [q] is empty or ends with a separator: what may stand in front of the
    last element of a path. *)
Definition ends_dir (q : string) : Prop := q = "" \/ exists q', q = q' +:+ "/".

(** The name of the destination, split as [processName] does. *)
Definition stem_of (fn : string) : string :=
  let filename := Base fn in
  substring 0 (String.length filename - String.length (Ext filename)) filename.

Definition ext_of (fn : string) : string := Ext (Base fn).

(** The stem as it shows in the last element of a backup name: for a
    destination of separators only, [Base] is the separator and no byte of
    it is left after cleaning. *)
Definition last_stem (fn : string) : string :=
  if bool_decide (Base fn = "/") then "" else stem_of fn.

(** The time [processName] reads at the [k]-th call of [currentTime]. *)
Definition time_at (w : world) (k : nat) : Time :=
  {| unixNano := unixNano (clock (sys w) k); zoneOffset := localOffset (sys w) |}.



(** The last step of [Write], once the file is open: the buffered write,
    the update of the size counter, the flush. *)
Definition write_through (p : list byte) (l : Logger) (w : world)
  : outcome (Z * option error * Logger * world) :=
  let b := Bufio.NewWriter (file l) in
  '(n, err, b, w) ← Bufio.Write b p w;
  let l := set_size (add64 (size l) n) l in
  let '(_, b, w) := Bufio.Flush b w in
  Ret (n, err, set_file (Bufio.wr b) l, w).

(** Every file of the world is shorter than [b] bytes. *)
Definition files_below (b : Z) (w : world) : Prop :=
  Forall (fun c : list byte => Z.of_nat (length c) < b) (inodes w).

(** [w'] is [w] after calls that left the environment, the device and the
    content of the files alone, and may have created empty files. *)
Definition evolves (w w' : world) : Prop :=
  sys w' = sys w /\ room w' = room w
  /\ exists k, inodes w' = inodes w ++ replicate k [].

(** The world [openNew] leaves when it opened, or created, the file [name]. *)
Definition linked (name dest : string) (w : world) : world :=
  set_names (insert dest (Lnk name)) w.

Definition created (path : string) (w : world) : world :=
  set_inodes (fun d => d ++ [[]])
    (set_names (insert path (Reg (length (inodes w)))) w).

(** The exported configuration of the logger is the same. *)
Definition same_config (l l' : Logger) : Prop :=
  Filename l' = Filename l /\ RotationTime l' = RotationTime l
  /\ MaxSize l' = MaxSize l /\ LocalTime l' = LocalTime l.

(** The logger holds a handle on a file whose size its counter shows. *)
Definition opened_with_size (l : Logger) (w : world) : Prop :=
  exists i, file l = Some (opened i) /\ FileSize w i = Some (size l).

(** [w'] is [w] with [p] appended to the file [i]. *)
Definition appended (i : nat) (p : list byte) (w w' : world) : Prop :=
  names w' = names w /\ room w' = room w /\ ticks w' = ticks w
  /\ rotations w' = rotations w /\ sys w' = sys w
  /\ exists c, inodes w !! i = Some c /\ inodes w' = <[i := c ++ p]> (inodes w).

(** The size counter shows the size of the file the handle is on. *)
Definition size_tracks_file (l : Logger) (w : world) : Prop :=
  match file l with
  | Some f => FileSize w (ino f) = Some (size l)
  | None => True
  end.




(** The size counter as the specification words it: the number of bytes
    written to the open handle since it was opened. *)
Definition counts_bytes_written (l : Logger) : Prop :=
  forall f, file l = Some f -> size l = written f.

(** The rule of the name search as the specification words it: a candidate
    that exists and whose size plus the pending length meets or exceeds
    the maximum size starts the search, which returns the first indexed
    name that does not exist or whose size plus the pending length is
    below the maximum size. *)
Definition searches_when_size_meets_max
    (fuel : nat) (l : Logger) (write_length : Z) (w : world) : Prop :=
  let fn := get_filename l w in
  let indexed ts n := indexed_name (get_dir l w) (stem_of fn) ts n (ext_of fn) in
  forall ts sz,
    timestamp_at fuel l w (time_at w (ticks w)) = Ret ts ->
    Stat (tick w) (backup_name (get_dir l w) (stem_of fn) ts (ext_of fn)) = StatOk sz ->
    sz + write_length >= get_max_size l w ->
    exists n,
      2 <= n
      /\ processName fuel l write_length w = Ret (indexed ts n, tick w)
      /\ (Stat (tick w) (indexed ts n) = StatNotExist
          \/ exists szn, Stat (tick w) (indexed ts n) = StatOk szn
                         /\ szn + write_length < get_max_size l w)
      /\ forall k, 2 <= k < n ->
           exists szk, Stat (tick w) (indexed ts k) = StatOk szk
                       /\ szk + write_length >= get_max_size l w.

(** The number of entries of the directory. *)
Definition entries (w : world) : nat := base.size (names w).

(** The name a call of [processName] returned. *)
Definition returned_name (r : outcome (string * world)) : string :=
  match r with
  | Ret (name, _) => name
  | _ => ""
  end.

End Predicates.


Section WritePredicates.

Import OS Time Lumberjack.

(** The count, the error and the size counter a call of [Write] left. *)
Definition write_result (r : outcome (Z * option error * Lumberjack.Logger * OS.world))
  : option (Z * option error * Z) :=
  match r with
  | Ret (n, e, l, _) => Some (n, e, Lumberjack.size l)
  | _ => None
  end.

(** Midnight of the day of [t], as [processName] computes it. *)
Definition base_datetime (l : Logger) (w : world) (t : Time) : Time :=
  let t := if negb (LocalTime l) then UTC t else t in
  if negb (LocalTime l)
  then Date (Year t) (Month t) (Day t) 0 0 0 0 0
  else Date (Year t) (Month t) (Day t) 0 0 0 0 (localOffset (sys w)).

(** Replace the logger in an error result. *)
Definition with_logger (l0 : Logger) (r : outcome (option error * Logger * world))
  : outcome (option error * Logger * world) :=
  match r with
  | Ret (Some e, _, w') => Ret (Some e, l0, w')
  | r => r
  end.

End WritePredicates.

Section LoggingPredicates.

Import Logging.

(** The five loggers, by severity: index [k] is the logger of level [k]. *)
Definition loggers (l : Logging) : list StdLogger :=
  [Fatal l; Critical l; Warning l; Info l; Debug l].

(** The calls a program makes on the logger. *)
Inductive logging_call : Type :=
  | CallSetLevel (lv : Z)
  | CallSetPrefix (pfix : string)
  | CallSetStreamSingle (s : Writer)
  | CallSetStreamMulti (streams : list Writer).

Definition call (c : logging_call) (l : Logging) : Logging :=
  match c with
  | CallSetLevel lv => SetLevel lv l
  | CallSetPrefix p => SetPrefix p l
  | CallSetStreamSingle s => SetStreamSingle s l
  | CallSetStreamMulti ws => SetStreamMulti ws l
  end.

(** The logger after a sequence of calls, first call first. *)
Definition calls (cs : list logging_call) (l : Logging) : Logging :=
  fold_left (fun l c => call c l) cs l.

(** A call that sets a level sets one of the six levels. *)
Definition known_level (c : logging_call) : Prop :=
  match c with
  | CallSetLevel lv => FATAL <= lv <= DISABLE
  | _ => True
  end.

(** The loggers write as the level says: those of a severity up to the
    level write to the stream of the logger, the others are discarded;
    at [DISABLE] all are. *)
Definition follows_level (l : Logging) : Prop :=
  FATAL <= level l <= DISABLE
  /\ forall (k : nat) g, loggers l !! k = Some g ->
       out g = if (Z.of_nat k <=? level l) && (level l <? DISABLE)
               then stream l else Discard.

(** The prefixes given by the calls of [SetPrefix], last call first, each
    followed by a space. *)
Fixpoint given_prefixes (cs : list logging_call) : string :=
  match cs with
  | [] => ""
  | CallSetPrefix p :: cs => given_prefixes cs +:+ p +:+ " "
  | _ :: cs => given_prefixes cs
  end.

End LoggingPredicates.

Section LoadPredicates.

Import Logging ConfigurationManager.

(** [UnmarshalKey] put into the structure the integers the table holds
    for the keys of [AppConfig]. *)
Definition carries_app (m : gmap string value) (c : AppConfig) : Prop :=
  (forall n, index m "log_level" = VInt64 n -> LogLevel c = n)
  /\ (forall n, index m "log_rotation_time" = VInt64 n -> LogRotationTime c = n)
  /\ (forall n, index m "max_log_size" = VInt64 n -> MaxLogSize c = n).

(** The same for the integer and the strings [Load] looks at in
    [HTTPConfig]. *)
Definition carries_http (m : gmap string value) (c : HTTPConfig) : Prop :=
  (forall n, index m "max_file_size" = VInt64 n -> MaxFileSize c = n)
  /\ (forall s, index m "address" = VString s -> Address c = s)
  /\ (forall s, index m "file_server_directory" = VString s -> FileServerDirectory c = s).

(** [UnmarshalKey] and [Get] of [v] agree in that way. *)
Definition viper_carries (v : Viper) : Prop :=
  (forall m c, Get_app v = STable m -> UnmarshalKey_app v = Some c -> carries_app m c)
  /\ (forall m c, Get_http v = STable m -> UnmarshalKey_http v = Some c -> carries_http m c).

(** A value that is neither nil nor a string. *)
Definition not_string (x : value) : Prop :=
  match x with
  | VNil | VString _ => False
  | _ => True
  end.

(** The configuration [Load] accepts. *)
Definition valid_configuration (cm : ConfigurationManager) : Prop :=
  FATAL <= LogLevel (appConfig cm) <= DEBUG
  /\ 0 < LogRotationTime (appConfig cm)
  /\ 0 < MaxLogSize (appConfig cm)
  /\ 0 < MaxFileSize (httpConfig cm)
  /\ Address (httpConfig cm) <> ""
  /\ FileServerDirectory (httpConfig cm) <> "".

End LoadPredicates.

Section DigestPredicates.

(** A string of 32 lower-case hexadecimal digits. *)
Definition is_digest (s : string) : Prop :=
  String.length s = 32%nat
  /\ forall c, contains c s = true -> contains c Hex.hextable = true.

End DigestPredicates.

Section UploadPredicates.

Import Filepath OS ConfigurationManager Upload.

(** A file name: a path element other than ["."] and [".."]. *)
Definition plain_name (e : string) : Prop :=
  has_sep e = false /\ e <> "" /\ e <> "." /\ e <> "..".

(** [q] names an entry of the directory [dir] itself. *)
Definition in_directory (dir q : string) : Prop :=
  exists e, plain_name e /\ q = Join [dir; e].

(** [filepath.IsAbs]. *)
Definition IsAbs (path : string) : Prop := exists r, path = String "/" r.

(** The entries of the directory [dir] are regular files. *)
Definition no_links_in (dir : string) (w : world) : Prop :=
  forall q target, in_directory dir q -> names w !! q <> Some (Lnk target).

(** The elements [Clean] keeps of a rooted path, innermost first. *)
Definition stack (p : string) : list string :=
  fold_left (clean_step true) (split_sep p) [].

Definition proper (e : string) : Prop := e <> "" /\ e <> "." /\ e <> "..".

(** The local file name of the handler. *)
Definition local_name (r : Form) (headerFilename : string) : string :=
  if bool_decide (FormValue_filename r = "")
  then Utilities.SanitizeFilename headerFilename
  else Utilities.SanitizeFilename (FormValue_filename r).


(** The page the handler executed. *)
Definition page_of (o : outcome (Page * world)) : option Page :=
  match o with
  | Ret (pg, _) => Some pg
  | _ => None
  end.

End UploadPredicates.

(* ===================================================================== *)
(** * Scenarios *)
(* ===================================================================== *)

(** Fixtures of the package's tests. *)
Module Fixtures.

Import OS Time Lumberjack.

Definition bytes (s : string) : list byte := String.list_byte_of_string s.

(** [fakeCurrentTime]: 2009-11-17 20:34:58.651387237 UTC. *)
Definition fakeCurrentTime : Time :=
  {| unixNano := 1258490098651387237; zoneOffset := 0 |}.

(** The environment of a test: the clock, the value of [megabyte], the
    injected faults. *)
Definition test_env (clk : nat -> Time) (mb : Z) (f : faults) : env :=
  {| clock := clk; localOffset := 0; Args0 := "/usr/bin/fileserver";
     TempDir := "/tmp"; megabyte := mb; faulty := f |}.

(** A world with the given directory entries and files. *)
Definition test_world (e : env) (ns : list (string * dirent)) (files : list (list byte))
    (r : option nat) : world :=
  {| names := list_to_map ns; inodes := files; room := r; ticks := 0;
     rotations := 0; sys := e |}.

(** [logFile(dir)] and the backup files of the tests. *)
Definition logFile : string := "/tmp/TestLog/foobar.log".
Definition backup_2030 : string := "/tmp/TestLog/foobar-20091117_203000.log".

(** [&Logger{Filename: logFile(dir), MaxSize: maxSize}]. *)
Definition test_logger (maxSize : Z) : Logger :=
  {| Filename := logFile; RotationTime := 0; MaxSize := maxSize; LocalTime := false;
     size := 0; file := None |}.

(** The clock of the tests: [fakeTime]. *)
Definition fakeTime : nat -> Time := fun _ => fakeCurrentTime.

(** An empty directory, [megabyte] as in production. *)
Definition empty_dir : world :=
  test_world (test_env fakeTime (1024 * 1024) no_faults) [] [] None.

(** The directory [TestOpenExisting] finds at its second [Write]: the
    backup file holds ["foo!"], the destination links to it. *)
Definition dir_with_backup : world :=
  test_world (test_env fakeTime (1024 * 1024) no_faults)
    [(backup_2030, Reg 0%nat); (logFile, Lnk backup_2030)] [bytes "foo!"] None.

(** A backup file of the current window, and nothing at the destination. *)
Definition dir_without_link : world :=
  test_world (test_env fakeTime (1024 * 1024) no_faults)
    [(backup_2030, Reg 0%nat)] [bytes "old!"] None.

(** An empty directory in which [os.Symlink] fails. *)
Definition symlink_fails : faults :=
  {| fail_mkdir := fun _ => false; fail_stat := fun _ => false;
     fail_open := fun _ => false; fail_create := fun _ => false;
     fail_remove := fun _ => false; fail_symlink := fun _ => true;
     fail_close := fun _ => false |}.

Definition dir_symlink_fails : world :=
  test_world (test_env fakeTime (1024 * 1024) symlink_fails) [] [] None.

(** The same entries and files once the fault is gone. *)
Definition repaired (w : world) : world :=
  {| names := names w; inodes := inodes w; room := None; ticks := ticks w;
     rotations := rotations w; sys := test_env fakeTime (1024 * 1024) no_faults |}.

(** An empty directory on a device that accepts no byte. *)
Definition full_device : world :=
  test_world (test_env fakeTime (1024 * 1024) no_faults) [] [] (Some 0%nat).



(** [megabyte = 1], a maximum of 10 bytes: the backup file of the window
    holds 8 bytes, the one with index 2 holds 9. *)
Definition backup_2030_2 : string := "/tmp/TestLog/foobar-20091117_203000_2.log".

Definition backup_2030_3 : string := "/tmp/TestLog/foobar-20091117_203000_3.log".

Definition dir_two_full : world :=
  test_world (test_env fakeTime 1 no_faults)
    [(backup_2030, Reg 0%nat); (backup_2030_2, Reg 1%nat)]
    [bytes "boooooo!"; bytes "fooooooo!"] None.

(** The backup file of the window holds 6 bytes: with 4 more it meets the
    maximum of 10 exactly. *)
Definition dir_six_bytes : world :=
  test_world (test_env fakeTime 1 no_faults) [(backup_2030, Reg 0%nat)]
    [bytes "boooo!"] None.

(** 20:30:00 UTC on 2009-11-17, a boundary of the five-minute windows, and
    the nanosecond after it. *)
Definition at_2030 : Time := {| unixNano := 1258489800000000000; zoneOffset := 0 |}.

Definition after_2030 : Time := {| unixNano := 1258489800000000001; zoneOffset := 0 |}.

(** A directory in which [os_Stat] fails with an error other than "does
    not exist" (permission denied, say). *)
Definition stat_fails : faults :=
  {| fail_mkdir := fun _ => false; fail_stat := fun _ => true;
     fail_open := fun _ => false; fail_create := fun _ => false;
     fail_remove := fun _ => false; fail_symlink := fun _ => false;
     fail_close := fun _ => false |}.

Definition dir_stat_fails : world :=
  test_world (test_env fakeTime (1024 * 1024) stat_fails) [] [] None.

(** The second write of [TestLocalTime]: nine bytes on a file of four, with
    a maximum of ten. *)
Definition dir_four_bytes : world :=
  test_world (test_env fakeTime 1 no_faults)
    [(backup_2030, Reg 0%nat); (logFile, Lnk backup_2030)] [bytes "boo!"] None.

(** A rotation time of 200 million minutes: [time.Minute * 200000000]
    overflows to a negative [time.Duration]. *)
Definition overflowing_logger : Logger :=
  {| Filename := logFile; RotationTime := 200000000; MaxSize := 0; LocalTime := true;
     size := 0; file := None |}.


End Fixtures.


Module ConfigFixtures.

Import Logging ConfigurationManager.

(** The manager [New] makes: zero values. *)
Definition zero_manager : ConfigurationManager :=
  {| appConfig := {| FilelogDestination := ""; LogEnable := false; LogLevel := 0;
                     LogRotationTime := 0; MaxLogSize := 0 |};
     httpConfig := {| Address := ""; SSL := false; KeyFile := ""; CertFile := "";
                      MaxFileSize := 0; FileServerDirectory := ""; Authen := [] |} |}.

(** The sample configuration file of the repository, with a level that
    is not one of the five, and its tables as [viper] hands them out. *)
Definition sample_app : gmap string value :=
  list_to_map [("filelog_destination", VString "/tmp/fileserver-go/log/fileserver-go.log");
               ("log_enable", VBool true); ("log_level", VInt64 7);
               ("log_rotation_time", VInt64 60); ("max_log_size", VInt64 500)].

Definition sample_http : gmap string value :=
  list_to_map [("address", VString "0.0.0.0:9000"); ("ssl", VBool false);
               ("key_file", VString "yourkey.key"); ("cert_file", VString "yourpem.pem");
               ("max_file_size", VInt64 10);
               ("file_server_directory", VString " /tmp/fileserver-go ");
               ("basic_authen", VOther)].

Definition sample : Viper :=
  {| ReadInConfig := false;
     UnmarshalKey_app :=
       Some {| FilelogDestination := "/tmp/fileserver-go/log/fileserver-go.log";
               LogEnable := true; LogLevel := 7; LogRotationTime := 60;
               MaxLogSize := 500 |};
     Get_app := STable sample_app;
     UnmarshalKey_http :=
       Some {| Address := "0.0.0.0:9000"; SSL := false; KeyFile := "yourkey.key";
               CertFile := "yourpem.pem"; MaxFileSize := 10;
               FileServerDirectory := " /tmp/fileserver-go ";
               Authen := [ {| Api.Username := "user";
                              Api.Password := "e10adc3949ba59abbe56e057f20f883e" |} ] |};
     Get_http := STable sample_http |}.

(** A file that cannot be read. *)
Definition unreadable : Viper :=
  {| ReadInConfig := true; UnmarshalKey_app := None; Get_app := SNil;
     UnmarshalKey_http := None; Get_http := SNil |}.

(** The sample with [address = 9000], an integer. *)
Definition integer_address : Viper :=
  {| ReadInConfig := false;
     UnmarshalKey_app := UnmarshalKey_app sample;
     Get_app := Get_app sample;
     UnmarshalKey_http := UnmarshalKey_http sample;
     Get_http := STable (<["address" := VInt64 9000]> sample_http) |}.

End ConfigFixtures.

Module UploadFixtures.

Import OS ConfigurationManager Upload Fixtures.

(** The sample configuration: the directory is [/tmp/fileserver-go]. *)
Definition upload_config : HTTPConfig :=
  {| Address := "0.0.0.0:9000"; SSL := false; KeyFile := ""; CertFile := "";
     MaxFileSize := 10; FileServerDirectory := "/tmp/fileserver-go"; Authen := [] |}.

(** The directory holds a report, and a file with the temporary name of
    the report. *)
Definition upload_dir (r : option nat) : world :=
  test_world (test_env fakeTime (1024 * 1024) no_faults)
    [("/tmp/fileserver-go/report.txt", Reg 0%nat);
     ("/tmp/fileserver-go/report.txt.tmp", Reg 1%nat);
     ("/etc/passwd", Reg 2%nat)]
    [bytes "old"; bytes "precious"; bytes "root"] r.

(** An upload of [report.txt], and one that asks for the name [..]. *)
Definition upload_report : Form :=
  {| ParseMultipartForm := false;
     FormFile := Some ("report.txt", bytes "new report");
     FormValue_filename := "" |}.


Definition all_templates : string -> bool := fun _ => true.

End UploadFixtures.

(* ===================================================================== *)
(** * Facts about strings *)
(* ===================================================================== *)

Section StringFacts.

Implicit Types (s a b : string) (c : ascii).

Lemma app_cons_s c a b : String c a +:+ b = String c (a +:+ b).
Proof. reflexivity. Qed.

Lemma app_nil_l_s b : "" +:+ b = b.
Proof. reflexivity. Qed.

Lemma app_nil_r_s s : s +:+ "" = s.
Proof. induction s as [|d r IH]; [done | by rewrite app_cons_s, IH]. Qed.

Lemma app_assoc_s a b s : (a +:+ b) +:+ s = a +:+ (b +:+ s).
Proof. induction a as [|d r IH]; [done | by rewrite !app_cons_s, IH]. Qed.

Lemma length_app_s a b :
  String.length (a +:+ b) = (String.length a + String.length b)%nat.
Proof. induction a as [|d r IH]; [done | rewrite app_cons_s; simpl; by rewrite IH]. Qed.

Lemma contains_app c a b : contains c (a +:+ b) = contains c a || contains c b.
Proof.
  induction a as [|d r IH]; [done|].
  rewrite app_cons_s; simpl. by rewrite IH, orb_assoc.
Qed.

Lemma contains_substring c s n m :
  contains c (substring n m s) = true -> contains c s = true.
Proof.
  revert n m. induction s as [|d r IH]; intros n m; simpl.
  - by destruct n, m.
  - destruct n as [|n]; [destruct m as [|m]|]; simpl; try done.
    + intros [H|H]%orb_true_iff; apply orb_true_iff; [by left|right; eauto].
    + intros H. apply orb_true_iff. right. eauto.
Qed.

Lemma length_substring_0 s n :
  (n <= String.length s)%nat -> String.length (substring 0 n s) = n.
Proof.
  revert n. induction s as [|d r IH]; intros [|n] Hn; simpl in *; try done; try lia.
  rewrite IH; lia.
Qed.

End StringFacts.

(* ===================================================================== *)
(** * Facts about path names *)
(* ===================================================================== *)

Section FilepathFacts.

Import Filepath.
Implicit Types (s q e : string) (c : ascii).

Lemma has_sep_cons c s : has_sep (String c s) = IsPathSeparator c || has_sep s.
Proof. reflexivity. Qed.

Lemma has_sep_app a b : has_sep (a +:+ b) = has_sep a || has_sep b.
Proof. apply contains_app. Qed.

Lemma ends_dir_cons c q : ends_dir (String c q) -> ends_dir q /\ has_sep (String c q) = true.
Proof.
  intros [H|[q' H]]; [done|].
  destruct q' as [|d q'].
  - injection H as -> ->. split; [by left | done].
  - rewrite app_cons_s in H. injection H as -> ->. split; [right; eauto|].
    rewrite has_sep_cons, has_sep_app. simpl. by rewrite !orb_true_r.
Qed.

Lemma ends_dir_snoc q : ends_dir (q +:+ "/").
Proof. right; eauto. Qed.

Lemma last_elem_nosep s : has_sep s = false -> last_elem s = s.
Proof. destruct s as [|c r]; [done|]. simpl. by intros ->. Qed.

Lemma has_sep_last_elem s : has_sep (last_elem s) = false.
Proof.
  induction s as [|c r IH]; [done|]. simpl.
  destruct (has_sep (String c r)) eqn:E; [done|]. exact E.
Qed.

Lemma last_elem_app q e : ends_dir q -> has_sep e = false -> last_elem (q +:+ e) = e.
Proof.
  intros Hq He. induction q as [|c r IH].
  - by apply last_elem_nosep.
  - apply ends_dir_cons in Hq as [Hr Hs].
    rewrite app_cons_s. simpl. rewrite <-app_cons_s, has_sep_app, Hs. simpl. auto.
Qed.

Lemma split_sep_nonempty s : split_sep s <> [].
Proof.
  induction s as [|c r IH]; [done|]. simpl.
  destruct (IsPathSeparator c); [done|]. by destruct (split_sep r).
Qed.

Lemma split_sep_nosep s : has_sep s = false -> split_sep s = [s].
Proof.
  induction s as [|c r IH]; [done|]. rewrite has_sep_cons.
  intros [Hc Hr]%orb_false_iff. simpl. rewrite Hc, IH; done.
Qed.

Lemma split_sep_app q e : split_sep (q +:+ "/" +:+ e) = split_sep q ++ split_sep e.
Proof.
  induction q as [|c r IH]; [done|].
  rewrite app_cons_s. simpl. rewrite IH.
  destruct (IsPathSeparator c); [done|].
  pose proof (split_sep_nonempty r). by destruct (split_sep r).
Qed.

Lemma split_sep_last q e :
  ends_dir q -> has_sep e = false -> exists l, split_sep (q +:+ e) = l ++ [e].
Proof.
  intros [->|[q' ->]] He.
  - exists []. by apply split_sep_nosep.
  - exists (split_sep q'). by rewrite app_assoc_s, split_sep_app, (split_sep_nosep e).
Qed.

Lemma concat_snoc (sep : string) (l : list string) e :
  String.concat sep (l ++ [e])
  = match l with [] => e | _ => String.concat sep l +:+ sep +:+ e end.
Proof.
  induction l as [|x l IH]; [done|].
  change ((x :: l) ++ [e]) with (x :: (l ++ [e])).
  assert (String.concat sep (x :: (l ++ [e]))
          = x +:+ sep +:+ String.concat sep (l ++ [e])) as ->.
  { simpl. by destruct l. }
  rewrite IH. destruct l as [|x' l]; [done|].
  change (String.concat sep (x :: x' :: l))
    with (x +:+ sep +:+ String.concat sep (x' :: l)).
  by rewrite !app_assoc_s.
Qed.

Lemma concat_snoc_dir (l : list string) e :
  exists y, String.concat "/" (l ++ [e]) = y +:+ e /\ ends_dir y.
Proof.
  rewrite concat_snoc. destruct l as [|x l].
  - exists "". split; [done | by left].
  - exists (String.concat "/" (x :: l) +:+ "/"). split.
    + by rewrite app_assoc_s.
    + apply ends_dir_snoc.
Qed.

Lemma clean_step_push rooted out e :
  e <> "" -> e <> "." -> e <> ".." -> clean_step rooted out e = e :: out.
Proof. intros. unfold clean_step. by rewrite !bool_decide_eq_false_2. Qed.

(** The last element of a cleaned path is the last element of the path,
    when that is a proper name. *)
Lemma Clean_last q e :
  ends_dir q -> has_sep e = false -> e <> "" -> e <> "." -> e <> ".." ->
  last_elem (Clean (q +:+ e)) = e.
Proof.
  intros Hq He H0 H1 H2.
  destruct (split_sep_last q e Hq He) as [l Hl].
  unfold Clean. destruct (q +:+ e) as [|c r] eqn:E.
  { destruct q; [by rewrite app_nil_l_s in E | by rewrite app_cons_s in E]. }
  rewrite Hl, fold_left_app. simpl.
  rewrite clean_step_push by done. simpl.
  destruct (concat_snoc_dir (rev (fold_left (clean_step (IsPathSeparator c)) l [])) e)
    as (y & -> & Hy).
  destruct (IsPathSeparator c).
  - rewrite <-app_assoc_s. apply last_elem_app; [|done].
    destruct Hy as [->|[y' ->]]; [exact (ends_dir_snoc "")|].
    rewrite <-app_assoc_s. apply ends_dir_snoc.
  - rewrite bool_decide_eq_false_2.
    + by apply last_elem_app.
    + destruct y, e; done.
Qed.

Lemma Clean_nonempty p : Clean p <> "".
Proof.
  unfold Clean. destruct p as [|c r]; [done|].
  destruct (IsPathSeparator c); [done|]. by case_bool_decide.
Qed.

Lemma Join_two d e : d <> "" -> Join [d; e] = Clean (d +:+ "/" +:+ e).
Proof. intros H. simpl. by rewrite bool_decide_eq_false_2. Qed.

Lemma Base_cases p : Base p = "/" \/ has_sep (Base p) = false.
Proof.
  unfold Base. destruct p as [|c r]; [by right|].
  pose proof (has_sep_last_elem (strip_trailing (String c r))) as H.
  destruct (last_elem _); [by left | by right].
Qed.

Lemma Ext_cases c r : Ext (String c r) = Ext r \/ Ext (String c r) = String c r
                      \/ Ext (String c r) = "".
Proof. simpl. repeat case_match; auto. Qed.

Lemma contains_Ext c s : contains c (Ext s) = true -> contains c s = true.
Proof.
  induction s as [|d r IH]; [done|].
  destruct (Ext_cases d r) as [-> | [-> | ->]]; [|done..].
  intros H. simpl. rewrite (IH H). apply orb_true_r.
Qed.

Lemma length_Ext s : (String.length (Ext s) <= String.length s)%nat.
Proof.
  induction s as [|d r IH]; [done|].
  destruct (Ext_cases d r) as [-> | [-> | ->]]; simpl; lia.
Qed.

Lemma strip_trailing_last_elem s : last_elem s <> "" -> strip_trailing s = s.
Proof.
  induction s as [|c r IH]; [done|].
  change (last_elem (String c r))
    with (if has_sep (String c r) then last_elem r else String c r).
  rewrite has_sep_cons.
  destruct (IsPathSeparator c || has_sep r) eqn:E.
  - intros H. simpl. rewrite (IH H). by destruct r.
  - intros _. apply orb_false_iff in E as [Ec Er].
    destruct r as [|d r]; [simpl; by rewrite Ec|].
    rewrite last_elem_nosep in IH by done.
    change (strip_trailing (String c (String d r)))
      with (match strip_trailing (String d r) with
            | "" => if IsPathSeparator c then "" else String c ""
            | r' => String c r'
            end).
    by rewrite IH.
Qed.

Lemma Base_last_elem s : last_elem s <> "" -> Base s = last_elem s.
Proof.
  intros H. unfold Base. destruct s as [|c r]; [done|].
  rewrite (strip_trailing_last_elem _ H). by destruct (last_elem (String c r)).
Qed.

End FilepathFacts.

(* ===================================================================== *)
(** * Facts about timestamps and backup names *)
(* ===================================================================== *)

Section NameFacts.

Import Filepath Time.

Lemma has_sep_pretty_N_go x s : has_sep (pretty_N_go x s) = has_sep s.
Proof.
  revert s. induction (N.lt_wf_0 x) as [x _ IH]; intros s.
  destruct (decide (x = 0)%N) as [->|Hx]; [done|].
  rewrite pretty_N_go_step by lia.
  rewrite IH by (apply N.div_lt; lia).
  rewrite has_sep_cons. unfold pretty_N_char. by repeat case_match.
Qed.

Lemma has_sep_pretty_N (x : N) : has_sep (pretty x) = false.
Proof.
  unfold pretty, pretty_N. case_decide; [done|]. by rewrite has_sep_pretty_N_go.
Qed.

Lemma has_sep_pretty_Z (x : Z) : has_sep (pretty x) = false.
Proof.
  destruct x as [|p|p]; [done|..].
  - apply (has_sep_pretty_N (N.pos p)).
  - change (pretty (Z.neg p)) with ("-" +:+ pretty (N.pos p)).
    rewrite has_sep_app. by rewrite (has_sep_pretty_N (N.pos p)).
Qed.

Lemma has_sep_zeros n : has_sep (zeros n) = false.
Proof. induction n as [|n IH]; [done|]. simpl. by rewrite has_sep_cons, IH. Qed.

Lemma has_sep_appendInt x width : has_sep (appendInt x width) = false.
Proof.
  unfold appendInt. rewrite !has_sep_app, has_sep_zeros, has_sep_pretty_Z.
  by destruct (x <? 0).
Qed.

Lemma has_sep_Format t : has_sep (Format t) = false.
Proof. unfold Format. by rewrite !has_sep_app, !has_sep_appendInt. Qed.

Lemma contains_dash_mid c a b : contains c (a +:+ String c b) = true.
Proof. rewrite contains_app. simpl. rewrite bool_decide_eq_true_2 by done. apply orb_true_r. Qed.

(** The last element of a name made from the destination [fn] by inserting
    a dash and a tag [ts] that holds no separator. *)
Lemma tagged_last_elem fn ts :
  has_sep ts = false ->
  last_elem (Join [Dir fn; stem_of fn +:+ "-" +:+ ts +:+ ext_of fn])
  = last_stem fn +:+ "-" +:+ ts +:+ ext_of fn.
Proof.
  intros Hts. rewrite Join_two by apply Clean_nonempty.
  assert (has_sep (ext_of fn) = false) as Hext.
  { unfold ext_of. destruct (has_sep (Ext (Base fn))) eqn:E; [|done].
    destruct (Base_cases fn) as [Hb|Hb].
    - by rewrite Hb in E.
    - apply contains_Ext in E. unfold has_sep in Hb. congruence. }
  assert (forall a, has_sep a = false ->
            has_sep (a +:+ "-" +:+ ts +:+ ext_of fn) = false) as Hns.
  { intros a Ha. by rewrite !has_sep_app, Ha, Hts, Hext. }
  assert (forall a, a +:+ "-" +:+ ts +:+ ext_of fn <> ""
                    /\ a +:+ "-" +:+ ts +:+ ext_of fn <> "."
                    /\ a +:+ "-" +:+ ts +:+ ext_of fn <> "..") as Hne.
  { intros a. pose proof (contains_dash_mid "-" a (ts +:+ ext_of fn)) as H.
    change (String "-" (ts +:+ ext_of fn)) with ("-" +:+ ts +:+ ext_of fn) in H.
    repeat split; intros E; by rewrite E in H. }
  unfold last_stem. case_bool_decide as Hb.
  - (* a destination of separators only: the stem is the separator *)
    unfold stem_of. rewrite Hb. simpl.
    destruct (Hne "") as (?&?&?).
    replace (Dir fn +:+ "/" +:+ "/" +:+ "-" +:+ ts +:+ ext_of fn)
      with (((Dir fn +:+ "/") +:+ "/") +:+ ("" +:+ "-" +:+ ts +:+ ext_of fn))
      by (by rewrite !app_assoc_s).
    apply Clean_last; auto using ends_dir_snoc.
  - destruct (Base_cases fn) as [?|Hb']; [done|].
    destruct (Hne (stem_of fn)) as (?&?&?).
    replace (Dir fn +:+ "/" +:+ stem_of fn +:+ "-" +:+ ts +:+ ext_of fn)
      with ((Dir fn +:+ "/") +:+ (stem_of fn +:+ "-" +:+ ts +:+ ext_of fn))
      by (by rewrite !app_assoc_s).
    apply Clean_last; auto using ends_dir_snoc.
    apply Hns. unfold stem_of.
    destruct (has_sep (substring _ _ _)) eqn:E; [|done].
    apply contains_substring in E. unfold has_sep in Hb'. congruence.
Qed.

Lemma last_stem_nosep fn : has_sep (Base fn) = false -> last_stem fn = stem_of fn.
Proof.
  intros H. unfold last_stem. case_bool_decide as Hb; [|done]. by rewrite Hb in H.
Qed.

(** A tagged name is never the destination itself. *)
Lemma tagged_name_fresh fn ts :
  has_sep ts = false ->
  Join [Dir fn; stem_of fn +:+ "-" +:+ ts +:+ ext_of fn] <> fn.
Proof.
  intros Hts E. pose proof (tagged_last_elem fn ts Hts) as Hl.
  rewrite E in Hl.
  assert (last_elem fn <> "") as Hne.
  { rewrite Hl. destruct (last_stem fn); done. }
  pose proof (Base_last_elem fn Hne) as Hb.
  rewrite last_stem_nosep in Hl by (rewrite Hb; apply has_sep_last_elem).
  assert (String.length (last_elem fn)
          = String.length (stem_of fn +:+ "-" +:+ ts +:+ ext_of fn)) as Hlen
    by by rewrite Hl.
  rewrite !length_app_s in Hlen. unfold stem_of, ext_of in Hlen.
  pose proof (length_Ext (Base fn)).
  rewrite length_substring_0 in Hlen by lia.
  rewrite Hb in *. simpl in Hlen. lia.
Qed.

(** Two tags of different lengths give different names. *)
Lemma tagged_name_length fn ts ts' :
  has_sep ts = false -> has_sep ts' = false ->
  Join [Dir fn; stem_of fn +:+ "-" +:+ ts +:+ ext_of fn]
  = Join [Dir fn; stem_of fn +:+ "-" +:+ ts' +:+ ext_of fn] ->
  String.length ts = String.length ts'.
Proof.
  intros Hts Hts' E.
  pose proof (tagged_last_elem fn ts Hts) as H1.
  pose proof (tagged_last_elem fn ts' Hts') as H2.
  rewrite E, H2 in H1.
  assert (String.length (last_stem fn +:+ "-" +:+ ts' +:+ ext_of fn)
          = String.length (last_stem fn +:+ "-" +:+ ts +:+ ext_of fn)) as Hlen
    by by rewrite H1.
  rewrite !length_app_s in Hlen. lia.
Qed.

End NameFacts.

(* ===================================================================== *)
(** * SanitizeFilename *)
(* ===================================================================== *)

Section SanitizeFacts.

Import Utilities.

Lemma underscore_not_reserved : is_reserved "_" = false.
Proof. reflexivity. Qed.

Lemma contains_SanitizeFilename c s :
  is_reserved c = true -> contains c (SanitizeFilename s) = false.
Proof.
  intros Hc. induction s as [|d r IH]; [done|]. simpl.
  rewrite IH, orb_false_r. apply bool_decide_eq_false_2.
  destruct (is_reserved d) eqn:Hd; intros <-; [by rewrite underscore_not_reserved in Hc|].
  congruence.
Qed.

(** C10.  [SanitizeFilename] is idempotent, and none of the reserved
    characters (backslash, slash, question mark, percent, asterisk, colon,
    pipe, double quote, the angle brackets and the space: the characters
    whose codes are [reserved_codes]) occurs in its result. *)
Theorem SanitizeFilename_idempotent_clean (s : string) :
  SanitizeFilename (SanitizeFilename s) = SanitizeFilename s
  /\ Forall (fun n => contains (ascii_of_nat n) (SanitizeFilename s) = false)
            reserved_codes.
Proof.
  split.
  - induction s as [|d r IH]; [done|]. simpl. rewrite IH. f_equal.
    destruct (is_reserved d) eqn:Hd; [by rewrite underscore_not_reserved | by rewrite Hd].
  - unfold reserved_codes.
    repeat (apply List.Forall_cons; [apply contains_SanitizeFilename; reflexivity|]).
    apply List.Forall_nil.
Qed.

End SanitizeFacts.

(* ===================================================================== *)
(** * The authentication middleware *)
(* ===================================================================== *)

Section ApiFacts.

Import Api.

(** C9.  With an empty basic-authentication list, [authen] accepts every
    pair of user name and password, and the handler [ValidateMiddleware]
    returns hands every request to [next] as it is: no header is set, the
    credentials are not read, [authen] is not consulted. *)
Theorem empty_authen_list_bypasses (md5 : string -> string) :
  (forall username password, authen md5 [] username password = true)
  /\ (forall authenNow next w r,
        ValidateMiddleware md5 [] authenNow next w r = next w r).
Proof. split; reflexivity. Qed.

End ApiFacts.

(* ===================================================================== *)
(** * Facts about the logger *)
(* ===================================================================== *)

Section IntegerFacts.

Lemma wrap64_small x : - 2 ^ 63 <= x < 2 ^ 63 -> wrap64 x = x.
Proof. intros H. unfold wrap64. rewrite Z.mod_small; lia. Qed.

Lemma wrap64_range x : - 2 ^ 63 <= wrap64 x < 2 ^ 63.
Proof.
  unfold wrap64. pose proof (Z.mod_pos_bound (x + 2 ^ 63) (2 ^ 64)). lia.
Qed.

Lemma add64_small x y : - 2 ^ 63 <= x + y < 2 ^ 63 -> add64 x y = x + y.
Proof. apply wrap64_small. Qed.

End IntegerFacts.

Section ProcessNameFacts.

Import OS Time Lumberjack.

Lemma get_max_size_range l w : - 2 ^ 63 <= get_max_size l w < 2 ^ 63.
Proof. unfold get_max_size, mul64. case_match; apply wrap64_range. Qed.

Lemma get_filename_tick l w : get_filename l (tick w) = get_filename l w.
Proof. reflexivity. Qed.

Lemma timestamp_at_nosep fuel l w t ts :
  timestamp_at fuel l w t = Ret ts -> Filepath.has_sep ts = false.
Proof.
  unfold timestamp_at. case_match.
  - destruct (rotation_loop _ _ _ _); simpl; intros [= <-]. apply has_sep_Format.
  - intros [= <-]. apply has_sep_Format.
Qed.

Lemma search_name_shape fuel w dir pre ts ext wl mx counter name :
  search_name fuel w dir pre ts ext wl mx counter = Ret name ->
  exists n, counter <= n /\ name = indexed_name dir pre ts n ext.
Proof.
  revert counter. induction fuel as [|fuel IH]; intros counter; [done|]. simpl.
  destruct (Stat w _) as [sz| |]; try done.
  - destruct (add64 sz wl >? mx).
    + intros Hs. destruct (IH _ Hs) as (n & ? & ?). exists n. split; [lia | done].
    + intros [= <-]. exists counter. split; [lia | done].
  - intros [= <-]. exists counter. split; [lia | done].
Qed.

(** What [processName] returns: the world with the clock read once, and the
    destination's name with a dash and the timestamp, or the timestamp and
    an index from 2 on, between stem and extension. *)
Lemma processName_shape fuel l wl w name w' :
  processName fuel l wl w = Ret (name, w') ->
  w' = tick w
  /\ exists ts,
       timestamp_at fuel l (tick w) (time_at w (ticks w)) = Ret ts
       /\ (name = backup_name (get_dir l w) (stem_of (get_filename l w)) ts
                    (ext_of (get_filename l w))
           \/ exists n, 2 <= n /\
                name = indexed_name (get_dir l w) (stem_of (get_filename l w)) ts n
                         (ext_of (get_filename l w))).
Proof.
  unfold processName, currentTime.
  change {| unixNano := unixNano (clock (sys w) (ticks w));
            zoneOffset := localOffset (sys w) |} with (time_at w (ticks w)).
  destruct (timestamp_at fuel l (tick w) (time_at w (ticks w))) as [ts| |] eqn:Ets;
    simpl; try done.
  fold (stem_of (get_filename l w)). fold (ext_of (get_filename l w)).
  fold (get_dir l w).
  destruct (Stat (tick w) _) as [sz| |]; try done.
  - case_match.
    + destruct (search_name _ _ _ _ _ _ _ _ _) as [nm| |] eqn:Es; simpl; try done.
      intros [= <- <-]. split; [done|]. exists ts. split; [done|]. right.
      by apply search_name_shape in Es.
    + intros [= <- <-]. split; [done|]. exists ts. split; [done|]. by left.
  - intros [= <- <-]. split; [done|]. exists ts. split; [done|]. by left.
Qed.

Lemma backup_name_fresh fn ts :
  Filepath.has_sep ts = false ->
  backup_name (Filepath.Dir fn) (stem_of fn) ts (ext_of fn) <> fn.
Proof. apply tagged_name_fresh. Qed.

Lemma indexed_name_fresh fn ts n :
  Filepath.has_sep ts = false ->
  indexed_name (Filepath.Dir fn) (stem_of fn) ts n (ext_of fn) <> fn.
Proof.
  intros Hts. unfold indexed_name.
  replace (stem_of fn +:+ "-" +:+ ts +:+ "_" +:+ pretty n +:+ ext_of fn)
    with (stem_of fn +:+ "-" +:+ (ts +:+ "_" +:+ pretty n) +:+ ext_of fn)
    by (by rewrite !app_assoc_s).
  apply tagged_name_fresh.
  by rewrite !has_sep_app, Hts, has_sep_pretty_Z.
Qed.

Lemma processName_fresh fuel l wl w name w' :
  processName fuel l wl w = Ret (name, w') -> name <> get_filename l w.
Proof.
  intros (_ & ts & Hts%timestamp_at_nosep & [->|(n & _ & ->)])%processName_shape.
  - by apply backup_name_fresh.
  - by apply indexed_name_fresh.
Qed.

End ProcessNameFacts.

Section OSFacts.

Import OS.

Lemma resolve_Found_inode fuel w path i :
  resolve fuel w path = Found i -> is_Some (inodes w !! i).
Proof.
  revert path. induction fuel as [|fuel IH]; intros path; simpl;
    repeat case_match; try done; try (intros [= <-]; eauto); eauto.
Qed.

Lemma resolve_None fuel w path : names w !! path = None -> resolve fuel w path = Missing path.
Proof. intros H. destruct fuel; simpl; by rewrite H. Qed.

Lemma resolve_Reg fuel w path i c :
  names w !! path = Some (Reg i) -> inodes w !! i = Some c ->
  resolve fuel w path = Found i.
Proof. intros H Hc. destruct fuel; simpl; by rewrite H, Hc. Qed.

Lemma resolve_Lnk fuel w path target :
  names w !! path = Some (Lnk target) ->
  resolve (S fuel) w path = resolve fuel w target.
Proof. intros H. simpl. by rewrite H. Qed.

Lemma Remove_inv w path w' :
  Remove w path = Some w' -> w' = set_names (delete path) w.
Proof. unfold Remove. repeat case_match; try done. by intros [= <-]. Qed.

Lemma Symlink_inv w target link w' :
  Symlink w target link = Some w' ->
  names w !! link = None /\ w' = set_names (insert link (Lnk target)) w.
Proof. unfold Symlink. repeat case_match; try done. by intros [= <-]. Qed.

Lemma OpenAppend_inv w name i :
  OpenAppend w name = Some i -> resolve maxSymlinks w name = Found i.
Proof. unfold OpenAppend. repeat case_match; try done. by intros [= <-]. Qed.

Lemma OpenCreateTrunc_inv w name i w' :
  OpenCreateTrunc w name = Some (i, w') ->
  (resolve maxSymlinks w name = Found i /\ w' = set_inodes (fun d => <[i := []]> d) w)
  \/ (exists path, resolve maxSymlinks w name = Missing path
        /\ i = length (inodes w)
        /\ w' = set_inodes (fun d => d ++ [[]]) (set_names (insert path (Reg i)) w)).
Proof.
  unfold OpenCreateTrunc. repeat case_match; try done; intros [= <- <-]; eauto 10.
Qed.

Lemma Stat_ok_inv w name sz :
  Stat w name = StatOk sz ->
  exists i, resolve maxSymlinks w name = Found i /\ FileSize w i = Some sz.
Proof. unfold Stat. repeat case_match; try done. intros [= <-]. eauto. Qed.

Lemma FileSize_nonneg w i sz : FileSize w i = Some sz -> 0 <= sz.
Proof.
  unfold FileSize. destruct (inodes w !! i); simpl; [|done]. intros [= <-]. lia.
Qed.

End OSFacts.

Section OpenNewFacts.

Import OS Time Lumberjack.

Lemma get_filename_sys l w w' : sys w' = sys w -> get_filename l w' = get_filename l w.
Proof. unfold get_filename. by intros ->. Qed.

Lemma get_max_size_sys l w w' : sys w' = sys w -> get_max_size l w' = get_max_size l w.
Proof. unfold get_max_size. by intros ->. Qed.

Lemma OpenCreateTrunc_sys w name i w' :
  OpenCreateTrunc w name = Some (i, w') -> sys w' = sys w.
Proof. intros [[_ ->]|(p & _ & _ & ->)]%OpenCreateTrunc_inv; done. Qed.

Lemma Remove_sys w path w' : Remove w path = Some w' -> sys w' = sys w.
Proof. by intros ->%Remove_inv. Qed.

Lemma Symlink_sys w target link w' : Symlink w target link = Some w' -> sys w' = sys w.
Proof. by intros [_ ->]%Symlink_inv. Qed.

(** The steps of a call of [openNew] that returned no error. *)
Lemma openNew_ok_inv fuel l w l' w' :
  openNew fuel l w = Ret (None, l', w') ->
  exists name i w1 w2 sz,
    MkdirAll w (get_dir l w) = true
    /\ processName fuel l 0 w = Ret (name, tick w)
    /\ ((exists sz0, Stat (tick w) name = StatOk sz0
                     /\ OpenAppend (tick w) name = Some i /\ w1 = tick w)
        \/ ((forall sz0, Stat (tick w) name <> StatOk sz0)
            /\ OpenCreateTrunc (tick w) name = Some (i, w1)))
    /\ (if Lstat w1 (get_filename l w) then Remove w1 (get_filename l w) = Some w2
        else w2 = w1)
    /\ Symlink w2 name (get_filename l w) = Some w'
    /\ FileSize w' i = Some sz
    /\ l' = set_size sz (set_file (Some (opened i)) l).
Proof.
  unfold openNew. destruct (MkdirAll w (get_dir l w)) eqn:Emk; simpl; [|done].
  destruct (processName fuel l 0 w) as [[name w0]| |] eqn:Epn; simpl; try done.
  pose proof (processName_shape _ _ _ _ _ _ Epn) as [-> _].
  intros H. exists name.
  assert (exists i w1,
    ((exists sz0, Stat (tick w) name = StatOk sz0
                  /\ OpenAppend (tick w) name = Some i /\ w1 = tick w)
     \/ ((forall sz0, Stat (tick w) name <> StatOk sz0)
         /\ OpenCreateTrunc (tick w) name = Some (i, w1)))
    /\ sys w1 = sys w
    /\ match (if Lstat w1 (get_filename l w1)
              then Remove w1 (get_filename l w1) else Some w1) with
       | Some w2 =>
           match Symlink w2 name (get_filename l w2) with
           | Some w3 =>
               match FileSize w3 i with
               | Some sz => Ret (None, set_size sz (set_file (Some (opened i)) l), w3)
               | None => Panic
               end
           | None => Ret (Some ErrSymlink, l, w2)
           end
       | None => Ret (Some ErrUnlink, l, w1)
       end = Ret (None, l', w')) as (i & w1 & Hopen & Hsys & H1).
  { destruct (Stat (tick w) name) as [sz0| |] eqn:Est.
    - destruct (OpenAppend (tick w) name) as [i|] eqn:Eo; [|done].
      exists i, (tick w). split; [left; eauto | split; [done | exact H]].
    - destruct (OpenCreateTrunc (tick w) name) as [[i w1]|] eqn:Eo; [|done].
      exists i, w1. split; [right; split; done|].
      split; [by apply OpenCreateTrunc_sys in Eo | exact H].
    - destruct (OpenCreateTrunc (tick w) name) as [[i w1]|] eqn:Eo; [|done].
      exists i, w1. split; [right; split; done|].
      split; [by apply OpenCreateTrunc_sys in Eo | exact H]. }
  clear H. exists i, w1.
  rewrite (get_filename_sys l w w1 Hsys) in H1.
  destruct (Lstat w1 (get_filename l w)) eqn:El.
  - destruct (Remove w1 (get_filename l w)) as [w2|] eqn:Er; [|done].
    rewrite (get_filename_sys l w w2) in H1
      by (apply Remove_sys in Er; congruence).
    destruct (Symlink w2 name (get_filename l w)) as [w3|] eqn:Es; [|done].
    destruct (FileSize w3 i) as [sz|] eqn:Ef; [|done].
    injection H1 as <- <-. by exists w2, sz.
  - rewrite (get_filename_sys l w w1 Hsys) in H1.
    destruct (Symlink w1 name (get_filename l w)) as [w3|] eqn:Es; [|done].
    destruct (FileSize w3 i) as [sz|] eqn:Ef; [|done].
    injection H1 as <- <-. by exists w1, sz.
Qed.

(** After [openNew] the destination is a link to the name it opened, which
    is not the destination. *)
Lemma openNew_link fuel l w l' w' :
  openNew fuel l w = Ret (None, l', w') ->
  exists name,
    names w' !! get_filename l w = Some (Lnk name) /\ name <> get_filename l w.
Proof.
  intros (name & i & w1 & w2 & sz & _ & Hpn & _ & _ & Hs & _)%openNew_ok_inv.
  exists name. split; [|by eapply processName_fresh].
  apply Symlink_inv in Hs as [_ ->]. simpl. apply lookup_insert_eq.
Qed.

End OpenNewFacts.

Section WriteTooLong.

Import OS Time Lumberjack Fixtures.

(** C5.  A write longer than the maximum size returns count 0 and an
    error, and leaves the logger and the world as they were: no field of
    the logger changes, no file is opened, no entry or file is created. *)
Theorem Write_longer_than_max_size fuel (p : list byte) (l : Logger) (w : world) :
  Z.of_nat (length p) > get_max_size l w ->
  Write fuel p l w
  = Ret (0, Some (ErrWriteTooLong (Z.of_nat (length p)) (get_max_size l w)), l, w).
Proof.
  intros H. unfold Write.
  destruct (Z.gtb_spec (Z.of_nat (length p)) (get_max_size l w)); [done | lia].
Qed.

(** [TestWriteTooLong]: 17 bytes against a maximum of 5. *)
Lemma Write_longer_than_max_size_witness :
  let l := test_logger 5 in
  let w := test_world (test_env (fun _ => fakeCurrentTime) 1 no_faults) [] [] None in
  Write 0 (bytes "booooooooooooooo!") l w = Ret (0, Some (ErrWriteTooLong 17 5), l, w).
Proof.
  intros l w.
  apply (Write_longer_than_max_size 0 (bytes "booooooooooooooo!") l w).
  reflexivity.
Defined.

End WriteTooLong.

Section BackupNameFresh.

Import OS Time Lumberjack Fixtures.

(** C8.  Whatever the destination and the time, the name [processName]
    returns is not the destination: it is the destination's directory
    joined to its stem, a dash, the timestamp (and possibly an index) and
    its extension.  So when [openNew] has created the symbolic link, the
    destination is a link to another name than its own. *)
Theorem processName_never_destination fuel (l : Logger) (w : world) :
  (forall write_length name w',
     processName fuel l write_length w = Ret (name, w') ->
     name <> get_filename l w
     /\ exists ts,
          name = backup_name (get_dir l w) (stem_of (get_filename l w)) ts
                   (ext_of (get_filename l w))
          \/ exists n,
               name = indexed_name (get_dir l w) (stem_of (get_filename l w)) ts n
                        (ext_of (get_filename l w)))
  /\ (forall l' w',
        openNew fuel l w = Ret (None, l', w') ->
        exists name,
          names w' !! get_filename l w = Some (Lnk name)
          /\ name <> get_filename l w).
Proof.
  split.
  - intros wl name w' H. split; [by eapply processName_fresh|].
    apply processName_shape in H as (_ & ts & _ & [->|(n & _ & ->)]);
      exists ts; eauto.
  - apply openNew_link.
Qed.

(** The first [processName] and [openNew] of [TestNewFile]. *)
Lemma processName_never_destination_witness :
  let l := test_logger 0 in
  let w := test_world (test_env (fun _ => fakeCurrentTime) (1024 * 1024) no_faults)
             [] [] None in
  processName 300 l 4 w = Ret (backup_2030, tick w)
  /\ backup_2030 <> get_filename l w
  /\ exists l' w' name,
       openNew 300 l w = Ret (None, l', w')
       /\ names w' !! get_filename l w = Some (Lnk name) /\ name <> get_filename l w.
Proof.
  intros l w.
  assert (processName 300 l 4 w = Ret (backup_2030, tick w)) as Hp
    by (vm_compute; reflexivity).
  pose proof (processName_never_destination 300 l w) as [H1 H2].
  split; [exact Hp|].
  split; [exact (proj1 (H1 _ _ _ Hp))|].
  destruct (openNew 300 l w) as [[[[e|] l'] w']| |] eqn:E.
  1,3,4: exfalso; vm_compute in E; discriminate.
  exists l', w'. destruct (H2 l' w' eq_refl) as (name & ? & ?).
  exists name. split; [reflexivity|]. split; assumption.
Defined.

End BackupNameFresh.

Section SearchFacts.

Import OS Time Lumberjack Fixtures.

Lemma FileSize_below b w i sz : files_below b w -> FileSize w i = Some sz -> 0 <= sz < b.
Proof.
  unfold files_below, FileSize. intros Hb.
  destruct (inodes w !! i) as [c|] eqn:E; simpl; [|done]. intros [= <-].
  rewrite Forall_lookup in Hb. specialize (Hb _ _ E). simpl in Hb. lia.
Qed.

Lemma Stat_below b w name sz : files_below b w -> Stat w name = StatOk sz -> 0 <= sz < b.
Proof. intros Hb (i & _ & Hf)%Stat_ok_inv. by eapply FileSize_below. Qed.

Lemma Stat_nonneg w name sz : Stat w name = StatOk sz -> 0 <= sz.
Proof. intros (i & _ & Hf)%Stat_ok_inv. by eapply FileSize_nonneg. Qed.

(** The indexed search returns the first index, from [counter] on, whose
    name does not exist or has room. *)
Lemma search_name_first fuel w dir pre ts ext wl mx counter n :
  0 <= wl ->
  counter <= n -> (Z.to_nat (n - counter) < fuel)%nat ->
  (forall k, counter <= k < n ->
     exists sz, Stat w (indexed_name dir pre ts k ext) = StatOk sz
                /\ mx < sz + wl < 2 ^ 63) ->
  (Stat w (indexed_name dir pre ts n ext) = StatNotExist
   \/ exists sz, Stat w (indexed_name dir pre ts n ext) = StatOk sz /\ sz + wl <= mx) ->
  mx < 2 ^ 63 ->
  search_name fuel w dir pre ts ext wl mx counter = Ret (indexed_name dir pre ts n ext).
Proof.
  intros Hwl. revert counter.
  induction fuel as [|fuel IH]; intros counter Hcn Hfuel Hfull Hn Hmx; [lia|].
  simpl. destruct (decide (counter = n)) as [->|Hne].
  - destruct Hn as [Hs|(sz & Hs & Hsz)]; rewrite Hs; [done|].
    pose proof (Stat_nonneg _ _ _ Hs).
    rewrite add64_small by lia.
    destruct (Z.gtb_spec (sz + wl) mx); [lia | done].
  - destruct (Hfull counter ltac:(lia)) as (sz & Hs & Hsz). rewrite Hs.
    pose proof (Stat_nonneg _ _ _ Hs).
    rewrite add64_small by lia.
    destruct (Z.gtb_spec (sz + wl) mx); [|lia].
    apply IH; [lia | lia | | done | done].
    intros k Hk. apply Hfull. lia.
Qed.

(** The timestamp does not depend on the files. *)
Lemma timestamp_at_sys fuel l w w' t :
  sys w' = sys w -> timestamp_at fuel l w' t = timestamp_at fuel l w t.
Proof. unfold timestamp_at. by intros ->. Qed.

(** [processName] once the clock is read and the timestamp is [ts]. *)
Lemma processName_unfold fuel l write_length w ts :
  timestamp_at fuel l w (time_at w (ticks w)) = Ret ts ->
  processName fuel l write_length w
  = match Stat (tick w)
            (backup_name (get_dir l w) (stem_of (get_filename l w)) ts
               (ext_of (get_filename l w))) with
    | StatOk sz =>
        if add64 sz write_length >? get_max_size l w
        then name ← search_name fuel (tick w) (get_dir l w)
                      (stem_of (get_filename l w)) ts (ext_of (get_filename l w))
                      write_length (get_max_size l w) 2;
             Ret (name, tick w)
        else Ret (backup_name (get_dir l w) (stem_of (get_filename l w)) ts
                    (ext_of (get_filename l w)), tick w)
    | StatNotExist =>
        Ret (backup_name (get_dir l w) (stem_of (get_filename l w)) ts
               (ext_of (get_filename l w)), tick w)
    | StatErr => Panic
    end.
Proof.
  intros Hts. unfold processName, currentTime.
  change {| unixNano := unixNano (clock (sys w) (ticks w));
            zoneOffset := localOffset (sys w) |} with (time_at w (ticks w)).
  rewrite (timestamp_at_sys fuel l w (tick w)) by done. rewrite Hts. done.
Qed.


(** C4, as the code has it.  With [ts] the timestamp of the current time,
    [processName] returns the candidate name [<stem>-<ts><ext>] when no
    file of that name exists, and when one exists whose size plus the
    pending write length does not exceed the maximum size (the sum may
    meet it).  When the sum exceeds the maximum size, it returns
    [<stem>-<ts>_<n><ext>] for the first [n] from 2 on whose file does not
    exist or exists with a size that, with the pending length, does not
    exceed the maximum size.  (Sums are sums of 64-bit integers: those that
    exceed the maximum are taken below [2^63].) *)
Theorem processName_search fuel (l : Logger) (write_length : Z) (w : world) (ts : string) :
  let fn := get_filename l w in
  let candidate := backup_name (get_dir l w) (stem_of fn) ts (ext_of fn) in
  let indexed n := indexed_name (get_dir l w) (stem_of fn) ts n (ext_of fn) in
  let max_size := get_max_size l w in
  timestamp_at fuel l w (time_at w (ticks w)) = Ret ts ->
  0 <= write_length ->
  (Stat (tick w) candidate = StatNotExist ->
   processName fuel l write_length w = Ret (candidate, tick w))
  /\ (forall sz,
        Stat (tick w) candidate = StatOk sz -> sz + write_length <= max_size ->
        processName fuel l write_length w = Ret (candidate, tick w))
  /\ (forall sz n,
        Stat (tick w) candidate = StatOk sz ->
        max_size < sz + write_length < 2 ^ 63 ->
        2 <= n -> (Z.to_nat (n - 2) < fuel)%nat ->
        (forall k, 2 <= k < n ->
           exists szk, Stat (tick w) (indexed k) = StatOk szk
                       /\ max_size < szk + write_length < 2 ^ 63) ->
        (Stat (tick w) (indexed n) = StatNotExist
         \/ exists szn, Stat (tick w) (indexed n) = StatOk szn
                        /\ szn + write_length <= max_size) ->
        processName fuel l write_length w = Ret (indexed n, tick w)).
Proof.
  intros fn candidate indexed max_size Hts Hwl.
  pose proof (get_max_size_range l w) as Hmax. fold max_size in Hmax.
  rewrite (processName_unfold _ _ _ _ _ Hts).
  fold fn. fold candidate. fold max_size.
  split; [|split].
  - by intros ->.
  - intros sz Hs Hsz. rewrite Hs.
    pose proof (Stat_nonneg _ _ _ Hs).
    rewrite add64_small by lia.
    destruct (Z.gtb_spec (sz + write_length) max_size); [lia | done].
  - intros sz n Hs Hsz Hn Hfuel Hfull Hfirst. rewrite Hs.
    pose proof (Stat_nonneg _ _ _ Hs).
    rewrite add64_small by lia.
    destruct (Z.gtb_spec (sz + write_length) max_size); [|lia].
    rewrite (search_name_first fuel (tick w) _ _ _ _ _ _ 2 n); try done. lia.
Qed.

End SearchFacts.

#[local] Arguments OS.resolve : simpl never.
#[local] Arguments OS.maxSymlinks : simpl never.
#[local] Arguments Bufio.defaultBufSize : simpl never.

(** Reduce the binds of the outcome monad on results that are known. *)
Ltac mred := unfold mbind, outcome_bind; cbn beta iota.

Section FaultFree.

Import OS Time Lumberjack.

Lemma evolves_refl w : evolves w w.
Proof. repeat split. exists 0%nat. by rewrite app_nil_r. Qed.

Lemma evolves_trans w1 w2 w3 : evolves w1 w2 -> evolves w2 w3 -> evolves w1 w3.
Proof.
  intros (Hs1 & Hr1 & k1 & Hi1) (Hs2 & Hr2 & k2 & Hi2).
  repeat split; [congruence.. |]. exists (k1 + k2)%nat.
  by rewrite Hi2, Hi1, <-app_assoc, replicate_add.
Qed.

Lemma evolves_fault_free w w' : evolves w w' -> fault_free w -> fault_free w'.
Proof. intros (Hs & Hr & _) [Hf Hn]. split; congruence. Qed.

Lemma evolves_lookup w w' i c :
  evolves w w' -> inodes w !! i = Some c -> inodes w' !! i = Some c.
Proof. intros (_ & _ & k & ->) H. by apply lookup_app_l_Some. Qed.

Lemma evolves_FileSize w w' i sz :
  evolves w w' -> FileSize w i = Some sz -> FileSize w' i = Some sz.
Proof.
  unfold FileSize. intros Hev.
  destruct (inodes w !! i) as [c|] eqn:E; simpl; [|done].
  by rewrite (evolves_lookup _ _ _ _ Hev E).
Qed.

Lemma evolves_files_below b w w' :
  0 < b -> evolves w w' -> files_below b w -> files_below b w'.
Proof.
  intros Hb (_ & _ & k & Hi). unfold files_below. rewrite Hi.
  intros H. apply Forall_app. split; [done|].
  apply Forall_replicate. simpl. lia.
Qed.

Lemma evolves_tick w : evolves w (tick w).
Proof. repeat split. exists 0%nat. simpl. by rewrite app_nil_r. Qed.

Lemma evolves_names f w : evolves w (set_names f w).
Proof. repeat split. exists 0%nat. simpl. by rewrite app_nil_r. Qed.

Lemma evolves_count w : evolves w (count_rotation w).
Proof. repeat split. exists 0%nat. simpl. by rewrite app_nil_r. Qed.

Lemma Stat_fault_free w name :
  fault_free w ->
  Stat w name = match resolve maxSymlinks w name with
                | Found i => match FileSize w i with
                             | Some sz => StatOk sz
                             | None => StatNotExist
                             end
                | Missing _ => StatNotExist
                | Loop => StatErr
                end.
Proof. intros [Hf _]. unfold Stat. by rewrite Hf. Qed.

Lemma resolve_Found_size w name i :
  resolve maxSymlinks w name = Found i -> exists sz, FileSize w i = Some sz.
Proof.
  intros [c Hc]%resolve_Found_inode. unfold FileSize. rewrite Hc. simpl. eauto.
Qed.

Lemma OpenAppend_fault_free w name :
  fault_free w ->
  OpenAppend w name = match resolve maxSymlinks w name with
                      | Found i => Some i
                      | _ => None
                      end.
Proof. intros [Hf _]. unfold OpenAppend. by rewrite Hf. Qed.

Lemma OpenCreateTrunc_fault_free w name :
  fault_free w ->
  OpenCreateTrunc w name
  = match resolve maxSymlinks w name with
    | Found i => Some (i, set_inodes (fun d => <[i := []]> d) w)
    | Missing path =>
        Some (length (inodes w),
              set_inodes (fun d => d ++ [[]])
                (set_names (insert path (Reg (length (inodes w)))) w))
    | Loop => None
    end.
Proof. intros [Hf _]. unfold OpenCreateTrunc. by rewrite Hf. Qed.

Lemma Remove_fault_free w path :
  fault_free w ->
  Remove w path = match names w !! path with
                  | Some _ => Some (set_names (delete path) w)
                  | None => None
                  end.
Proof. intros [Hf _]. unfold Remove. by rewrite Hf. Qed.

Lemma Symlink_fault_free w target link :
  fault_free w ->
  Symlink w target link = match names w !! link with
                          | Some _ => None
                          | None => Some (set_names (insert link (Lnk target)) w)
                          end.
Proof. intros [Hf _]. unfold Symlink. by rewrite Hf. Qed.

Lemma MkdirAll_fault_free w dir : fault_free w -> MkdirAll w dir = true.
Proof. intros [Hf _]. unfold MkdirAll. by rewrite Hf. Qed.

Lemma FileClose_fault_free w f : fault_free w -> FileClose w f = false.
Proof. intros [Hf _]. unfold FileClose. by rewrite Hf. Qed.

(** Removing what is at the destination and linking it anew: the two steps
    of [openNew] never fail in a world without faults. *)
Lemma relink_fault_free w name dest :
  fault_free w ->
  exists w2,
    (if Lstat w dest then Remove w dest else Some w) = Some w2
    /\ sys w2 = sys w
    /\ Symlink w2 name dest = Some (set_names (insert dest (Lnk name)) w).
Proof.
  intros Hff. unfold Lstat. case_bool_decide as Hl.
  - destruct Hl as [d Hd].
    exists (set_names (delete dest) w).
    rewrite Remove_fault_free, Hd by done. split; [done|]. split; [done|].
    rewrite Symlink_fault_free by done. simpl.
    rewrite lookup_delete_eq. unfold set_names. simpl.
    by rewrite insert_delete_eq.
  - exists w. split; [done|]. split; [done|]. rewrite Symlink_fault_free by done.
    destruct (names w !! dest) eqn:E; [exfalso; apply Hl; eauto|]. done.
Qed.

(** [openNew] in a world without faults, from the name [processName] gives:
    an existing file is opened for appending, a missing one is created
    empty, and the destination becomes a link to the name; only a loop of
    links at the name makes it fail. *)
Lemma openNew_fault_free fuel l w name :
  fault_free w ->
  processName fuel l 0 w = Ret (name, tick w) ->
  openNew fuel l w
  = match resolve maxSymlinks (tick w) name with
    | Found i =>
        match FileSize w i with
        | Some sz =>
            Ret (None, set_size sz (set_file (Some (opened i)) l),
                 linked name (get_filename l w) (tick w))
        | None => Panic
        end
    | Missing path =>
        Ret (None, set_size 0 (set_file (Some (opened (length (inodes w)))) l),
             linked name (get_filename l w) (created path (tick w)))
    | Loop => Ret (Some ErrOpenNew, l, tick w)
    end.
Proof.
  intros Hff Hpn. unfold openNew.
  rewrite MkdirAll_fault_free by done. rewrite Hpn. mred.
  assert (fault_free (tick w)) as Hff1 by done.
  rewrite Stat_fault_free, OpenAppend_fault_free, OpenCreateTrunc_fault_free by done.
  destruct (resolve maxSymlinks (tick w) name) as [i|path|] eqn:Er; [| |done].
  - destruct (resolve_Found_size _ _ _ Er) as [sz Hsz]. rewrite Hsz.
    change (FileSize w i) with (FileSize (tick w) i). rewrite Hsz.
    cbn beta iota. change (get_filename l (tick w)) with (get_filename l w).
    destruct (relink_fault_free (tick w) name (get_filename l w) Hff1)
      as (w2 & -> & Hs2 & Hl).
    rewrite (get_filename_sys l w w2) by done. rewrite Hl.
    change (FileSize (set_names _ (tick w)) i) with (FileSize (tick w) i).
    by rewrite Hsz.
  - cbn beta iota. fold (created path (tick w)).
    change (get_filename l (created path (tick w))) with (get_filename l w).
    assert (fault_free (created path (tick w))) as Hff2 by done.
    destruct (relink_fault_free (created path (tick w)) name (get_filename l w) Hff2)
      as (w2 & -> & Hs2 & Hl).
    rewrite (get_filename_sys l w w2) by done. rewrite Hl.
    unfold FileSize, linked, created. simpl.
    rewrite lookup_app_r by done. rewrite Nat.sub_diag. done.
Qed.

End FaultFree.

Section OpenSpecs.

Import OS Time Lumberjack.

Lemma same_config_refl l : same_config l l.
Proof. done. Qed.

Lemma same_config_trans l1 l2 l3 : same_config l1 l2 -> same_config l2 l3 -> same_config l1 l3.
Proof. unfold same_config. intuition congruence. Qed.

Lemma get_max_size_config l l' w w' :
  same_config l l' -> sys w' = sys w -> get_max_size l' w' = get_max_size l w.
Proof. intros (_ & _ & Hm & _) Hs. unfold get_max_size. by rewrite Hm, Hs. Qed.

Lemma evolves_linked name dest w : evolves w (linked name dest w).
Proof. apply evolves_names. Qed.

Lemma evolves_created path w : evolves w (created path w).
Proof. repeat split. by exists 1%nat. Qed.

(** What a returning call of [openNew] leaves, in a world without faults. *)
Lemma openNew_spec fuel l w e l' w' :
  fault_free w -> openNew fuel l w = Ret (e, l', w') ->
  evolves w w' /\ same_config l l'
  /\ match e with
     | None => opened_with_size l' w'
     | Some _ => l' = l
     end.
Proof.
  intros Hff H.
  destruct (processName fuel l 0 w) as [[name w0]| |] eqn:Epn.
  2,3: unfold openNew in H; rewrite MkdirAll_fault_free, Epn in H by done; done.
  pose proof (processName_shape _ _ _ _ _ _ Epn) as [-> _].
  rewrite (openNew_fault_free _ _ _ _ Hff Epn) in H.
  destruct (resolve maxSymlinks (tick w) name) as [i|path|] eqn:Er.
  - destruct (FileSize w i) as [sz|] eqn:Es; [|done].
    injection H as <- <- <-. split; [|split; [done|]].
    + eapply evolves_trans; [apply evolves_tick | apply evolves_linked].
    + by exists i.
  - injection H as <- <- <-. split; [|split; [done|]].
    + eapply evolves_trans; [apply evolves_tick|].
      eapply evolves_trans; [apply evolves_created | apply evolves_linked].
    + exists (length (inodes w)). split; [done|].
      unfold FileSize, linked, created. simpl.
      rewrite lookup_app_r by done. by rewrite Nat.sub_diag.
  - injection H as <- <- <-. split; [apply evolves_tick | done].
Qed.

(** [close] in a world without faults. *)
Lemma close_fault_free l w :
  fault_free w -> close l w = (None, set_file None l, w).
Proof.
  intros Hff. unfold close. destruct (file l) eqn:E.
  - by rewrite FileClose_fault_free.
  - unfold set_file. rewrite <-E. by destruct l.
Qed.

Lemma rotate_spec fuel l w e l' w' :
  fault_free w -> rotate fuel l w = Ret (e, l', w') ->
  evolves w w' /\ same_config l l'
  /\ match e with
     | None => opened_with_size l' w'
     | Some _ => file l' = None
     end.
Proof.
  intros Hff. unfold rotate.
  rewrite close_fault_free by done. intros H.
  apply openNew_spec in H as (Hev & Hc & He); [|done].
  split; [eapply evolves_trans; [apply evolves_count | done]|].
  split; [done|]. destruct e; [by subst | done].
Qed.

Lemma openExistingOrNew_spec fuel writeLen l w e l' w' :
  fault_free w -> openExistingOrNew fuel writeLen l w = Ret (e, l', w') ->
  evolves w w' /\ same_config l l'
  /\ match e with
     | None => opened_with_size l' w'
     | Some _ => file l' = None \/ l' = l
     end.
Proof.
  intros Hff. unfold openExistingOrNew.
  destruct (processName fuel l writeLen w) as [[name w0]| |] eqn:Epn; try done.
  pose proof (processName_shape _ _ _ _ _ _ Epn) as [-> _]. mred.
  assert (fault_free (tick w)) as Hff1 by done.
  rewrite Stat_fault_free, OpenAppend_fault_free by done.
  destruct (resolve maxSymlinks (tick w) name) as [i|path|] eqn:Er.
  - destruct (resolve_Found_size _ _ _ Er) as [sz Hsz]. rewrite Hsz.
    destruct (add64 sz writeLen >=? get_max_size l (tick w)).
    + intros (Hev & Hc & He)%rotate_spec; [|done].
      split; [eapply evolves_trans; [apply evolves_tick | done]|].
      split; [done|]. destruct e; auto.
    + intros [= <- <- <-]. split; [apply evolves_tick|]. split; [done|].
      by exists i.
  - intros (Hev & Hc & He)%openNew_spec; [|done].
    split; [eapply evolves_trans; [apply evolves_tick | done]|].
    split; [done|]. destruct e; auto.
  - intros [= <- <- <-]. split; [apply evolves_tick|]. split; [done|]. by right.
Qed.

End OpenSpecs.

Section BufioFacts.

Import OS Bufio.

Lemma Available_NewWriter f : Available (NewWriter f) = defaultBufSize.
Proof. reflexivity. Qed.

Lemma Write_loop_nil fuel b nn w : Write_loop fuel b [] nn w = Ret (b, [], nn, w).
Proof. by destruct fuel. Qed.

(** A write of all of [p] on a device without limit. *)
Lemma FileWrite_all h p w c :
  room w = None -> inodes w !! ino h = Some c ->
  FileWrite (Some h) p w
  = (Z.of_nat (length p), None,
     Some {| ino := ino h; written := written h + Z.of_nat (length p) |},
     set_inodes (fun d => <[ino h := c ++ p]> d) w).
Proof.
  intros Hr Hc. unfold FileWrite. rewrite Hc, Hr. simpl.
  rewrite Nat.ltb_irrefl, firstn_all. unfold set_room, set_inodes. simpl.
  by rewrite Hr.
Qed.

Lemma appended_set_inodes h p w c :
  inodes w !! ino h = Some c ->
  appended (ino h) p w (set_inodes (fun d => <[ino h := c ++ p]> d) w).
Proof. intros Hc. repeat split. by exists c. Qed.

(** [bufio.Writer.Write] then [Flush] on a fresh writer, on a device
    without limit: all of [p] reaches the file, the count is [len(p)], no
    error is recorded. *)
Lemma bufio_write_flush h p w c :
  room w = None -> inodes w !! ino h = Some c ->
  exists b w1 b' w' h',
    Bufio.Write (NewWriter (Some h)) p w = Ret (Z.of_nat (length p), None, b, w1)
    /\ Flush b w1 = (None, b', w')
    /\ wr b' = Some h' /\ ino h' = ino h
    /\ written h' = written h + Z.of_nat (length p)
    /\ appended (ino h) p w w'.
Proof.
  intros Hr Hc. unfold Bufio.Write.
  change (Write_loop 4 (NewWriter (Some h)) p 0 w)
    with (if (Available (NewWriter (Some h)) <? length p)%nat
             && bool_decide (@None error = None)
          then let '(n, e, f, w') := FileWrite (Some h) p w in
               Write_loop 3 {| err := e; buf := []; wr := f |}
                          (drop (Z.to_nat n) p) (0 + n) w'
          else Ret (NewWriter (Some h), p, 0, w)).
  rewrite Available_NewWriter.
  destruct (Nat.ltb_spec defaultBufSize (length p)) as [Hbig|Hsmall].
  - (* a large write goes to the file directly *)
    rewrite bool_decide_eq_true_2 by done. cbn [andb].
    rewrite (FileWrite_all h p w c Hr Hc). cbn beta iota.
    rewrite Nat2Z.id, drop_all.
    rewrite Write_loop_nil. mred. cbn [err buf wr].
    eexists _, _, _, _, _. split; [f_equal; f_equal; f_equal; f_equal; simpl; lia|].
    unfold Flush. cbn [err buf wr length Nat.min Available take app].
    rewrite Nat.min_0_r. cbn [take app].
    split; [reflexivity|]. cbn [wr ino written].
    split; [reflexivity|]. split; [reflexivity|]. split; [reflexivity|].
    by apply appended_set_inodes.
  - (* a small write is buffered, and written by Flush *)
    cbn [andb]. mred. cbn [err buf wr NewWriter].
    rewrite Available_NewWriter, Nat.min_r by lia.
    rewrite firstn_all. cbn [app].
    destruct p as [|x p].
    + eexists _, _, _, _, h. split; [reflexivity|].
      split; [reflexivity|]. split; [reflexivity|]. split; [reflexivity|].
      split; [simpl; lia|].
      repeat split. exists c. split; [done|].
      by rewrite app_nil_r, list_insert_id.
    + eexists _, _, _, _, _. split; [reflexivity|].
      unfold Flush. cbn [err buf wr]. cbn beta iota.
      rewrite (FileWrite_all h (x :: p) w c Hr Hc). cbn beta iota.
      rewrite Z.ltb_irrefl.
      split; [reflexivity|]. cbn [wr ino written].
      split; [reflexivity|]. split; [reflexivity|].
      split; [reflexivity|]. by apply appended_set_inodes.
Qed.

End BufioFacts.

Section SizeCounter.

Import OS Time Lumberjack Fixtures.

Lemma Write_unfold fuel p l w :
  Write fuel p l w
  = if Z.of_nat (length p) >? get_max_size l w then
      Ret (0, Some (ErrWriteTooLong (Z.of_nat (length p)) (get_max_size l w)), l, w)
    else
      '(err, l, w) ← openExistingOrNew fuel (Z.of_nat (length p)) l w;
      match err with
      | Some e => Ret (0, Some e, l, w)
      | None =>
          '(err, l, w) ←
            (if add64 (size l) (Z.of_nat (length p)) >? get_max_size l w
             then rotate fuel l w else Ret (None, l, w));
          match err with
          | Some e => Ret (0, Some e, l, w)
          | None => write_through p l w
          end
      end.
Proof. reflexivity. Qed.

Lemma FileSize_inv w i sz :
  FileSize w i = Some sz -> exists c, inodes w !! i = Some c /\ sz = Z.of_nat (length c).
Proof.
  unfold FileSize. destruct (inodes w !! i) as [c|]; simpl; [|done].
  intros [= <-]. eauto.
Qed.

Lemma appended_FileSize i p w w' sz :
  appended i p w w' -> FileSize w i = Some sz ->
  FileSize w' i = Some (sz + Z.of_nat (length p)).
Proof.
  intros (_ & _ & _ & _ & _ & c & Hc & Hi) (c' & Hc' & ->)%FileSize_inv.
  assert (c' = c) as -> by congruence.
  unfold FileSize. rewrite Hi, list_lookup_insert_eq by by eapply lookup_lt_Some.
  simpl. rewrite length_app. f_equal. lia.
Qed.

(** The write itself, with the file [i] open: all of [p] is appended, the
    count is [len(p)], the counter grows by it. *)
Lemma write_through_spec p l w i :
  room w = None -> file l = Some (opened i) -> FileSize w i = Some (size l) ->
  size l + Z.of_nat (length p) < 2 ^ 63 ->
  exists l' w' h,
    write_through p l w = Ret (Z.of_nat (length p), None, l', w')
    /\ same_config l l'
    /\ file l' = Some h /\ ino h = i /\ written h = Z.of_nat (length p)
    /\ size l' = size l + Z.of_nat (length p)
    /\ appended i p w w'.
Proof.
  intros Hr Hf Hs Hov.
  destruct (FileSize_inv _ _ _ Hs) as (c & Hc & Hsz).
  destruct (bufio_write_flush (opened i) p w c Hr Hc)
    as (b & w1 & b' & w' & h' & Hw & Hfl & Hwr & Hino & Hwritten & Happ).
  unfold write_through. rewrite Hf, Hw. mred. rewrite Hfl.
  eexists _, _, h'. split; [reflexivity|].
  split; [done|]. split; [by rewrite <-Hwr|].
  split; [done|]. split; [by rewrite Hwritten|].
  split; [|done]. cbn [size set_file set_size].
  apply add64_small. lia.
Qed.

Lemma opened_with_size_tracks l w : opened_with_size l w -> size_tracks_file l w.
Proof. intros (i & Hf & Hs). unfold size_tracks_file. by rewrite Hf. Qed.

Lemma size_tracks_evolves l w w' :
  evolves w w' -> size_tracks_file l w -> size_tracks_file l w'.
Proof.
  unfold size_tracks_file. intros Hev. destruct (file l); [|done].
  by apply evolves_FileSize.
Qed.

Lemma size_tracks_closed l w : file l = None -> size_tracks_file l w.
Proof. unfold size_tracks_file. by intros ->. Qed.

Lemma appended_fault_free i p w w' : appended i p w w' -> fault_free w -> fault_free w'.
Proof. intros (_ & Hr & _ & _ & Hs & _) [Hf Hn]. split; congruence. Qed.

(** What a returning call of [Write] leaves, in a world without faults. *)
Lemma Write_spec fuel p l w n err l' w' :
  fault_free w -> files_below (2 ^ 63 - Z.of_nat (length p)) w ->
  size_tracks_file l w ->
  Write fuel p l w = Ret (n, err, l', w') ->
  fault_free w' /\ same_config l l' /\ size_tracks_file l' w'
  /\ (err = None ->
      n = Z.of_nat (length p)
      /\ exists f, file l' = Some f /\ written f = Z.of_nat (length p)
                   /\ FileSize w' (ino f) = Some (size l')).
Proof.
  intros Hff Hb Ht. rewrite Write_unfold.
  destruct (Z.gtb_spec (Z.of_nat (length p)) (get_max_size l w)) as [|Hle].
  { intros [= <- <- <- <-]. done. }
  pose proof (get_max_size_range l w) as Hmax.
  destruct (openExistingOrNew fuel _ l w) as [[[e1 l1] w1]| |] eqn:E1; try done.
  apply openExistingOrNew_spec in E1 as (Hev1 & Hc1 & He1); [|done]. mred.
  destruct e1 as [e1|].
  { intros [= <- <- <- <-]. split; [by eapply evolves_fault_free|].
    split; [done|]. split; [|done].
    destruct He1 as [?| ->]; [by apply size_tracks_closed|].
    by eapply size_tracks_evolves. }
  intros H0.
  assert (exists e2 l2 w2,
    (if add64 (size l1) (Z.of_nat (length p)) >? get_max_size l1 w1
     then rotate fuel l1 w1 else Ret (None, l1, w1)) = Ret (e2, l2, w2)
    /\ evolves w w2 /\ same_config l l2
    /\ match e2 with
       | None => opened_with_size l2 w2
       | Some _ => file l2 = None
       end
    /\ (match e2 with
        | Some e => Ret (0, Some e, l2, w2)
        | None => write_through p l2 w2
        end = Ret (n, err, l', w'))) as (e2 & l2 & w2 & _ & Hev2 & Hc2 & He2 & H);
    [|clear He1 Hev1 Hc1].
  { destruct (add64 (size l1) _ >? get_max_size l1 w1).
    - destruct (rotate fuel l1 w1) as [[[e2 l2] w2]| |] eqn:E2; try done.
      apply rotate_spec in E2 as (Hev2 & Hc2 & He2);
        [|by eapply evolves_fault_free].
      exists e2, l2, w2.
      split; [done|]. split; [by eapply evolves_trans|].
      split; [by eapply same_config_trans|]. done.
    - by exists None, l1, w1. }
  clear H0.
  destruct e2 as [e2|].
  { injection H as <- <- <- <-. split; [by eapply evolves_fault_free|].
    split; [done|]. split; [by apply size_tracks_closed | done]. }
  destruct He2 as (i & Hfile & Hsz).
  assert (fault_free w2) as Hff2 by by eapply evolves_fault_free.
  assert (files_below (2 ^ 63 - Z.of_nat (length p)) w2) as Hb2.
  { eapply evolves_files_below; [lia | done | done]. }
  pose proof (FileSize_below _ _ _ _ Hb2 Hsz).
  destruct (write_through_spec p l2 w2 i) as (l3 & w3 & h & Hw & Hc3 & Hf3 & Hi3 & Hwr3 & Hs3 & Happ);
    [by destruct Hff2 | done | done | lia |].
  rewrite Hw in H. injection H as <- <- <- <-.
  pose proof (appended_FileSize _ _ _ _ _ Happ Hsz) as Hsz3. rewrite <-Hs3 in Hsz3.
  split; [by eapply appended_fault_free|].
  split; [by eapply same_config_trans|].
  split.
  - unfold size_tracks_file. by rewrite Hf3, Hi3.
  - intros _. split; [done|]. exists h. by rewrite Hi3.
Qed.

End SizeCounter.

Section OneBucket.

Import OS Time Lumberjack Fixtures.




End OneBucket.

Section WriteSequences.

Import OS Time Lumberjack Fixtures.




End WriteSequences.

Section MoreNameFacts.

Import OS Time Lumberjack Fixtures.

Lemma backup_ne_indexed fn ts n :
  Filepath.has_sep ts = false ->
  backup_name (Filepath.Dir fn) (stem_of fn) ts (ext_of fn)
  <> indexed_name (Filepath.Dir fn) (stem_of fn) ts n (ext_of fn).
Proof.
  intros Hts E. unfold backup_name, indexed_name in E.
  replace (stem_of fn +:+ "-" +:+ ts +:+ "_" +:+ pretty n +:+ ext_of fn)
    with (stem_of fn +:+ "-" +:+ (ts +:+ "_" +:+ pretty n) +:+ ext_of fn) in E
    by (by rewrite !app_assoc_s).
  apply tagged_name_length in E; [|done|].
  - rewrite !length_app_s in E. simpl in E. lia.
  - by rewrite !has_sep_app, Hts, has_sep_pretty_Z.
Qed.

End MoreNameFacts.

Section Evaluations.

Import OS Time Lumberjack Fixtures.

(** C2, on a directory that holds the backup file of the current window
    and nothing at the destination: [Write] appends to the backup file and
    returns without error, and the destination still does not exist.  The
    logger gets into that state by itself: a [Write] whose [openNew] has
    created the backup file and then fails at [os.Symlink] leaves the file
    without a link, and the next [Write], which succeeds, only appends. *)
Lemma Write_appends_without_link :
  (exists l' w',
     Write 300 (bytes "boo!") (test_logger 0) dir_without_link = Ret (4, None, l', w')
     /\ file l' = Some {| ino := 0; written := 4 |}
     /\ read_file w' backup_2030 = Some (bytes "old!boo!")
     /\ names w' !! get_filename (test_logger 0) dir_without_link = None)
  /\ (exists l1 w1 l2 w2,
       Write 300 (bytes "foo!") (test_logger 0) dir_symlink_fails
       = Ret (0, Some ErrSymlink, l1, w1)
       /\ Write 300 (bytes "boo!") l1 (repaired w1) = Ret (4, None, l2, w2)
       /\ read_file w2 backup_2030 = Some (bytes "boo!")
       /\ names w2 !! get_filename l1 (repaired w1) = None).
Proof.
  split.
  - eexists _, _. split; [vm_compute; reflexivity|]. vm_compute. done.
  - eexists _, _, _, _. split; [vm_compute; reflexivity|].
    split; [vm_compute; reflexivity|]. vm_compute. done.
Qed.

(** C3, at a boundary of the windows: at 20:30:00.000000000 the
    timestamp is still that of the window that began at 20:25:00, while the
    time itself formats as 20:30:00; one nanosecond later the timestamp is
    that of 20:30:00. *)
Lemma timestamp_at_window_boundary :
  timestamp_at 300 (test_logger 0) empty_dir at_2030 = Ret "20091117_202500"
  /\ Format at_2030 = "20091117_203000"
  /\ timestamp_at 300 (test_logger 0) empty_dir after_2030 = Ret "20091117_203000".
Proof. vm_compute. done. Qed.

(** C7, on a device that accepts no byte: the four bytes are buffered, the
    flush fails and its error is dropped; [Write] returns 4 and no error,
    the size counter is 4, and the file is empty.  A write larger than the
    buffer goes to the file directly, and its error is returned. *)
Lemma Write_drops_flush_error :
  (exists l' w',
     Write 300 (bytes "boo!") (test_logger 0) full_device = Ret (4, None, l', w')
     /\ size l' = 4
     /\ read_file w' (get_filename (test_logger 0) full_device) = Some [])
  /\ (exists l' w',
       Write 300 (replicate 5000 Byte.x00) (test_logger 0) full_device
       = Ret (0, Some ErrShortWrite, l', w')).
Proof.
  split.
  - eexists _, _. split; [vm_compute; reflexivity|]. vm_compute. done.
  - eexists _, _. vm_compute. reflexivity.
Qed.

End Evaluations.

Section SizeCounterClaim.

Import OS Time Lumberjack Fixtures.

(** C6, as the code has it.  In a world without I/O faults the size
    counter of a logger that holds a handle is the size of the file the
    handle is on: [Write], [Rotate] and [Close] keep it so.  After a
    [Write] without error the handle has seen the [len(p)] bytes of that
    call, and the counter is the size of the whole file (what the file
    held when it was opened, and those bytes); after a [Rotate] without
    error the handle has seen no byte and the counter is the size the
    opened file has on disk. *)
Theorem size_counter_is_file_size :
  (forall fuel (p : list byte) l w n err l' w',
     fault_free w ->
     files_below (2 ^ 63 - Z.of_nat (length p)) w ->
     size_tracks_file l w ->
     Write fuel p l w = Ret (n, err, l', w') ->
     size_tracks_file l' w'
     /\ (err = None ->
         exists f, file l' = Some f /\ written f = Z.of_nat (length p)
                   /\ FileSize w' (ino f) = Some (size l')))
  /\ (forall fuel l w err l' w',
        fault_free w ->
        Rotate fuel l w = Ret (err, l', w') ->
        size_tracks_file l' w'
        /\ (err = None ->
            exists f, file l' = Some f /\ written f = 0
                      /\ FileSize w' (ino f) = Some (size l')))
  /\ (forall l w err l' w',
        Close l w = (err, l', w') -> file l' = None /\ size_tracks_file l' w').
Proof.
  split; [|split].
  - intros fuel p l w n err l' w' Hff Hb Ht H.
    apply Write_spec in H as (_ & _ & Ht' & He); [|done..].
    split; [done|]. intros Hn. by destruct (He Hn).
  - intros fuel l w err l' w' Hff H.
    apply rotate_spec in H as (_ & _ & He); [|done].
    destruct err as [e|].
    + split; [by apply size_tracks_closed | done].
    + split; [by apply opened_with_size_tracks|].
      intros _. destruct He as (i & Hf & Hs). by exists (opened i).
  - intros l w err l' w'. unfold Close, close.
    destruct (file l) eqn:E; intros [= <- <- <-].
    + split; [done | by apply size_tracks_closed].
    + split; [done | by apply size_tracks_closed].
Qed.

(** The second [Write] of [TestOpenExisting]: the counter is 8, the size of
    the file, after 4 bytes through the handle. *)
Lemma size_counter_is_file_size_witness :
  exists l' w' f,
    Write 300 (bytes "boo!") (test_logger 0) dir_with_backup = Ret (4, None, l', w')
    /\ size_tracks_file l' w'
    /\ file l' = Some f /\ written f = 4 /\ FileSize w' (ino f) = Some (size l')
    /\ size l' = 8.
Proof.
  destruct (Write 300 (bytes "boo!") (test_logger 0) dir_with_backup)
    as [[[[n e] l'] w']| |] eqn:E.
  2,3: vm_compute in E; discriminate E.
  assert (n = 4 /\ e = None /\ size l' = 8) as (-> & -> & Hs).
  { vm_compute in E. injection E as <- <- <- <-. done. }
  assert (fault_free dir_with_backup) as Hff by (split; reflexivity).
  assert (files_below (2 ^ 63 - Z.of_nat (length (bytes "boo!"))) dir_with_backup) as Hb.
  { unfold files_below, dir_with_backup, test_world. cbn [inodes].
    constructor; [vm_compute; reflexivity | constructor]. }
  destruct (proj1 size_counter_is_file_size 300%nat (bytes "boo!") (test_logger 0)
              dir_with_backup 4 None l' w' Hff Hb I E) as (Ht & Hf).
  destruct (Hf eq_refl) as (f & Hfile & Hw & Hsz).
  exists l', w', f. repeat split; assumption.
Defined.

(** C6 as stated fails on the same call: the counter shows 8 bytes when 4
    were written to the handle. *)
Lemma size_counter_counterexample :
  exists l' w',
    Write 300 (bytes "boo!") (test_logger 0) dir_with_backup = Ret (4, None, l', w')
    /\ ~ counts_bytes_written l'.
Proof.
  eexists _, _. split; [vm_compute; reflexivity|].
  intros H. specialize (H _ eq_refl). vm_compute in H. discriminate H.
Qed.

End SizeCounterClaim.

Section WriteSequenceClaim.

Import OS Time Lumberjack Fixtures.



End WriteSequenceClaim.

Section SearchClaim.

Import OS Time Lumberjack Fixtures.

(** C4 as stated fails when the sum meets the maximum exactly: with 6
    bytes in the candidate, 4 pending and a maximum of 10, [processName]
    returns the candidate, and searches no indexed name. *)
Lemma processName_meets_max_counterexample :
  processName 300 (test_logger 10) 4 dir_six_bytes = Ret (backup_2030, tick dir_six_bytes)
  /\ Stat (tick dir_six_bytes) backup_2030 = StatOk 6
  /\ 6 + 4 >= get_max_size (test_logger 10) dir_six_bytes
  /\ ~ searches_when_size_meets_max 300 (test_logger 10) 4 dir_six_bytes.
Proof.
  assert (processName 300 (test_logger 10) 4 dir_six_bytes
          = Ret (backup_2030, tick dir_six_bytes)) as Hp by (vm_compute; reflexivity).
  split; [exact Hp|]. split; [vm_compute; reflexivity|].
  split; [vm_compute; discriminate|].
  intros H.
  destruct (H "20091117_203000" 6) as (n & _ & Hn & _).
  - vm_compute. reflexivity.
  - vm_compute. reflexivity.
  - vm_compute. discriminate.
  - apply (f_equal returned_name) in Hn. rewrite Hp in Hn.
    unfold returned_name in Hn. cbv beta iota in Hn.
    apply (backup_ne_indexed (get_filename (test_logger 10) dir_six_bytes)
             "20091117_203000" n); [reflexivity|].
    etrans; [|exact Hn]. vm_compute. reflexivity.
Qed.

(** A candidate of 8 bytes and an index 2 of 9 bytes, 4 bytes pending, a
    maximum of 10: the name with index 3 is returned. *)
Lemma processName_search_witness :
  processName 300 (test_logger 10) 4 dir_two_full = Ret (backup_2030_3, tick dir_two_full).
Proof.
  pose proof (processName_search 300 (test_logger 10) 4 dir_two_full "20091117_203000")
    as H.
  cbv zeta in H.
  destruct H as (_ & _ & H).
  - vm_compute. reflexivity.
  - lia.
  - apply (H 8 3).
    + vm_compute. reflexivity.
    + vm_compute. split; reflexivity.
    + lia.
    + vm_compute. lia.
    + intros k Hk. assert (k = 2) as -> by lia. exists 9.
      split; [vm_compute; reflexivity | vm_compute; split; reflexivity].
    + left. vm_compute. reflexivity.
Defined.

End SearchClaim.

Section RotationWindow.

Import OS Time Lumberjack Fixtures.

(** The rotation time is positive whatever the configuration: the branch
    of [processName] for a rotation time of zero is never taken. *)
Lemma get_rotation_time_positive l : 0 < get_rotation_time l.
Proof.
  unfold get_rotation_time, defaultRotationTime.
  destruct (Z.leb_spec (RotationTime l) 0); lia.
Qed.

Lemma Add_Add r a b : Add (Add r a) b = Add r (a + b).
Proof. unfold Add. simpl. f_equal. lia. Qed.

(** The loop of [processName] for a positive duration [d]: from [base]
    before [t] it stops at the boundary [base + k*d] with
    [base + k*d < t <= base + (k+1)*d]: the last boundary strictly before
    [t], so that a time that is itself a boundary is put in the window
    before it. *)
Theorem rotation_loop_window fuel (base : Time) (d : Z) (t : Time) :
  0 < d ->
  unixNano base < unixNano t ->
  (Z.to_nat ((unixNano t - unixNano base) / d) < fuel)%nat ->
  exists k,
    0 <= k
    /\ rotation_loop fuel base d t = Ret (Add base (k * d))
    /\ unixNano base + k * d < unixNano t <= unixNano base + (k + 1) * d.
Proof.
  intros Hd. revert base.
  induction fuel as [|fuel IH]; intros base Hlt Hfuel; [lia|].
  simpl. unfold Before. simpl.
  destruct (Z.ltb_spec (unixNano base + d) (unixNano t)) as [Hnext|Hstop].
  - assert ((unixNano t - unixNano (Add base d)) / d
            = (unixNano t - unixNano base) / d - 1) as Hdiv.
    { simpl. replace (unixNano t - (unixNano base + d))
        with ((unixNano t - unixNano base) + (-1) * d) by lia.
      rewrite Z.div_add by lia. lia. }
    assert (1 <= (unixNano t - unixNano base) / d).
    { apply Z.div_le_lower_bound; lia. }
    destruct (IH (Add base d)) as (k & Hk & Hloop & Hwin).
    + simpl. lia.
    + rewrite Hdiv. lia.
    + exists (k + 1). split; [lia|]. split.
      * rewrite Hloop, Add_Add. do 2 f_equal. lia.
      * simpl in Hwin. lia.
  - exists 0. split; [lia|]. split.
    + unfold Add. destruct base. simpl. do 2 f_equal. lia.
    + lia.
Qed.

Lemma rotation_loop_window_witness :
  exists k,
    0 <= k
    /\ rotation_loop 300 (Date 2009 11 17 0 0 0 0 0) (5 * Minute) at_2030
       = Ret (Add (Date 2009 11 17 0 0 0 0 0) (k * (5 * Minute)))
    /\ unixNano (Date 2009 11 17 0 0 0 0 0) + k * (5 * Minute)
       < unixNano at_2030
       <= unixNano (Date 2009 11 17 0 0 0 0 0) + (k + 1) * (5 * Minute).
Proof.
  apply (rotation_loop_window 300 (Date 2009 11 17 0 0 0 0 0) (5 * Minute) at_2030).
  - reflexivity.
  - reflexivity.
  - vm_compute. lia.
Defined.

End RotationWindow.

Section RotateLink.

Import OS Time Lumberjack Fixtures.

Lemma resolve_not_link fuel w path :
  (forall target, names w !! path <> Some (Lnk target)) ->
  resolve fuel w path
  = match names w !! path with
    | Some (Reg i) => match inodes w !! i with
                      | Some _ => Found i
                      | None => Missing path
                      end
    | _ => Missing path
    end.
Proof.
  intros H. destruct fuel; unfold resolve; fold resolve;
    destruct (names w !! path) as [[i|t]|] eqn:E; try done; by destruct (H t).
Qed.

(** After a [Rotate] without error, for a destination that is an
    absolute, clean path name (other than the root), in a world without
    faults whose only symbolic link (if any) is the destination itself: the
    destination is a symbolic link, it resolves to the file the logger
    holds open, and the size counter is the size of that file.  (The
    target of the link is the name [processName] made: for a relative
    destination with a directory part it would be taken from the directory
    of the link, and dangle.) *)
Theorem Rotate_links_destination fuel (l : Logger) (w : world) l' w' :
  absolute_clean (get_filename l w) ->
  fault_free w ->
  (forall name target, names w !! name = Some (Lnk target) -> name = get_filename l w) ->
  Rotate fuel l w = Ret (None, l', w') ->
  exists name i,
    names w' !! get_filename l w = Some (Lnk name)
    /\ file l' = Some (opened i)
    /\ resolve maxSymlinks w' (get_filename l w) = Found i
    /\ FileSize w' i = Some (size l').
Proof.
  intros _ Hff Hlinks. unfold Rotate, rotate.
  rewrite close_fault_free by done.
  set (l0 := set_file None l). set (w0 := count_rotation w).
  assert (fault_free w0) as Hff0 by done.
  destruct (processName fuel l0 0 w0) as [[name w1]| |] eqn:Epn.
  2,3: unfold openNew; rewrite MkdirAll_fault_free, Epn by done; done.
  pose proof (processName_shape _ _ _ _ _ _ Epn) as [-> _].
  pose proof (processName_fresh _ _ _ _ _ _ Epn) as Hne.
  change (get_filename l0 w0) with (get_filename l w) in Hne.
  rewrite (openNew_fault_free _ _ _ _ Hff0 Epn).
  change (get_filename l0 w0) with (get_filename l w).
  assert (forall target, names (tick w0) !! name <> Some (Lnk target)) as Hreg.
  { intros target E. apply Hne. by eapply Hlinks. }
  rewrite (resolve_not_link _ _ _ Hreg).
  destruct (names (tick w0) !! name) as [[i|t]|] eqn:En; [| by destruct (Hreg t) |].
  - destruct (inodes (tick w0) !! i) as [c|] eqn:Ei.
    + change (FileSize w0 i) with (FileSize (tick w0) i).
      unfold FileSize at 1. rewrite Ei. simpl.
      intros [= <- <-]. exists name, i.
      unfold linked. simpl. rewrite lookup_insert_eq.
      split; [done|]. split; [done|]. split.
      * change maxSymlinks with (S 39).
        erewrite resolve_Lnk by (simpl; apply lookup_insert_eq).
        eapply resolve_Reg; [|exact Ei]. simpl.
        rewrite lookup_insert_ne by done. exact En.
      * unfold FileSize. simpl. simpl in Ei. by rewrite Ei.
    + intros [= <- <-]. exists name, (length (inodes w)).
      unfold linked, created. simpl. rewrite lookup_insert_eq.
      split; [done|]. split; [done|]. split.
      * change maxSymlinks with (S 39).
        erewrite resolve_Lnk by (simpl; apply lookup_insert_eq).
        eapply (resolve_Reg _ _ _ _ []); simpl.
        -- rewrite lookup_insert_ne by done. apply lookup_insert_eq.
        -- rewrite lookup_app_r by done. by rewrite Nat.sub_diag.
      * unfold FileSize. simpl. rewrite lookup_app_r by done.
        by rewrite Nat.sub_diag.
  - intros [= <- <-]. exists name, (length (inodes w)).
    unfold linked, created. simpl. rewrite lookup_insert_eq.
    split; [done|]. split; [done|]. split.
    + change maxSymlinks with (S 39).
      erewrite resolve_Lnk by (simpl; apply lookup_insert_eq).
      eapply (resolve_Reg _ _ _ _ []); simpl.
      * rewrite lookup_insert_ne by done. apply lookup_insert_eq.
      * rewrite lookup_app_r by done. by rewrite Nat.sub_diag.
    + unfold FileSize. simpl. rewrite lookup_app_r by done.
      by rewrite Nat.sub_diag.
Qed.

(** [TestRotate], first rotation, in an empty directory. *)
Lemma Rotate_links_destination_witness :
  exists l' w' name i,
    Rotate 300 (test_logger 0) empty_dir = Ret (None, l', w')
    /\ names w' !! get_filename (test_logger 0) empty_dir = Some (Lnk name)
    /\ file l' = Some (opened i)
    /\ resolve maxSymlinks w' (get_filename (test_logger 0) empty_dir) = Found i
    /\ FileSize w' i = Some (size l').
Proof.
  destruct (Rotate 300 (test_logger 0) empty_dir) as [[[e l'] w']| |] eqn:E.
  2,3: vm_compute in E; discriminate E.
  assert (e = None) as ->.
  { vm_compute in E. injection E as <- _ _. reflexivity. }
  destruct (Rotate_links_destination 300%nat (test_logger 0) empty_dir l' w')
    as (name & i & H).
  - split; [by eexists | split; [vm_compute; reflexivity | discriminate]].
  - split; reflexivity.
  - intros name target H.
    change (names empty_dir) with (∅ : gmap string dirent) in H.
    rewrite lookup_empty in H. discriminate H.
  - exact E.
  - exists l', w', name, i. split; [reflexivity | exact H].
Defined.

(** [Close] is idempotent: after a [Close], whatever it returned, the
    logger holds no file, and a second [Close] returns no error and
    changes nothing. *)
Theorem Close_idempotent (l : Logger) (w : world) :
  let '(_, l', w') := Close l w in
  file l' = None /\ Close l' w' = (None, l', w').
Proof.
  unfold Close, close. destruct (file l) eqn:E; simpl; [done|]. by rewrite E.
Qed.

End RotateLink.

Section SearchTerminates.

Import OS Time Lumberjack Fixtures.

Lemma app_inv_tail_s (a b s : string) : a +:+ s = b +:+ s -> a = b.
Proof.
  revert b. induction a as [|c a IH]; intros [|d b] H; try done.
  - apply (f_equal String.length) in H.
    rewrite app_nil_l_s, app_cons_s in H. simpl in H. rewrite length_app_s in H. lia.
  - apply (f_equal String.length) in H.
    rewrite app_nil_l_s, app_cons_s in H. simpl in H. rewrite length_app_s in H. lia.
  - rewrite !app_cons_s in H. injection H as -> H. f_equal. by apply IH.
Qed.

(** Different indices give different names. *)
Lemma indexed_name_inj fn ts n m :
  Filepath.has_sep ts = false ->
  indexed_name (Filepath.Dir fn) (stem_of fn) ts n (ext_of fn)
  = indexed_name (Filepath.Dir fn) (stem_of fn) ts m (ext_of fn) ->
  n = m.
Proof.
  intros Hts E. unfold indexed_name in E.
  assert (forall k : Z, stem_of fn +:+ "-" +:+ ts +:+ "_" +:+ pretty k +:+ ext_of fn
                    = stem_of fn +:+ "-" +:+ (ts +:+ "_" +:+ pretty k) +:+ ext_of fn) as Hk
    by (intros k; by rewrite !app_assoc_s).
  rewrite !Hk in E.
  assert (forall k : Z, Filepath.has_sep (ts +:+ "_" +:+ pretty k) = false) as Hs
    by (intros k; by rewrite !has_sep_app, Hts, has_sep_pretty_Z).
  apply (f_equal Filepath.last_elem) in E.
  rewrite !tagged_last_elem in E by done.
  do 2 apply (inj (String.app _)) in E. rewrite !app_assoc_s in E.
  do 2 apply (inj (String.app _)) in E.
  apply app_inv_tail_s in E. by apply (inj pretty).
Qed.

(** Among more consecutive indices than the directory has entries, one
    names no entry. *)
Lemma free_index (w : world) (f : Z -> string) (c : Z) :
  (forall n m, f n = f m -> n = m) ->
  exists n, c <= n <= c + Z.of_nat (entries w) /\ names w !! f n = None.
Proof.
  intros Hinj.
  unfold entries. set (N := base.size (names w)).
  set (ks := (fun i : nat => f (c + Z.of_nat i)) <$> seq 0 (S N)).
  destruct (decide (Forall (fun k => is_Some (names w !! k)) ks)) as [Hall|Hex].
  - exfalso.
    assert (NoDup ks) as Hnd.
    { apply NoDup_fmap_2; [|apply NoDup_seq]. intros i j Hij. apply Hinj in Hij. lia. }
    assert (ks ⊆+ (map_to_list (names w)).*1) as Hsub.
    { apply NoDup_submseteq; [done|]. intros k Hk.
      rewrite Forall_forall in Hall. destruct (Hall k Hk) as [d Hd].
      apply list_elem_of_fmap. exists (k, d). split; [done|].
      by apply elem_of_map_to_list. }
    apply submseteq_length in Hsub. unfold ks in Hsub.
    rewrite !length_fmap, length_seq, length_map_to_list in Hsub.
    fold N in Hsub. lia.
  - apply not_Forall_Exists in Hex; [|apply _].
    apply Exists_exists in Hex as (k & Hk & Hnone).
    apply list_elem_of_fmap in Hk as (i & -> & Hi).
    apply elem_of_seq in Hi.
    exists (c + Z.of_nat i). split; [fold N; lia|].
    by apply eq_None_not_Some.
Qed.

(** The search of [processName] terminates in every world: with enough
    fuel (one more than the directory has entries) it returns a name or
    panics on a failed [os_Stat], and never runs on. *)
Theorem search_name_terminates (l : Logger) (w : world) (ts : string)
    (write_length : Z) (fuel : nat) :
  Filepath.has_sep ts = false ->
  (entries w < fuel)%nat ->
  search_name fuel w (get_dir l w) (stem_of (get_filename l w)) ts
    (ext_of (get_filename l w)) write_length (get_max_size l w) 2
  <> Timeout.
Proof.
  intros Hts Hfuel.
  destruct (free_index w
              (fun n => indexed_name (get_dir l w) (stem_of (get_filename l w)) ts n
                          (ext_of (get_filename l w))) 2)
    as (n & Hn & Hfree).
  { intros a b. by apply indexed_name_inj. }
  assert (forall fuel counter,
            counter <= n -> (Z.to_nat (n - counter) < fuel)%nat ->
            search_name fuel w (get_dir l w) (stem_of (get_filename l w)) ts
              (ext_of (get_filename l w)) write_length (get_max_size l w) counter
            <> Timeout) as H.
  { clear Hfuel fuel. induction fuel as [|fuel IH]; intros counter Hc Hf; [lia|].
    simpl. destruct (decide (counter = n)) as [->|Hne].
    - unfold Stat. destruct (fail_stat _ _); [done|].
      rewrite resolve_None by done. done.
    - destruct (Stat w _) as [sz| |]; try done.
      destruct (add64 sz write_length >? get_max_size l w); [|done].
      apply IH; lia. }
  apply H; lia.
Qed.

Lemma search_name_terminates_witness :
  search_name 300 dir_two_full (get_dir (test_logger 10) dir_two_full)
    (stem_of (get_filename (test_logger 10) dir_two_full)) "20091117_203000"
    (ext_of (get_filename (test_logger 10) dir_two_full)) 4
    (get_max_size (test_logger 10) dir_two_full) 2
  <> Timeout.
Proof.
  apply (search_name_terminates (test_logger 10) dir_two_full "20091117_203000" 4 300).
  - reflexivity.
  - vm_compute. lia.
Defined.

End SearchTerminates.

Section StatFailure.

Import OS Time Lumberjack Fixtures.

(** A [Write] that is not above the maximum size panics when [os_Stat]
    fails, with an error other than "does not exist", on the backup name
    of the current window: [processName] calls [info.Size()] on the nil
    [info] that [os_Stat] returned with the error.  No error is returned
    to the caller. *)
Theorem Write_panics_on_stat_error fuel (p : list byte) (l : Logger) (w : world) (ts : string) :
  Z.of_nat (length p) <= get_max_size l w ->
  timestamp_at fuel l w (time_at w (ticks w)) = Ret ts ->
  fail_stat (faulty (sys w))
    (backup_name (get_dir l w) (stem_of (get_filename l w)) ts
       (ext_of (get_filename l w))) = true ->
  Write fuel p l w = Panic.
Proof.
  intros Hle Hts Hs. rewrite Write_unfold.
  destruct (Z.gtb_spec (Z.of_nat (length p)) (get_max_size l w)); [lia|].
  unfold openExistingOrNew.
  rewrite (processName_unfold _ _ _ _ _ Hts). unfold Stat.
  change (sys (tick w)) with (sys w). rewrite Hs. reflexivity.
Qed.

Lemma Write_panics_on_stat_error_witness :
  Write 300 (bytes "boo!") (test_logger 0) dir_stat_fails = Panic.
Proof.
  apply (Write_panics_on_stat_error 300 (bytes "boo!") (test_logger 0) dir_stat_fails
           "20091117_203000").
  - vm_compute. discriminate.
  - vm_compute. reflexivity.
  - reflexivity.
Defined.

Lemma search_name_stat fuel w dir pre ts ext wl mx counter name :
  search_name fuel w dir pre ts ext wl mx counter = Ret name ->
  Stat w name = StatNotExist
  \/ exists sz, Stat w name = StatOk sz /\ add64 sz wl <= mx.
Proof.
  revert counter. induction fuel as [|fuel IH]; intros counter; [done|]. simpl.
  destruct (Stat w (indexed_name dir pre ts counter ext)) as [sz| |] eqn:Es; try done.
  - destruct (Z.gtb_spec (add64 sz wl) mx).
    + apply IH.
    + intros [= <-]. right. exists sz. split; [done | lia].
  - intros [= <-]. by left.
Qed.

(** The name [processName] returns does not exist, or names a file that
    has room for the write. *)
Lemma processName_stat fuel l wl w name w' :
  processName fuel l wl w = Ret (name, w') ->
  Stat w' name = StatNotExist
  \/ exists sz, Stat w' name = StatOk sz /\ add64 sz wl <= get_max_size l w.
Proof.
  unfold processName, currentTime.
  destruct (timestamp_at fuel l (tick w) _) as [ts| |]; simpl; try done.
  destruct (Stat (tick w) (backup_name _ _ ts _)) as [sz| |] eqn:Es; try done.
  - destruct (Z.gtb_spec (add64 sz wl) (get_max_size l (tick w))).
    + destruct (search_name _ _ _ _ _ _ _ _ _) as [nm| |] eqn:Esn; simpl; try done.
      intros [= <- <-]. by apply search_name_stat in Esn.
    + intros [= <- <-]. right. exists sz. split; [done|]. done.
  - intros [= <- <-]. by left.
Qed.

Lemma openNew_error_cases fuel l w e l' w' :
  openNew fuel l w = Ret (Some e, l', w') ->
  e = ErrMkdir \/ e = ErrOpenExisting \/ e = ErrOpenNew \/ e = ErrUnlink \/ e = ErrSymlink.
Proof.
  unfold openNew. destruct (MkdirAll w _); simpl; [|intros [= <- _ _]; tauto].
  destruct (processName fuel l 0 w) as [[name w0]| |]; simpl; try done.
  destruct (Stat w0 name).
  - destruct (OpenAppend w0 name); [|intros [= <- _ _]; tauto].
    destruct (Lstat w0 _).
    + destruct (Remove w0 _) as [w1|]; [|intros [= <- _ _]; tauto].
      destruct (Symlink w1 _ _) as [w2|]; [|intros [= <- _ _]; tauto].
      by destruct (FileSize w2 _).
    + destruct (Symlink w0 _ _) as [w2|]; [|intros [= <- _ _]; tauto].
      by destruct (FileSize w2 _).
  - destruct (OpenCreateTrunc w0 name) as [[i w1]|]; [|intros [= <- _ _]; tauto].
    destruct (Lstat w1 _).
    + destruct (Remove w1 _) as [w2|]; [|intros [= <- _ _]; tauto].
      destruct (Symlink w2 _ _) as [w3|]; [|intros [= <- _ _]; tauto].
      by destruct (FileSize w3 _).
    + destruct (Symlink w1 _ _) as [w3|]; [|intros [= <- _ _]; tauto].
      by destruct (FileSize w3 _).
  - destruct (OpenCreateTrunc w0 name) as [[i w1]|]; [|intros [= <- _ _]; tauto].
    destruct (Lstat w1 _).
    + destruct (Remove w1 _) as [w2|]; [|intros [= <- _ _]; tauto].
      destruct (Symlink w2 _ _) as [w3|]; [|intros [= <- _ _]; tauto].
      by destruct (FileSize w3 _).
    + destruct (Symlink w1 _ _) as [w3|]; [|intros [= <- _ _]; tauto].
      by destruct (FileSize w3 _).
Qed.

Lemma rotate_error_cases fuel l w e l' w' :
  rotate fuel l w = Ret (Some e, l', w') ->
  e = ErrClose \/ e = ErrMkdir \/ e = ErrOpenExisting \/ e = ErrOpenNew
  \/ e = ErrUnlink \/ e = ErrSymlink.
Proof.
  unfold rotate, close. destruct (file l) as [f|].
  - destruct (FileClose _ f).
    + intros [= <- _ _]. tauto.
    + intros H%openNew_error_cases. tauto.
  - intros H%openNew_error_cases. tauto.
Qed.

(** [openExistingOrNew] never returns its error "error getting log file
    info": the name it passes to [os_Stat] is the one [processName] made,
    and [processName] has called [os_Stat] on that very name and panics
    when it fails in that way (in a world where [os_Stat] answers alike
    for the same name at both calls). *)
Theorem openExistingOrNew_never_stat_error fuel (writeLen : Z) (l : Logger) (w : world)
    e l' w' :
  openExistingOrNew fuel writeLen l w = Ret (e, l', w') -> e <> Some ErrStat.
Proof.
  unfold openExistingOrNew.
  destruct (processName fuel l writeLen w) as [[name w0]| |] eqn:Epn; simpl; try done.
  apply processName_stat in Epn.
  destruct (Stat w0 name) as [sz| |] eqn:Es.
  - destruct (add64 sz writeLen >=? get_max_size l w0).
    + destruct e as [e|]; [|done].
      intros H%rotate_error_cases [= ->]. intuition discriminate.
    + destruct (OpenAppend w0 name); [by intros [= <- _ _]|].
      destruct e as [e|]; [|done].
      intros H%openNew_error_cases [= ->]. intuition discriminate.
  - destruct e as [e|]; [|done].
    intros H%openNew_error_cases [= ->]. intuition discriminate.
  - destruct Epn as [?|(? & ? & _)]; done.
Qed.

Lemma openExistingOrNew_never_stat_error_witness :
  exists e l' w',
    openExistingOrNew 300 4 (test_logger 0) dir_symlink_fails = Ret (e, l', w')
    /\ e <> Some ErrStat.
Proof.
  destruct (openExistingOrNew 300 4 (test_logger 0) dir_symlink_fails)
    as [[[e l'] w']| |] eqn:E.
  - exists e, l', w'. split; [reflexivity|].
    exact (openExistingOrNew_never_stat_error 300 4 (test_logger 0) dir_symlink_fails
             e l' w' E).
  - apply (f_equal (fun o => match o with Panic => true | _ => false end)) in E.
    vm_compute in E. discriminate E.
  - apply (f_equal (fun o => match o with Timeout => true | _ => false end)) in E.
    vm_compute in E. discriminate E.
Defined.

End StatFailure.

Section SoftLimit.

Import OS Time Lumberjack Fixtures.

(** [openNew] opens a file that is not above the maximum size. *)
Lemma openNew_size_le fuel l w l' w' b :
  fault_free w -> files_below b w -> b <= 2 ^ 63 -> 0 <= get_max_size l w ->
  openNew fuel l w = Ret (None, l', w') ->
  size l' <= get_max_size l w.
Proof.
  intros Hff Hb Hb63 Hmax H.
  destruct (processName fuel l 0 w) as [[name w0]| |] eqn:Epn.
  2,3: unfold openNew in H; rewrite MkdirAll_fault_free, Epn in H by done; done.
  pose proof (processName_shape _ _ _ _ _ _ Epn) as [-> _].
  pose proof (processName_stat _ _ _ _ _ _ Epn) as Hst.
  rewrite (openNew_fault_free _ _ _ _ Hff Epn) in H.
  assert (fault_free (tick w)) as Hff1 by done.
  rewrite Stat_fault_free in Hst by done.
  destruct (resolve maxSymlinks (tick w) name) as [i|path|] eqn:Er; [| |done].
  - change (FileSize (tick w) i) with (FileSize w i) in Hst.
    destruct (FileSize w i) as [sz|] eqn:Es; [|done].
    injection H as <- <-. simpl.
    destruct Hst as [?|(sz' & [= <-] & Hle)]; [done|].
    pose proof (FileSize_below _ _ _ _ Hb Es).
    rewrite add64_small in Hle by lia. lia.
  - injection H as <- <-. simpl. lia.
Qed.

Lemma rotate_size_le fuel l w l' w' b :
  fault_free w -> files_below b w -> b <= 2 ^ 63 -> 0 <= get_max_size l w ->
  rotate fuel l w = Ret (None, l', w') ->
  size l' <= get_max_size l w.
Proof.
  intros Hff Hb Hb63 Hmax. unfold rotate. rewrite close_fault_free by done.
  intros H. eapply (openNew_size_le _ _ _ _ _ b) in H; done.
Qed.

Lemma openExistingOrNew_size_le fuel writeLen l w l' w' b :
  fault_free w -> files_below b w -> b + writeLen <= 2 ^ 63 ->
  0 <= writeLen <= get_max_size l w ->
  openExistingOrNew fuel writeLen l w = Ret (None, l', w') ->
  size l' <= get_max_size l w.
Proof.
  intros Hff Hb Hbw Hmax. assert (b <= 2 ^ 63) as Hb63 by lia.
  unfold openExistingOrNew.
  destruct (processName fuel l writeLen w) as [[name w0]| |] eqn:Epn; try done.
  pose proof (processName_shape _ _ _ _ _ _ Epn) as [-> _]. simpl.
  assert (fault_free (tick w)) as Hff1 by done.
  assert (files_below b (tick w)) as Hb1 by done.
  assert (0 <= get_max_size l (tick w)) as Hmax1.
  { change (get_max_size l (tick w)) with (get_max_size l w). lia. }
  change (get_max_size l w) with (get_max_size l (tick w)).
  destruct (Stat (tick w) name) as [sz| |] eqn:Es; [| |done].
  - pose proof (Stat_below _ _ _ _ Hb1 Es) as Hsz.
    rewrite add64_small by lia.
    destruct (Z.geb_spec (sz + writeLen) (get_max_size l (tick w))).
    + apply (rotate_size_le _ _ _ _ _ b Hff1 Hb1 Hb63 Hmax1).
    + destruct (OpenAppend (tick w) name).
      * intros [= <- <-]. simpl. lia.
      * apply (openNew_size_le _ _ _ _ _ b Hff1 Hb1 Hb63 Hmax1).
  - apply (openNew_size_le _ _ _ _ _ b Hff1 Hb1 Hb63 Hmax1).
Qed.

(** The maximum size is a soft limit.  After a [Write] without error (a
    destination that is an absolute, clean path name, no I/O faults, files
    below [2^63] bytes) the logger holds a file, the size counter is the
    size of that file, and that size is at most the maximum size plus the
    length of the write.  The bound is met with more than the maximum: the
    witness leaves a file of 13 bytes with a maximum of 10. *)
Theorem Write_size_bound fuel (p : list byte) (l : Logger) (w : world) n l' w' :
  absolute_clean (get_filename l w) ->
  fault_free w ->
  files_below (2 ^ 63 - Z.of_nat (length p)) w ->
  Write fuel p l w = Ret (n, None, l', w') ->
  exists f,
    file l' = Some f
    /\ FileSize w' (ino f) = Some (size l')
    /\ size l' <= get_max_size l w + Z.of_nat (length p).
Proof.
  intros _ Hff Hb. rewrite Write_unfold.
  destruct (Z.gtb_spec (Z.of_nat (length p)) (get_max_size l w)) as [|Hle]; [done|].
  pose proof (get_max_size_range l w) as Hmax.
  destruct (openExistingOrNew fuel _ l w) as [[[e1 l1] w1]| |] eqn:E1; try done.
  simpl. destruct e1 as [e1|]; [done|].
  assert (size l1 <= get_max_size l w) as Hs1.
  { apply (openExistingOrNew_size_le fuel (Z.of_nat (length p)) l w l1 w1
             (2 ^ 63 - Z.of_nat (length p))); [done | done | lia | lia | done]. }
  apply openExistingOrNew_spec in E1 as (Hev1 & Hc1 & He1); [|done].
  assert (fault_free w1) as Hff1 by by eapply evolves_fault_free.
  assert (files_below (2 ^ 63 - Z.of_nat (length p)) w1) as Hb1.
  { eapply evolves_files_below; [lia | done | done]. }
  assert (get_max_size l1 w1 = get_max_size l w) as Hm1.
  { apply get_max_size_config; [done | by destruct Hev1]. }
  intros H.
  assert (exists l2 w2,
            opened_with_size l2 w2 /\ size l2 <= get_max_size l w
            /\ fault_free w2 /\ files_below (2 ^ 63 - Z.of_nat (length p)) w2
            /\ write_through p l2 w2 = Ret (n, None, l', w'))
    as (l2 & w2 & (i & Hfile & Hsz) & Hs2 & Hff2 & Hb2 & Hw).
  { destruct (add64 (size l1) _ >? get_max_size l1 w1).
    - destruct (rotate fuel l1 w1) as [[[e2 l2] w2]| |] eqn:E2; try done.
      simpl in H. destruct e2 as [e2|]; [done|].
      assert (size l2 <= get_max_size l1 w1) as Hs2.
      { apply (rotate_size_le fuel l1 w1 l2 w2 (2 ^ 63 - Z.of_nat (length p)));
          [done | done | lia | lia | done]. }
      apply rotate_spec in E2 as (Hev2 & Hc2 & He2); [|done].
      exists l2, w2. split; [done|]. split; [lia|].
      split; [by eapply evolves_fault_free|].
      split; [|done]. eapply evolves_files_below; [lia | done | done].
    - simpl in H. by exists l1, w1. }
  pose proof (FileSize_below _ _ _ _ Hb2 Hsz).
  destruct (write_through_spec p l2 w2 i)
    as (l3 & w3 & h & Hw3 & _ & Hf3 & Hi3 & _ & Hs3 & Happ);
    [by destruct Hff2 | done | done | lia |].
  rewrite Hw3 in Hw. injection Hw as _ <- <-.
  exists h. split; [done|]. rewrite Hi3.
  split; [|lia]. rewrite Hs3. by eapply appended_FileSize.
Qed.

Lemma Write_size_bound_witness :
  exists l' w' f,
    Write 300 (bytes "fooooooo!") (test_logger 10) dir_four_bytes = Ret (9, None, l', w')
    /\ file l' = Some f
    /\ FileSize w' (ino f) = Some (size l')
    /\ size l' <= get_max_size (test_logger 10) dir_four_bytes + 9
    /\ size l' = 13.
Proof.
  assert (write_result (Write 300 (bytes "fooooooo!") (test_logger 10) dir_four_bytes)
          = Some (9, None, 13)) as R by (vm_compute; reflexivity).
  destruct (Write 300 (bytes "fooooooo!") (test_logger 10) dir_four_bytes)
    as [[[[n e] l'] w']| |] eqn:E; [|discriminate R..].
  injection R as -> -> Hs.
  assert (fault_free dir_four_bytes) as Hff by (split; reflexivity).
  assert (files_below (2 ^ 63 - Z.of_nat (length (bytes "fooooooo!"))) dir_four_bytes) as Hb.
  { unfold files_below, dir_four_bytes, test_world. cbn [inodes].
    constructor; [vm_compute; reflexivity | constructor]. }
  assert (absolute_clean (get_filename (test_logger 10) dir_four_bytes)) as Ha.
  { split; [by eexists | split; [vm_compute; reflexivity | discriminate]]. }
  destruct (Write_size_bound 300%nat (bytes "fooooooo!") (test_logger 10) dir_four_bytes
              9 l' w' Ha Hff Hb E) as (f & Hf & Hsz & Hle).
  exists l', w', f. repeat split; assumption.
Defined.

End SoftLimit.

Section InWindow.

Import OS Time Lumberjack Fixtures.






End InWindow.

Section RotationOverflow.

Import OS Time Lumberjack Fixtures.

(** The loop never ends when the step is not positive. *)
Lemma rotation_loop_runs_on fuel (base : Time) (d : Z) (t : Time) :
  d <= 0 -> unixNano base < unixNano t ->
  rotation_loop fuel base d t = Timeout.
Proof.
  intros Hd. revert base. induction fuel as [|fuel IH]; intros base Hlt.
  - simpl. unfold Before. simpl.
    destruct (Z.ltb_spec (unixNano base + d) (unixNano t)); [done | lia].
  - simpl. unfold Before. simpl.
    destruct (Z.ltb_spec (unixNano base + d) (unixNano t)); [|lia].
    apply IH. simpl. lia.
Qed.

(** When the rotation time in minutes, times [time.Minute], overflows to
    a duration that is not positive (200000000 minutes is such a rotation
    time), the loop of [processName] that looks for the start of the
    window never ends: once the time is after midnight, a [Write] that is
    not above the maximum size does not return, whatever the fuel. *)
Theorem Write_runs_on_when_rotation_time_overflows
    fuel (p : list byte) (l : Logger) (w : world) :
  Z.of_nat (length p) <= get_max_size l w ->
  mul64 Minute (get_rotation_time l) <= 0 ->
  Before (base_datetime l w (time_at w (ticks w))) (time_at w (ticks w)) = true ->
  Write fuel p l w = Timeout.
Proof.
  intros Hle Hd Hlt. rewrite Write_unfold.
  destruct (Z.gtb_spec (Z.of_nat (length p)) (get_max_size l w)); [lia|].
  unfold openExistingOrNew, processName, currentTime.
  change {| unixNano := unixNano (clock (sys w) (ticks w));
            zoneOffset := localOffset (sys w) |} with (time_at w (ticks w)).
  assert (timestamp_at fuel l (tick w) (time_at w (ticks w)) = Timeout) as ->; [|done].
  unfold timestamp_at.
  pose proof (get_rotation_time_positive l) as Hpos.
  destruct (Z.ltb_spec 0 (get_rotation_time l)); [|lia].
  unfold base_datetime, Before in Hlt. apply Z.ltb_lt in Hlt.
  rewrite rotation_loop_runs_on; [done | done |].
  by destruct (LocalTime l).
Qed.

Lemma Write_runs_on_when_rotation_time_overflows_witness :
  Write 1000 (bytes "boo!") overflowing_logger empty_dir = Timeout.
Proof.
  apply (Write_runs_on_when_rotation_time_overflows 1000 (bytes "boo!")
           overflowing_logger empty_dir).
  - vm_compute. discriminate.
  - vm_compute. discriminate.
  - vm_compute. reflexivity.
Defined.

End RotationOverflow.

Section HeldFile.

Import OS Time Lumberjack Fixtures.

Lemma processName_config fuel l l0 wl w :
  same_config l l0 -> processName fuel l0 wl w = processName fuel l wl w.
Proof.
  destruct l, l0. intros (H1 & H2 & H3 & H4). simpl in *. subst. reflexivity.
Qed.

Lemma openNew_config fuel l l0 w :
  same_config l l0 -> openNew fuel l0 w = with_logger l0 (openNew fuel l w).
Proof.
  intros Hc. unfold openNew.
  rewrite (processName_config fuel l l0) by done.
  destruct l, l0. destruct Hc as (H1 & H2 & H3 & H4). simpl in *. subst.
  unfold get_dir, get_filename. cbn [Filename].
  destruct (MkdirAll w _); [|done]. simpl.
  destruct (processName _ _ _ _) as [[name w0]| |]; simpl; try done.
  destruct (Stat w0 name).
  - destruct (OpenAppend w0 name); [|done].
    destruct (Lstat w0 _).
    + destruct (Remove w0 _) as [w1|]; [|done].
      destruct (Symlink w1 _ _) as [w2|]; [|done].
      by destruct (FileSize w2 _).
    + destruct (Symlink w0 _ _) as [w2|]; [|done].
      by destruct (FileSize w2 _).
  - destruct (OpenCreateTrunc w0 name) as [[i w1]|]; [|done].
    destruct (Lstat w1 _).
    + destruct (Remove w1 _) as [w2|]; [|done].
      destruct (Symlink w2 _ _) as [w3|]; [|done].
      by destruct (FileSize w3 _).
    + destruct (Symlink w1 _ _) as [w3|]; [|done].
      by destruct (FileSize w3 _).
  - destruct (OpenCreateTrunc w0 name) as [[i w1]|]; [|done].
    destruct (Lstat w1 _).
    + destruct (Remove w1 _) as [w2|]; [|done].
      destruct (Symlink w2 _ _) as [w3|]; [|done].
      by destruct (FileSize w3 _).
    + destruct (Symlink w1 _ _) as [w3|]; [|done].
      by destruct (FileSize w3 _).
Qed.

Lemma same_config_set_file f l : same_config l (set_file f l).
Proof. done. Qed.

Lemma rotate_config fuel l l0 w e l' w' :
  fault_free w -> same_config l l0 ->
  rotate fuel l w = Ret (e, l', w') ->
  e = None -> rotate fuel l0 w = Ret (None, l', w').
Proof.
  intros Hff Hc. unfold rotate. rewrite !close_fault_free by done.
  rewrite (openNew_config fuel (set_file None l) (set_file None l0)) by done.
  intros -> ->. done.
Qed.

Lemma openExistingOrNew_config fuel wl l l0 w l' w' :
  fault_free w -> same_config l l0 ->
  openExistingOrNew fuel wl l w = Ret (None, l', w') ->
  openExistingOrNew fuel wl l0 w = Ret (None, l', w').
Proof.
  intros Hff Hc. unfold openExistingOrNew.
  rewrite (processName_config fuel l l0) by done.
  destruct (processName fuel l wl w) as [[name w0]| |] eqn:Epn; simpl; try done.
  pose proof (processName_shape _ _ _ _ _ _ Epn) as [-> _].
  rewrite (get_max_size_config l l0 (tick w) (tick w)) by done.
  destruct (Stat (tick w) name) as [sz| |]; [| |done].
  - destruct (add64 sz wl >=? get_max_size l (tick w)).
    + intros H. by eapply rotate_config.
    + destruct (OpenAppend (tick w) name).
      * intros [= <- <-]. destruct l, l0.
        destruct Hc as (H1 & H2 & H3 & H4). simpl in *. by subst.
      * rewrite (openNew_config fuel l l0) by done. by intros ->.
  - rewrite (openNew_config fuel l l0) by done. by intros ->.
Qed.

(** The result of a [Write] without error is the same for two loggers of
    the same configuration, whatever file they hold and whatever their
    size counters say: [openExistingOrNew] opens the file and sets the
    counter anew at every call. *)
Theorem Write_ignores_held_file fuel (p : list byte) (l l0 : Logger) (w : world) n l' w' :
  absolute_clean (get_filename l w) ->
  fault_free w -> same_config l l0 ->
  Write fuel p l w = Ret (n, None, l', w') ->
  Write fuel p l0 w = Ret (n, None, l', w').
Proof.
  intros _ Hff Hc. rewrite !Write_unfold.
  rewrite (get_max_size_config l l0 w w) by done.
  destruct (Z.of_nat (length p) >? get_max_size l w); [done|].
  destruct (openExistingOrNew fuel _ l w) as [[[e1 l1] w1]| |] eqn:E1; try done.
  simpl. destruct e1 as [e1|]; [done|].
  rewrite (openExistingOrNew_config _ _ _ _ _ _ _ Hff Hc E1). done.
Qed.

Lemma Write_ignores_held_file_witness :
  exists l' w',
    Write 300 (bytes "boo!") (test_logger 0) dir_with_backup = Ret (4, None, l', w')
    /\ Write 300 (bytes "boo!") (set_size 77 (set_file (Some (opened 5)) (test_logger 0)))
         dir_with_backup = Ret (4, None, l', w').
Proof.
  assert (write_result (Write 300 (bytes "boo!") (test_logger 0) dir_with_backup)
          = Some (4, None, 8)) as R by (vm_compute; reflexivity).
  destruct (Write 300 (bytes "boo!") (test_logger 0) dir_with_backup)
    as [[[[n e] l'] w']| |] eqn:E; [|discriminate R..].
  injection R as -> -> _.
  exists l', w'. split; [reflexivity|].
  apply (Write_ignores_held_file 300 (bytes "boo!") (test_logger 0)
           (set_size 77 (set_file (Some (opened 5)) (test_logger 0))) dir_with_backup).
  - split; [by eexists | split; [vm_compute; reflexivity | discriminate]].
  - split; reflexivity.
  - repeat split.
  - exact E.
Defined.

End HeldFile.

Section LoggingFacts.

Import Logging.

Lemma SetLevel_follows lv l :
  FATAL <= lv <= DISABLE -> follows_level (SetLevel lv l).
Proof.
  unfold FATAL, DISABLE. intros H.
  assert (lv = 0 \/ lv = 1 \/ lv = 2 \/ lv = 3 \/ lv = 4 \/ lv = 5) as Hlv by lia.
  destruct Hlv as [->|[->|[->|[->|[->| ->]]]]];
    (split; [done|]);
    intros [|[|[|[|[|k]]]]] g; cbn; intros [= <-]; reflexivity.
Qed.

Lemma SetLevel_level lv l : level (SetLevel lv l) = lv.
Proof.
  unfold SetLevel. repeat case_match; reflexivity.
Qed.

Lemma SetPrefix_follows p l : follows_level l -> follows_level (SetPrefix p l).
Proof.
  intros [Hl H]. split; [done|].
  intros k g Hk.
  destruct k as [|[|[|[|[|k]]]]]; cbn in Hk; [..|discriminate Hk];
    injection Hk as <-; cbn [out setPrefix];
    [apply (H 0%nat) | apply (H 1%nat) | apply (H 2%nat) | apply (H 3%nat)
     | apply (H 4%nat)]; reflexivity.
Qed.

Lemma call_follows c l : known_level c -> follows_level l -> follows_level (call c l).
Proof.
  intros Hc Hl. destruct c as [lv|p|s|ws]; simpl.
  - by apply SetLevel_follows.
  - by apply SetPrefix_follows.
  - apply SetLevel_follows. apply Hl.
  - apply SetLevel_follows. apply Hl.
Qed.

(** Whatever calls of [SetLevel] (with one of the six levels),
    [SetPrefix], [SetStreamSingle] and [SetStreamMulti] are made on a new
    logger, in whatever order, the five loggers follow the level: those of
    a severity up to the level write to the stream of the logger, the
    others are discarded, and at [DISABLE] all are discarded. *)
Theorem Logging_follows_level (cs : list logging_call) :
  Forall known_level cs ->
  follows_level (calls cs (New None).1).
Proof.
  assert (follows_level (New None).1) as H0 by by apply SetLevel_follows.
  revert H0. generalize (New None).1.
  induction cs as [|c cs IH]; intros l Hl H; [done|].
  inversion H as [|? ? Hc Hcs]; subst.
  apply IH; [|done]. by apply call_follows.
Qed.

(** The calls of [main] with a log file configured, logging disabled. *)
Lemma Logging_follows_level_witness :
  follows_level
    (calls [CallSetStreamSingle Syslog; CallSetPrefix "FILESERVER-GO"; CallSetLevel DEBUG;
            CallSetStreamMulti [LogFile "/tmp/fileserver-go/log/fileserver-go.log"];
            CallSetLevel DISABLE]
       (New None).1).
Proof.
  apply (Logging_follows_level
           [CallSetStreamSingle Syslog; CallSetPrefix "FILESERVER-GO"; CallSetLevel DEBUG;
            CallSetStreamMulti [LogFile "/tmp/fileserver-go/log/fileserver-go.log"];
            CallSetLevel DISABLE]).
  repeat constructor; done.
Defined.

(** A level outside the six known ones is stored, but the [switch] of
    [SetLevel] has no case for it: the five loggers stay as they were, also
    after a [SetStreamSingle] or a [SetStreamMulti] that follows, which
    stores the new stream and calls [SetLevel] with that level. *)
Theorem SetLevel_unknown_level_keeps_outputs (lv : Z) (l : Logging) :
  lv < FATAL \/ DISABLE < lv ->
  (forall s, loggers (SetStreamSingle s (SetLevel lv l)) = loggers l)
  /\ (forall ws, loggers (SetStreamMulti ws (SetLevel lv l)) = loggers l)
  /\ level (SetLevel lv l) = lv.
Proof.
  unfold FATAL, DISABLE. intros H.
  assert (forall s l0, level l0 = lv -> SetLevel lv (set_stream s l0) = set_stream s l0)
    as Hs.
  { intros s l0 <-. unfold SetLevel, FATAL, CRITICAL, WARNING, INFO, DEBUG, DISABLE.
    repeat (case_match; [lia|]). by destruct l0. }
  assert (SetLevel lv l = set_stream (stream l) (SetLevel lv l) /\ loggers (SetLevel lv l) = loggers l) as [_ Hl].
  { unfold SetLevel, FATAL, CRITICAL, WARNING, INFO, DEBUG, DISABLE.
    repeat (case_match; [lia|]). done. }
  split; [|split].
  - intros s. unfold SetStreamSingle. rewrite SetLevel_level, Hs by apply SetLevel_level.
    exact Hl.
  - intros ws. unfold SetStreamMulti. rewrite SetLevel_level, Hs by apply SetLevel_level.
    exact Hl.
  - apply SetLevel_level.
Qed.

Lemma SetLevel_unknown_level_keeps_outputs_witness :
  (forall s, loggers (SetStreamSingle s (SetLevel 6 (New None).1)) = loggers (New None).1)
  /\ (forall ws, loggers (SetStreamMulti ws (SetLevel 6 (New None).1)) = loggers (New None).1)
  /\ level (SetLevel 6 (New None).1) = 6.
Proof.
  apply (SetLevel_unknown_level_keeps_outputs 6 (New None).1).
  right. reflexivity.
Defined.

Lemma pfx_SetLevel lv l : map pfx (loggers (SetLevel lv l)) = map pfx (loggers l).
Proof. unfold SetLevel. repeat case_match; reflexivity. Qed.

(** [SetPrefix] adds to the prefix and never replaces it: after a
    sequence of calls each of the five loggers has the prefix it had
    before, preceded by the prefixes given, the one given last first, each
    followed by a space.  The other calls leave the prefixes alone. *)
Theorem SetPrefix_accumulates (cs : list logging_call) (l : Logging) :
  map pfx (loggers (calls cs l))
  = map (fun g => given_prefixes cs +:+ pfx g) (loggers l).
Proof.
  revert l. induction cs as [|c cs IH]; intros l.
  - simpl. by rewrite !app_nil_l_s.
  - change (calls (c :: cs) l) with (calls cs (call c l)). rewrite IH.
    destruct c as [lv|p|s|ws]; cbn [given_prefixes call].
    + pose proof (pfx_SetLevel lv l) as E. simpl in E. simpl.
      injection E as -> -> -> -> ->. done.
    + simpl. by rewrite !app_assoc_s.
    + pose proof (pfx_SetLevel (level l) (set_stream s l)) as E. simpl in E.
      unfold SetStreamSingle. simpl. injection E as -> -> -> -> ->. done.
    + pose proof (pfx_SetLevel (level l) (set_stream (MultiWriter ws) l)) as E.
      simpl in E. unfold SetStreamMulti. simpl. injection E as -> -> -> -> ->. done.
Qed.

End LoggingFacts.

Section LoadFacts.

Import Logging ConfigurationManager ConfigFixtures.

(** When [Load] returns an error, the configuration manager is as it was
    before the call: the configuration read is stored only after all
    checks.  The logger singleton has been created all the same. *)
Theorem Load_error_keeps_configuration (cm : ConfigurationManager) (v : Viper)
    (instance : option Logging) e cm' instance' :
  Load cm v instance = Ret (Some e, cm', instance') ->
  cm' = cm /\ instance' = (New instance).2.
Proof.
  unfold Load. destruct (New instance) as [mlog inst] eqn:En. simpl.
  destruct (ReadInConfig v); [by intros [= _ <- <-]|].
  destruct (UnmarshalKey_app v) as [a|]; [|by intros [= _ <- <-]].
  destruct (Get_app v) as [|ma|]; [by intros [= _ <- <-] | | done].
  destruct (UnmarshalKey_http v) as [h|]; [|by intros [= _ <- <-]].
  destruct (Get_http v) as [|mh|]; [by intros [= _ <- <-] | | done].
  destruct (http_defaults mh h) as [h'| |]; simpl; try done.
  destruct (nil_or_blank (index mh "file_server_directory")) as [[|]| |]; simpl; try done.
  by intros [= _ <- <-].
Qed.

Lemma Load_error_keeps_configuration_witness :
  exists e,
    Load zero_manager unreadable None = Ret (Some e, zero_manager, (New None).2).
Proof.
  destruct (Load zero_manager unreadable None) as [[[[e|] cm'] i']| |] eqn:E;
    try (vm_compute in E; discriminate E).
  destruct (Load_error_keeps_configuration zero_manager unreadable None e cm' i' E)
    as [-> ->].
  by exists e.
Defined.

Lemma nil_or_blank_false x :
  nil_or_blank x = Ret false -> exists s, x = VString s /\ Strings.TrimSpace s <> "".
Proof.
  unfold nil_or_blank. destruct x; simpl; try done.
  case_bool_decide; [done|]. intros _. eauto.
Qed.

Lemma LogLevel_app_defaults m c :
  LogLevel (app_defaults m c)
  = if is_nil (index m "log_level") then INFO
    else if negb (as_int64 (index m "log_level")).2
            || (((as_int64 (index m "log_level")).1 <? FATAL)
                || ((as_int64 (index m "log_level")).1 >? DEBUG))
         then INFO else LogLevel c.
Proof.
  unfold app_defaults.
  destruct (as_int64 (index m "log_level")) as [n1 ok1],
    (as_int64 (index m "log_rotation_time")) as [n2 ok2],
    (as_int64 (index m "max_log_size")) as [n3 ok3]. cbn [fst snd].
  by repeat case_match.
Qed.

Lemma LogRotationTime_app_defaults m c :
  LogRotationTime (app_defaults m c)
  = if is_nil (index m "log_rotation_time") then 60
    else if negb (as_int64 (index m "log_rotation_time")).2
            || ((as_int64 (index m "log_rotation_time")).1 <=? 0)
         then 60 else LogRotationTime c.
Proof.
  unfold app_defaults.
  destruct (as_int64 (index m "log_level")) as [n1 ok1],
    (as_int64 (index m "log_rotation_time")) as [n2 ok2],
    (as_int64 (index m "max_log_size")) as [n3 ok3]. cbn [fst snd].
  by repeat case_match.
Qed.

Lemma MaxLogSize_app_defaults m c :
  MaxLogSize (app_defaults m c)
  = if is_nil (index m "max_log_size") then 500
    else if negb (as_int64 (index m "max_log_size")).2
            || ((as_int64 (index m "max_log_size")).1 <=? 0)
         then 500 else MaxLogSize c.
Proof.
  unfold app_defaults.
  destruct (as_int64 (index m "log_level")) as [n1 ok1],
    (as_int64 (index m "log_rotation_time")) as [n2 ok2],
    (as_int64 (index m "max_log_size")) as [n3 ok3]. cbn [fst snd].
  by repeat case_match.
Qed.

Lemma app_defaults_valid m c :
  carries_app m c ->
  FATAL <= LogLevel (app_defaults m c) <= DEBUG
  /\ 0 < LogRotationTime (app_defaults m c)
  /\ 0 < MaxLogSize (app_defaults m c).
Proof.
  intros (Hl & Hr & Hs).
  rewrite LogLevel_app_defaults, LogRotationTime_app_defaults, MaxLogSize_app_defaults.
  unfold FATAL, DEBUG, INFO. split; [|split].
  - destruct (index m "log_level") as [|n| | |]; simpl; try lia.
    specialize (Hl _ eq_refl).
    destruct (Z.ltb_spec n 0), (Z.gtb_spec n 4); simpl; lia.
  - destruct (index m "log_rotation_time") as [|n| | |]; simpl; try lia.
    specialize (Hr _ eq_refl). destruct (Z.leb_spec n 0); simpl; lia.
  - destruct (index m "max_log_size") as [|n| | |]; simpl; try lia.
    specialize (Hs _ eq_refl). destruct (Z.leb_spec n 0); simpl; lia.
Qed.

(** When [Load] returns no error (for a viper whose [UnmarshalKey] puts
    into the structures the values its [Get] shows), the configuration
    stored is valid: a log level from [FATAL] to [DEBUG], a positive
    rotation time, log size and file size, an address and a file server
    directory that are not empty.  The logger singleton exists, has the
    log level of the configuration and follows it. *)
Theorem Load_accepts_valid_configuration (cm : ConfigurationManager) (v : Viper)
    (instance : option Logging) cm' instance' :
  viper_carries v ->
  Load cm v instance = Ret (None, cm', instance') ->
  valid_configuration cm'
  /\ exists mlog, instance' = Some mlog
                  /\ level mlog = LogLevel (appConfig cm')
                  /\ follows_level mlog.
Proof.
  intros [Happ Hhttp]. unfold Load.
  destruct (New instance) as [mlog inst] eqn:En. simpl.
  destruct (ReadInConfig v); [done|].
  destruct (UnmarshalKey_app v) as [a|] eqn:Ea; [|done].
  destruct (Get_app v) as [|ma|] eqn:Ema; [done | | done].
  destruct (UnmarshalKey_http v) as [h|] eqn:Eh; [|done].
  destruct (Get_http v) as [|mh|] eqn:Emh; [done | | done].
  specialize (Happ ma a eq_refl eq_refl).
  specialize (Hhttp mh h eq_refl eq_refl) as (Hf & Ha & Hd).
  pose proof (app_defaults_valid ma a Happ) as (Hlv & Hrt & Hsz).
  unfold http_defaults.
  destruct (nil_or_blank (index mh "address")) as [blank| |] eqn:Eaddr; simpl; try done.
  destruct (nil_or_blank (index mh "file_server_directory")) as [[|]| |] eqn:Edir;
    simpl; try done.
  intros [= <- <-].
  apply nil_or_blank_false in Edir as (d & Ed & Hdne).
  split.
  - unfold valid_configuration. cbn [appConfig httpConfig].
    split; [done|]. split; [done|]. split; [done|].
    split; [|split].
    + destruct (index mh "max_file_size") as [|n| | |] eqn:E;
        destruct (is_nil (index mh "ssl")), blank; simpl; try lia;
        specialize (Hf _ eq_refl);
        destruct (Z.leb_spec n 0); simpl; lia.
    + destruct blank.
      * assert (Strings.TrimSpace ":9000" = ":9000") as Hc by (vm_compute; reflexivity).
        destruct (is_nil (index mh "ssl")), (is_nil (index mh "max_file_size"));
          simpl; try (rewrite Hc; discriminate);
          destruct (as_int64 (index mh "max_file_size")) as [n ok];
          destruct (negb ok || (n <=? 0)); simpl; rewrite Hc; discriminate.
      * apply nil_or_blank_false in Eaddr as (s & Es & Hsne).
        specialize (Ha _ Es).
        destruct (is_nil (index mh "ssl")), (is_nil (index mh "max_file_size"));
          simpl; try (by rewrite Ha);
          destruct (as_int64 (index mh "max_file_size")) as [n ok];
          destruct (negb ok || (n <=? 0)); simpl; by rewrite Ha.
    + specialize (Hd _ Ed).
      destruct blank, (is_nil (index mh "ssl")), (is_nil (index mh "max_file_size"));
        simpl; try (by rewrite Hd);
        destruct (as_int64 (index mh "max_file_size")) as [n ok];
        destruct (negb ok || (n <=? 0)); simpl; by rewrite Hd.
  - eexists. split; [reflexivity|]. cbn [appConfig].
    split; [apply SetLevel_level|].
    apply SetLevel_follows. unfold FATAL, DEBUG, DISABLE in *. simpl. lia.
Qed.

End LoadFacts.

Section LoadFacts2.

Import Logging ConfigurationManager ConfigFixtures.

Lemma sample_carries : viper_carries sample.
Proof.
  split.
  - intros m c [= <-] [= <-]. repeat split; intros n E; vm_compute in E;
      injection E as <-; reflexivity.
  - intros m c [= <-] [= <-]. repeat split; intros n E; vm_compute in E;
      injection E as <-; reflexivity.
Qed.

(** The sample file with [log_level = 7]: the level is [INFO], the
    directory is trimmed. *)
Lemma Load_accepts_valid_configuration_witness :
  exists cm' mlog,
    Load zero_manager sample None = Ret (None, cm', Some mlog)
    /\ valid_configuration cm'
    /\ level mlog = LogLevel (appConfig cm')
    /\ follows_level mlog
    /\ LogLevel (appConfig cm') = INFO
    /\ FileServerDirectory (httpConfig cm') = "/tmp/fileserver-go".
Proof.
  destruct (Load zero_manager sample None) as [[[[e|] cm'] i']| |] eqn:E;
    try (vm_compute in E; discriminate E).
  destruct (Load_accepts_valid_configuration zero_manager sample None cm' i'
              sample_carries E) as (Hv & mlog & -> & Hl & Hf).
  exists cm', mlog. split; [reflexivity|]. split; [exact Hv|].
  split; [exact Hl|]. split; [exact Hf|].
  vm_compute in E. injection E as <- _. split; reflexivity.
Defined.

(** [Load] panics when the [http] table holds under [address] or under
    [file_server_directory] a value that is not a string (an integer,
    say): the type assertion [.(string)] is not checked.  No error is
    returned. *)
Theorem Load_panics_on_non_string (cm : ConfigurationManager) (v : Viper)
    (instance : option Logging) a ma h mh :
  ReadInConfig v = false ->
  UnmarshalKey_app v = Some a -> Get_app v = STable ma ->
  UnmarshalKey_http v = Some h -> Get_http v = STable mh ->
  not_string (index mh "address")
  \/ not_string (index mh "file_server_directory") ->
  Load cm v instance = Panic.
Proof.
  intros Hr Ha Hma Hh Hmh Hbad. unfold Load.
  destruct (New instance) as [mlog inst]. simpl.
  rewrite Hr, Ha, Hma, Hh, Hmh. unfold http_defaults.
  destruct (nil_or_blank (index mh "address")) as [blank| |] eqn:Eaddr; simpl.
  - destruct Hbad as [Hbad|Hbad].
    + by destruct (index mh "address").
    + by destruct (index mh "file_server_directory").
  - done.
  - by destruct (index mh "address").
Qed.

Lemma Load_panics_on_non_string_witness :
  Load zero_manager integer_address None = Panic.
Proof.
  eapply (Load_panics_on_non_string zero_manager integer_address None).
  - reflexivity.
  - reflexivity.
  - reflexivity.
  - reflexivity.
  - reflexivity.
  - left. vm_compute. exact I.
Defined.

End LoadFacts2.

Section DigestFacts.

Import Utilities.

Lemma length_le32 x : length (Md5.le32 x) = 4%nat.
Proof. reflexivity. Qed.

Lemma length_Sum data : length (Md5.Sum data) = 16%nat.
Proof.
  unfold Md5.Sum. destruct (Md5.blocks _ _ _) as [[[a b] c] d].
  by rewrite !length_app, !length_le32.
Qed.

Lemma digit_hex (b : Byte.byte) :
  contains (Hex.digit (Md5.Z_of_byte b / 16)) Hex.hextable = true
  /\ contains (Hex.digit (Md5.Z_of_byte b mod 16)) Hex.hextable = true.
Proof. destruct b; split; vm_compute; reflexivity. Qed.

Lemma EncodeToString_shape src :
  String.length (Hex.EncodeToString src) = (2 * length src)%nat
  /\ forall c, contains c (Hex.EncodeToString src) = true
               -> contains c Hex.hextable = true.
Proof.
  induction src as [|b src [IHl IHc]]; [by split|]. split.
  - simpl. rewrite IHl. lia.
  - intros c. cbn [Hex.EncodeToString contains].
    destruct (digit_hex b) as [H1 H2].
    case_bool_decide as E1; [by subst|].
    case_bool_decide as E2; [by subst|].
    apply IHc.
Qed.

(** The sample password of the repository's configuration file. *)
Lemma StringToMD5String_sample :
  StringToMD5String "" = "d41d8cd98f00b204e9800998ecf8427e"
  /\ StringToMD5String "123456" = "e10adc3949ba59abbe56e057f20f883e".
Proof. split; vm_compute; reflexivity. Qed.

Lemma EncodeToString_Sum_digest data : is_digest (Hex.EncodeToString (Md5.Sum data)).
Proof.
  destruct (EncodeToString_shape (Md5.Sum data)) as [Hl Hc].
  rewrite length_Sum in Hl. done.
Qed.

(** [StringToMD5String] and [BytesToMD5String] return 32 lower-case
    hexadecimal digits, whatever the input. *)
Theorem MD5String_is_digest :
  (forall text : string, is_digest (StringToMD5String text))
  /\ (forall array : list Byte.byte, is_digest (BytesToMD5String array)).
Proof. split; intros x; apply EncodeToString_Sum_digest. Qed.

End DigestFacts.

Section AuthenFacts.

Import Api Utilities.

Lemma authen_inv (md5 : string -> string) (authenList : list BasicAuthen)
    (username password : string) :
  authen md5 authenList username password = true ->
  authenList = []
  \/ exists v, v ∈ authenList /\ Username v = username /\ Password v = md5 password.
Proof.
  unfold authen. destruct authenList as [|v0 l]; [by left|].
  rewrite bool_decide_eq_false_2 by done.
  rewrite existsb_exists.
  intros (v & Hin & [H1 H2]%andb_prop). right. exists v.
  apply bool_decide_eq_true in H1, H2.
  split; [by apply list_elem_of_In|]. done.
Qed.

(** [authen] accepts exactly when the list is empty, or holds an entry
    with the user name given whose password is the digest of the password
    given. *)
Theorem authen_iff (md5 : string -> string) (authenList : list BasicAuthen)
    (username password : string) :
  authen md5 authenList username password = true
  <-> authenList = []
      \/ exists v, v ∈ authenList /\ Username v = username /\ Password v = md5 password.
Proof.
  split; [apply authen_inv|].
  unfold authen. intros [->|(v & Hin & H1 & H2)]; [done|].
  case_bool_decide; [done|]. apply existsb_exists. exists v.
  split; [by apply list_elem_of_In|].
  by rewrite !bool_decide_eq_true_2.
Qed.

(** With a list that is not empty, a user whose entries hold passwords
    that are not 32 lower-case hexadecimal digits (a digest in upper case,
    a plain password) is rejected whatever password is given. *)
Theorem authen_rejects_malformed_passwords (authenList : list BasicAuthen)
    (username password : string) :
  authenList <> [] ->
  (forall v, v ∈ authenList -> Username v = username -> ~ is_digest (Password v)) ->
  authen StringToMD5String authenList username password = false.
Proof.
  intros Hne Hbad. apply not_true_is_false. intros H.
  apply authen_inv in H as [?|(v & Hin & Hu & Hp)]; [done|].
  apply (Hbad v Hin Hu). rewrite Hp. apply EncodeToString_Sum_digest.
Qed.

(** The sample entry with its digest in upper case. *)
Lemma authen_rejects_malformed_passwords_witness :
  authen StringToMD5String
    [ {| Username := "user"; Password := "E10ADC3949BA59ABBE56E057F20F883E" |} ]
    "user" "123456" = false.
Proof.
  apply (authen_rejects_malformed_passwords
           [ {| Username := "user"; Password := "E10ADC3949BA59ABBE56E057F20F883E" |} ]
           "user" "123456").
  - discriminate.
  - intros v Hv _ [_ Hc]. apply list_elem_of_singleton in Hv. subst v.
    specialize (Hc "E"%char eq_refl). vm_compute in Hc. discriminate Hc.
Defined.

(** With a list that is not empty when the middleware is made,
    [ValidateMiddleware] either calls the next handler, and then the
    request carries basic credentials that the list accepts, or it answers
    401 with [Unauthorized.] whatever the next handler is.  In both cases
    the [WWW-Authenticate] header is set first. *)
Theorem ValidateMiddleware_guards (md5 : string -> string)
    (authenList authenNow : list BasicAuthen) (next : Handler) (w : Response) (r : Request) :
  authenList <> [] ->
  let challenged := setHeader "WWW-Authenticate" restricted_realm w in
  (ValidateMiddleware md5 authenList authenNow next w r = next challenged r
   /\ exists username password,
        basicAuth r = Some (username, password)
        /\ (authenNow = []
            \/ exists v, v ∈ authenNow /\ Username v = username
                         /\ Password v = md5 password))
  \/ (forall next', ValidateMiddleware md5 authenList authenNow next' w r
                    = httpError "Unauthorized." 401 challenged).
Proof.
  intros Hne challenged. unfold ValidateMiddleware.
  destruct authenList as [|v0 l]; [done|].
  rewrite bool_decide_eq_false_2 by done.
  destruct (basicAuth r) as [[username password]|]; [|by right].
  destruct (authen md5 authenNow username password) eqn:E; [|by right].
  left. split; [done|]. exists username, password. split; [done|].
  by apply authen_inv.
Qed.

(** The sample entry, and a request with a wrong password: the answer is
    the same whatever the handler behind the middleware. *)
Lemma ValidateMiddleware_guards_witness :
  ValidateMiddleware StringToMD5String
    [ {| Username := "user"; Password := "e10adc3949ba59abbe56e057f20f883e" |} ]
    [ {| Username := "user"; Password := "e10adc3949ba59abbe56e057f20f883e" |} ]
    (fun w _ => w) emptyResponse
    {| basicAuth := Some ("user", "12345"); payload := "" |}
  = httpError "Unauthorized." 401
      (setHeader "WWW-Authenticate" restricted_realm emptyResponse).
Proof.
  destruct (ValidateMiddleware_guards StringToMD5String
              [ {| Username := "user"; Password := "e10adc3949ba59abbe56e057f20f883e" |} ]
              [ {| Username := "user"; Password := "e10adc3949ba59abbe56e057f20f883e" |} ]
              (fun w _ => w) emptyResponse
              {| basicAuth := Some ("user", "12345"); payload := "" |})
    as [(_ & u & p & Hb & Hv)|H].
  - discriminate.
  - exfalso. injection Hb as <- <-. destruct Hv as [Hv|(v & Hv & _ & Hp)]; [discriminate Hv|].
    apply list_elem_of_singleton in Hv. subst v. vm_compute in Hp. discriminate Hp.
  - apply H.
Defined.

End AuthenFacts.

Section AbsolutePaths.

Import Filepath OS OS.

Lemma clean_step_proper out e :
  Forall proper out -> Forall proper (clean_step true out e).
Proof.
  intros H. unfold clean_step. repeat case_bool_decide; try done.
  - destruct out as [|top rest]; [done|]. case_bool_decide; [|by inversion H].
    constructor; [|done]. inversion H as [|? ? [_ [_ Ht]]]. done.
  - by constructor.
Qed.

Lemma fold_clean_step_proper l out :
  Forall proper out -> Forall proper (fold_left (clean_step true) l out).
Proof.
  revert out. induction l as [|e l IH]; intros out H; [done|].
  simpl. apply IH. by apply clean_step_proper.
Qed.

Lemma stack_proper p : Forall proper (stack p).
Proof. by apply fold_clean_step_proper. Qed.

Lemma Clean_abs r : Clean (String "/" r) = "/" +:+ String.concat "/" (rev (stack (String "/" r))).
Proof. reflexivity. Qed.

Lemma Join_abs r e :
  has_sep e = false ->
  Join [String "/" r; e]
  = "/" +:+ String.concat "/" (rev (clean_step true (stack (String "/" r)) e)).
Proof.
  intros He. rewrite Join_two by done. rewrite app_cons_s, Clean_abs.
  unfold stack. rewrite <-app_cons_s, split_sep_app, (split_sep_nosep e) by done.
  by rewrite fold_left_app.
Qed.

Lemma concat_proper_nonempty x l : proper x -> String.concat "/" (x :: l) <> "".
Proof.
  intros [Hx _]. destruct x as [|c x]; [done|]. simpl. by destruct l.
Qed.

Lemma app_ne_slash a : a <> "" -> "/" +:+ a <> "/".
Proof. by destruct a. Qed.

(** The name of an entry of an absolute directory: the cleaned directory,
    a separator unless it is the root, the file name. *)
Lemma Join_plain d e :
  IsAbs d -> plain_name e -> Join [d; e] = below_prefix (Clean d) +:+ e.
Proof.
  intros [r ->] (He & H0 & H1 & H2). rewrite Join_abs, Clean_abs by done.
  rewrite clean_step_push by done. simpl rev. rewrite concat_snoc.
  pose proof (stack_proper (String "/" r)) as Hp. apply Forall_rev in Hp.
  unfold below_prefix.
  destruct (rev (stack (String "/" r))) as [|x l] eqn:E.
  - rewrite bool_decide_eq_true_2 by done. done.
  - rewrite bool_decide_eq_false_2.
    + by rewrite !app_assoc_s.
    + apply app_ne_slash, concat_proper_nonempty. by inversion Hp.
Qed.

End AbsolutePaths.

Section DirectoryFacts.

Import Filepath OS OS.

Lemma starts_with_app a b : starts_with a (a +:+ b) = true.
Proof.
  induction a as [|c a IH]; [by destruct b|].
  rewrite app_cons_s. simpl. by rewrite bool_decide_eq_true_2, IH.
Qed.


Lemma app_ne_self a b : b <> "" -> a +:+ b <> a.
Proof.
  intros Hb E. apply (f_equal String.length) in E.
  rewrite length_app_s in E. destruct b; [done|]. simpl in E. lia.
Qed.

Lemma below_app p e : e <> "" -> below p (below_prefix p +:+ e) = true.
Proof.
  intros He. unfold below. rewrite starts_with_app. simpl.
  rewrite bool_decide_eq_false_2; [done|]. by apply app_ne_self.
Qed.

Lemma below_prefix_nonempty p : below_prefix p <> "".
Proof.
  unfold below_prefix. case_bool_decide; [done|]. destruct p; done.
Qed.

Lemma below_prefix_app_ne_slash p x : x <> "" -> below_prefix p +:+ x <> "/".
Proof.
  intros Hx E. apply (f_equal String.length) in E. rewrite length_app_s in E.
  pose proof (below_prefix_nonempty p).
  destruct (below_prefix p); [done|]. destruct x; [done|]. simpl in E. lia.
Qed.

Lemma below_prefix_app p x :
  x <> "" -> below_prefix (below_prefix p +:+ x) = below_prefix p +:+ x +:+ "/".
Proof.
  intros Hx. unfold below_prefix at 1.
  rewrite bool_decide_eq_false_2 by by apply below_prefix_app_ne_slash.
  by rewrite app_assoc_s.
Qed.

(** What lies below an entry of [p] lies below [p]. *)
Lemma below_below p x e :
  x <> "" -> below p (below_prefix (below_prefix p +:+ x) +:+ e) = true.
Proof.
  intros Hx. rewrite below_prefix_app by done. rewrite !app_assoc_s.
  apply below_app. by destruct x.
Qed.

(** The joined name when the element is empty, or ["."]: the directory. *)
Lemma Join_dot d e : IsAbs d -> e = "" \/ e = "." -> Join [d; e] = Clean d.
Proof.
  intros [r ->] He. rewrite Join_abs, Clean_abs by (by destruct He as [-> | ->]).
  unfold clean_step. by destruct He as [-> | ->].
Qed.

(** The directory, from its parent. *)
Lemma Clean_from_parent d :
  IsAbs d -> Join [d; ".."] = Clean d
             \/ exists top, top <> "" /\ Clean d = below_prefix (Join [d; ".."]) +:+ top.
Proof.
  intros [r ->]. rewrite Join_abs, Clean_abs by done.
  pose proof (stack_proper (String "/" r)) as Hp.
  unfold clean_step. simpl.
  destruct (stack (String "/" r)) as [|top rest] eqn:E; [by left|].
  inversion Hp as [|? ? (Ht0 & Ht1 & Ht2) Hrest]; subst.
  rewrite bool_decide_eq_false_2 by done. right. exists top. split; [done|].
  simpl rev. rewrite concat_snoc. apply Forall_rev in Hrest.
  unfold below_prefix.
  destruct (rev rest) as [|x l] eqn:Er.
  - simpl String.concat. rewrite app_nil_r_s. by rewrite bool_decide_eq_true_2.
  - rewrite bool_decide_eq_false_2.
    + by rewrite !app_assoc_s.
    + apply app_ne_slash, concat_proper_nonempty. by inversion Hrest.
Qed.

(** An entry of an absolute directory lies below the directory, and below
    its parent. *)
Lemma below_Join_dot d e e' :
  IsAbs d -> e = "" \/ e = "." \/ e = ".." -> plain_name e' ->
  below (Join [d; e]) (Join [d; e']) = true.
Proof.
  intros Hd He He'. rewrite (Join_plain d e') by done.
  assert (e' <> "") as Hne by apply He'.
  destruct He as [->|[->| ->]].
  - rewrite Join_dot by auto. by apply below_app.
  - rewrite Join_dot by auto. by apply below_app.
  - destruct (Clean_from_parent d Hd) as [->|(top & Ht & ->)].
    + by apply below_app.
    + by apply below_below.
Qed.



End DirectoryFacts.

Section UploadFacts.

Import Filepath OS ConfigurationManager Upload.

Lemma has_sep_SanitizeFilename s : has_sep (Utilities.SanitizeFilename s) = false.
Proof. by apply contains_SanitizeFilename. Qed.

Lemma plain_tmp e : has_sep e = false -> plain_name (e +:+ ".tmp").
Proof.
  intros He. split; [by rewrite has_sep_app, He|].
  assert (forall x, (String.length x < 4)%nat -> e +:+ ".tmp" <> x) as H.
  { intros x Hx E. apply (f_equal String.length) in E.
    rewrite length_app_s in E. simpl in E. lia. }
  repeat split; apply H; simpl; lia.
Qed.

Lemma plain_or_dot e :
  has_sep e = false -> plain_name e \/ e = "" \/ e = "." \/ e = "..".
Proof.
  intros He. destruct (decide (e = "")); [tauto|].
  destruct (decide (e = ".")); [tauto|]. destruct (decide (e = "..")); [tauto|].
  by left.
Qed.


Lemma Join_inj d e e' :
  IsAbs d -> plain_name e -> plain_name e' -> Join [d; e] = Join [d; e'] -> e = e'.
Proof.
  intros Hd He He'. rewrite !Join_plain by done. apply (inj (String.app _)).
Qed.

Lemma has_sep_local_name r h : has_sep (local_name r h) = false.
Proof. unfold local_name. case_bool_decide; apply has_sep_SanitizeFilename. Qed.

(** [os.Create] on the name of an entry of the directory: the entry is a
    regular file, empty; nothing else changes. *)
Lemma Create_spec dir w e f w1 :
  no_links_in dir w -> plain_name e ->
  Create w (Join [dir; e]) = Some (f, w1) ->
  names w1 = <[Join [dir; e] := Reg f]> (names w)
  /\ inodes w1 !! f = Some []
  /\ (forall j, j <> f -> inodes w1 !! j = inodes w !! j)
  /\ sys w1 = sys w /\ room w1 = room w.
Proof.
  intros Hl He. unfold Create. destruct (IsDir w _); [done|].
  intros H%OpenCreateTrunc_inv.
  assert (forall t, names w !! Join [dir; e] <> Some (Lnk t)) as Hreg.
  { intros t. apply Hl. by exists e. }
  rewrite (resolve_not_link _ _ _ Hreg) in H.
  assert (forall path,
            path = Join [dir; e] ->
            f = length (inodes w) ->
            w1 = set_inodes (fun d => d ++ [[]]) (set_names (insert path (Reg f)) w) ->
            names w1 = <[Join [dir; e] := Reg f]> (names w)
            /\ inodes w1 !! f = Some []
            /\ (forall j, j <> f -> inodes w1 !! j = inodes w !! j)
            /\ sys w1 = sys w /\ room w1 = room w) as Hnew.
  { intros path -> -> ->. simpl. split; [done|]. split.
    - rewrite lookup_app_r by done. by rewrite Nat.sub_diag.
    - split; [|done]. intros j Hj.
      destruct (decide (j < length (inodes w))%nat).
      + by rewrite lookup_app_l.
      + rewrite !lookup_ge_None_2; [done | lia |]. rewrite length_app. simpl. lia. }
  destruct (names w !! Join [dir; e]) as [[i|t]|] eqn:E; [| by destruct (Hreg t) |].
  - destruct (inodes w !! i) eqn:Ei.
    + destruct H as [[[= <-] ->]|(path & ? & _)]; [|done].
      simpl. split; [by rewrite insert_id|]. split.
      * apply list_lookup_insert_eq. by eapply lookup_lt_Some.
      * split; [|done]. intros j Hj. by apply list_lookup_insert_ne.
    + destruct H as [[? _]|(path & [= <-] & Hf & Hw)]; [done|]. by eapply Hnew.
  - destruct H as [[? _]|(path & [= <-] & Hf & Hw)]; [done|]. by eapply Hnew.
Qed.

(** [f.Write] of [io.Copy]: what the device accepts of [p] is appended to
    the file; the names stay. *)
Lemma FileWrite_spec f p w c n err h w2 :
  inodes w !! f = Some c ->
  FileWrite (Some (opened f)) p w = (n, err, h, w2) ->
  exists k, (k <= length p)%nat
    /\ names w2 = names w
    /\ inodes w2 = <[f := c ++ take k p]> (inodes w)
    /\ (err = None -> k = length p)
    /\ (room w = None -> err = None)
    /\ (forall r, room w = Some r -> k = Nat.min r (length p)
                                     /\ ((r < length p)%nat -> err <> None)).
Proof.
  intros Hc. unfold FileWrite. simpl. rewrite Hc.
  set (k := match room w with Some r => Nat.min r (length p) | None => length p end).
  intros [= <- <- <- <-]. exists k.
  assert (k <= length p)%nat as Hk by (unfold k; destruct (room w); lia).
  split; [done|]. split; [done|]. split; [done|].
  destruct (Nat.ltb_spec k (length p)) as [Hlt|Hge].
  - split; [done|]. split.
    + intros Hr. unfold k in Hlt. rewrite Hr in Hlt. lia.
    + intros r Hr. unfold k. rewrite Hr. done.
  - split; [intros _; lia|]. split; [done|].
    intros r Hr. unfold k in *. rewrite Hr in *. split; [done|]. lia.
Qed.



Lemma below_irrefl p : below p p = false.
Proof.
  unfold below, below_prefix. case_bool_decide as E.
  - subst p. done.
  - assert (starts_with (p +:+ "/") p = false) as ->; [|done].
    clear E. induction p as [|c p IH]; [done|].
    rewrite app_cons_s. simpl. by rewrite IH, andb_false_r.
Qed.

(** The name of the upload and its temporary name are different names. *)
Lemma final_ne_tmp dir name :
  IsAbs dir -> has_sep name = false ->
  Join [dir; name] <> Join [dir; name +:+ ".tmp"].
Proof.
  intros Hd Hname E. pose proof (plain_tmp name Hname) as Htmp.
  destruct (plain_or_dot name Hname) as [Hplain|Hdot].
  - apply Join_inj in E; [|done..]. symmetry in E. revert E. by apply app_ne_self.
  - pose proof (below_Join_dot dir name _ Hd Hdot Htmp) as Hb.
    rewrite <-E, below_irrefl in Hb. done.
Qed.

(** When the copy or the rename fails, the handler reports the error and
    leaves the temporary file [<name>.tmp] behind, with the bytes copied
    so far (all of them when it is the rename that failed); the final name
    is bound as before. *)
Theorem UploadHandler_leaves_temporary_file (httpConfig : HTTPConfig)
    (templates : string -> bool) (r : Form) (w : world) headerFilename file name e w' :
  let dir := FileServerDirectory httpConfig in
  let final := Join [dir; local_name r headerFilename] in
  let tmp := Join [dir; local_name r headerFilename +:+ ".tmp"] in
  IsAbs dir -> no_links_in dir w -> IsDir w (Clean dir) = true ->
  ParseMultipartForm r = false -> FormFile r = Some (headerFilename, file) ->
  UploadHandler httpConfig templates r w = Ret (ErrorPage name e, w') ->
  e = ErrCopy \/ e = ErrRename ->
  names w' !! final = names w !! final
  /\ exists f k, names w' !! tmp = Some (Reg f)
                 /\ inodes w' !! f = Some (take k file)
                 /\ (e = ErrRename -> take k file = file).
Proof.
  intros dir final tmp Hd Hl _ Hp Hf. unfold UploadHandler. rewrite Hp, Hf.
  fold dir. fold (local_name r headerFilename). fold final tmp.
  assert (has_sep (local_name r headerFilename) = false) as Hname
    by apply has_sep_local_name.
  pose proof (plain_tmp _ Hname) as Htmp.
  pose proof (final_ne_tmp dir _ Hd Hname) as Hne. fold final tmp in Hne.
  destruct (Create w tmp) as [[f w1]|] eqn:Ec.
  2: { destruct (templates _); [|done]. intros [= _ <- _] [?|?]; done. }
  destruct (Create_spec dir w _ f w1 Hl Htmp Ec) as (Hn1 & Hi1 & _).
  destruct (FileWrite (Some (opened f)) file w1) as [[[n err] h] w2] eqn:Ew.
  destruct (FileWrite_spec _ _ _ _ _ _ _ _ Hi1 Ew) as (k & _ & Hn2 & Hi2 & Hk & _).
  assert (names w2 !! final = names w !! final
          /\ names w2 !! tmp = Some (Reg f)
          /\ inodes w2 !! f = Some (take k file)) as (H1 & H2 & H3).
  { rewrite Hn2, Hn1. fold tmp. rewrite lookup_insert_ne, lookup_insert_eq by done.
    split; [done|]. split; [done|]. rewrite Hi2.
    apply list_lookup_insert_eq. by eapply lookup_lt_Some. }
  destruct err as [e'|].
  { destruct (templates _); [|done]. intros [= _ <- <-] _.
    split; [done|]. exists f, k. done. }
  destruct (Rename w2 tmp final) as [w3|] eqn:Er.
  { destruct (templates _); done. }
  destruct (templates _); [|done]. intros [= _ <- <-] _.
  split; [done|]. exists f, k. split; [done|]. split; [done|].
  intros _. rewrite Hk by done. apply firstn_all.
Qed.





End UploadFacts.

Section UploadWitnesses.

Import Filepath OS ConfigurationManager Upload Fixtures UploadFixtures.

Lemma upload_dir_no_links r : no_links_in "/tmp/fileserver-go" (upload_dir r).
Proof.
  intros q t _ H. apply elem_of_list_to_map_2 in H.
  repeat (apply elem_of_cons in H as [H|H]; [discriminate H|]).
  by apply elem_of_nil in H.
Qed.

Lemma upload_dir_IsAbs : IsAbs "/tmp/fileserver-go".
Proof. by eexists. Qed.


Lemma upload_names :
  local_name upload_report "report.txt" = "report.txt"
  /\ Join ["/tmp/fileserver-go"; "report.txt"] = "/tmp/fileserver-go/report.txt"
  /\ Join ["/tmp/fileserver-go"; "report.txt" +:+ ".tmp"]
     = "/tmp/fileserver-go/report.txt.tmp".
Proof. repeat split; vm_compute; reflexivity. Qed.


Lemma UploadHandler_leaves_temporary_file_witness :
  exists w' f k,
    UploadHandler upload_config all_templates upload_report (upload_dir (Some 3%nat))
    = Ret (ErrorPage "report.txt" ErrCopy, w')
    /\ names w' !! "/tmp/fileserver-go/report.txt"
       = names (upload_dir (Some 3%nat)) !! "/tmp/fileserver-go/report.txt"
    /\ names w' !! "/tmp/fileserver-go/report.txt.tmp" = Some (Reg f)
    /\ inodes w' !! f = Some (take k (bytes "new report")).
Proof.
  destruct upload_names as (En & Ef & Et).
  assert (page_of (UploadHandler upload_config all_templates upload_report
                     (upload_dir (Some 3%nat)))
          = Some (ErrorPage "report.txt" ErrCopy)) as R by (vm_compute; reflexivity).
  destruct (UploadHandler upload_config all_templates upload_report
              (upload_dir (Some 3%nat))) as [[pg w']| |] eqn:E; [|discriminate R..].
  injection R as ->.
  pose proof (UploadHandler_leaves_temporary_file upload_config all_templates upload_report
                (upload_dir (Some 3%nat)) "report.txt" (bytes "new report")
                "report.txt" ErrCopy w') as H.
  cbv zeta in H. cbn [FileServerDirectory upload_config] in H.
  rewrite En, Ef, Et in H.
  destruct H as (H1 & f & k & H2 & H3 & _).
  - exact upload_dir_IsAbs.
  - apply upload_dir_no_links.
  - vm_compute. reflexivity.
  - reflexivity.
  - reflexivity.
  - exact E.
  - left. reflexivity.
  - exists w', f, k. split; [reflexivity|]. split; [exact H1|]. split; [exact H2 | exact H3].
Defined.


End UploadWitnesses.
